(** * Sticky backend: the story pipeline and its session store

    A shallow embedding of the AdonisJS services and controllers of the
    repository (story generation and refinement, art style suggestion,
    final illustration, the [StorySession] model) together with the part
    of the JavaScript runtime they rely on: JSON values, [JSON.stringify],
    [JSON.parse], property reads, object spread and template literals.

    The remote OpenAI client is an oracle ([World]); every call a service
    issues is appended to a log, so that statements about the number and
    the order of outbound calls can be made. *)

From Stdlib Require Import ZArith List String Ascii Bool Arith Lia.
From Stdlib Require Import Decimal DecimalString DecimalFacts DecimalPos DecimalZ.
Import ListNotations.
Local Open Scope list_scope.
Local Open Scope string_scope.
Local Open Scope nat_scope.
Set Warnings "-register-all".

(** ** Errors and results *)

(** The exceptions that can travel through the services. *)
Inductive exn : Type :=
| Error (message : string)        (* [new Error(message)] *)
| TypeError                       (* property read on null/undefined, call of a non-function *)
| SyntaxError                     (* [JSON.parse] *)
| ApiError (message : string)     (* a rejected OpenAI request *)
| ValidationError                 (* vine *)
| RowNotFound                     (* [findByOrFail] *)
| DbError.                        (* a constraint of the table *)

Inductive result (A : Type) : Type :=
| Ok (a : A)
| Throw (e : exn).
Arguments Ok {A} a.
Arguments Throw {A} e.

Definition rbind {A B} (r : result A) (k : A -> result B) : result B :=
  match r with
  | Ok a => k a
  | Throw e => Throw e
  end.

(** ** JavaScript values *)

Module Js.

(** What [JSON.parse] can return.  Numbers are kept to the integers (scene
    ids, lengths); strings are sequences of code units below 256.
    [undefined] is not a JSON value: a possibly undefined value is an
    [option jsval] with [None] for [undefined]. *)
Inductive jsval : Type :=
| JNull
| JBool (b : bool)
| JNum (z : Z)
| JStr (s : string)
| JArr (items : list jsval)
| JObj (props : list (string * jsval)).


Definition dquote : string := String (ascii_of_nat 34) EmptyString.

(** Decimal rendering of an integer, as [String(n)] does for the integers
    below 1e21. *)
Definition string_of_Z (z : Z) : string := NilZero.string_of_int (Z.to_int z).

Definition index_key (i : nat) : string := string_of_Z (Z.of_nat i).

(** Truthiness, as [!v] and [v ? a : b] test it. *)
Definition truthy (v : jsval) : bool :=
  match v with
  | JNull => false
  | JBool b => b
  | JNum z => negb (Z.eqb z 0)
  | JStr s => negb (String.eqb s "")
  | JArr _ => true
  | JObj _ => true
  end.

Definition truthy_u (v : option jsval) : bool :=
  match v with
  | None => false
  | Some v => truthy v
  end.

Fixpoint lookup (k : string) (l : list (string * jsval)) : option jsval :=
  match l with
  | [] => None
  | (k', v) :: t => if String.eqb k k' then Some v else lookup k t
  end.

Definition has_key (k : string) (l : list (string * jsval)) : bool :=
  match lookup k l with
  | Some _ => true
  | None => false
  end.

(** [o[k] = v] on an ordinary object: an existing key keeps its place. *)
Fixpoint obj_set (k : string) (v : jsval) (l : list (string * jsval))
  : list (string * jsval) :=
  match l with
  | [] => [(k, v)]
  | (k', v') :: t =>
      if String.eqb k k' then (k, v) :: t else (k', v') :: obj_set k v t
  end.

Fixpoint enum_from {A : Type} (i : nat) (l : list A) : list (string * A) :=
  match l with
  | [] => []
  | x :: t => (index_key i, x) :: enum_from (S i) t
  end.

Definition chars (s : string) : list jsval :=
  map (fun c => JStr (String c EmptyString)) (list_ascii_of_string s).

(** The own enumerable properties of a value, in enumeration order: what
    [{...v}] copies.  (For an object the order is the one of the text it
    was parsed from.) *)
Definition own_props (v : jsval) : list (string * jsval) :=
  match v with
  | JObj l => l
  | JArr l => enum_from 0 l
  | JStr s => enum_from 0 (chars s)
  | _ => []
  end.

(** [v.length] of strings and arrays. *)
Definition length_of (v : jsval) : option jsval :=
  match v with
  | JArr l => Some (JNum (Z.of_nat (List.length l)))
  | JStr s => Some (JNum (Z.of_nat (String.length s)))
  | JObj l => lookup "length" l
  | _ => None
  end.

(** The property read [v.k].  Reading from [null] throws; a missing
    property is [undefined].  Inherited members are not modelled: the keys
    the services read ([story], [artStyles], [narrator], ...) name none. *)
Definition get (v : jsval) (k : string) : result (option jsval) :=
  match v with
  | JNull => Throw TypeError
  | _ => if String.eqb k "length" then Ok (length_of v)
         else Ok (lookup k (own_props v))
  end.

(** The same read on a possibly undefined receiver. *)
Definition get_u (v : option jsval) (k : string) : result (option jsval) :=
  match v with
  | None => Throw TypeError
  | Some v => get v k
  end.

Definition isArray (v : option jsval) : bool :=
  match v with
  | Some (JArr _) => true
  | _ => false
  end.

(** [n !== v] for a number [n]. *)
Definition num_strict_neq (n : Z) (v : option jsval) : bool :=
  match v with
  | Some (JNum z) => negb (Z.eqb n z)
  | _ => true
  end.

Fixpoint join (sep : string) (l : list string) : string :=
  match l with
  | [] => ""
  | [x] => x
  | x :: t => x ++ sep ++ join sep t
  end.

(** [String(v)], which a template literal applies to each hole.  An object
    with an own [toString] key hides [Object.prototype.toString] behind a
    value that cannot be called, and the conversion throws. *)
Fixpoint to_string (v : jsval) : result string :=
  match v with
  | JNull => Ok "null"
  | JBool true => Ok "true"
  | JBool false => Ok "false"
  | JNum z => Ok (string_of_Z z)
  | JStr s => Ok s
  | JArr l =>
      rbind
        ((fix items (l : list jsval) : result (list string) :=
            match l with
            | [] => Ok []
            | x :: t =>
                rbind (match x with JNull => Ok "" | _ => to_string x end)
                  (fun sx => rbind (items t) (fun st => Ok (sx :: st)))
            end) l)
        (fun parts => Ok (join "," parts))
  | JObj l => if has_key "toString" l then Throw TypeError
              else Ok "[object Object]"
  end.

Definition to_string_u (v : option jsval) : result string :=
  match v with
  | None => Ok "undefined"
  | Some v => to_string v
  end.

(** [{ ...v }] *)
Definition spread (v : jsval) : list (string * jsval) := own_props v.

End Js.
Export Js.

(** ** JSON text *)

Module Json.

Definition hex_digit (n : nat) : ascii :=
  if n <? 10 then ascii_of_nat (48 + n) else ascii_of_nat (87 + n).

(** One code unit inside a string literal, as [JSON.stringify] writes it. *)
Definition escape_char (c : ascii) : string :=
  let n := nat_of_ascii c in
  if n =? 34 then "\" ++ dquote
  else if n =? 92 then "\\"
  else if n =? 8 then "\b"
  else if n =? 12 then "\f"
  else if n =? 10 then "\n"
  else if n =? 13 then "\r"
  else if n =? 9 then "\t"
  else if n <? 32 then
    "\u00" ++ String (hex_digit (n / 16)) (String (hex_digit (n mod 16)) "")
  else String c "".

Fixpoint escape (s : string) : string :=
  match s with
  | EmptyString => ""
  | String c t => escape_char c ++ escape t
  end.

Definition quote (s : string) : string := dquote ++ escape s ++ dquote.

(** [JSON.stringify(v)] *)
Fixpoint stringify (v : jsval) : string :=
  match v with
  | JNull => "null"
  | JBool true => "true"
  | JBool false => "false"
  | JNum z => string_of_Z z
  | JStr s => quote s
  | JArr l => "[" ++ join "," (map stringify l) ++ "]"
  | JObj l =>
      "{" ++
      join "," (map (fun kv => quote (fst kv) ++ ":" ++ stringify (snd kv)) l)
      ++ "}"
  end.

Definition is_ws (c : ascii) : bool :=
  let n := nat_of_ascii c in
  (n =? 32) || (n =? 9) || (n =? 10) || (n =? 13).

Fixpoint skip_ws (s : string) : string :=
  match s with
  | EmptyString => ""
  | String c t => if is_ws c then skip_ws t else s
  end.

Definition is_digit (c : ascii) : bool :=
  let n := nat_of_ascii c in (48 <=? n) && (n <=? 57).

Fixpoint span_digits (s : string) : string * string :=
  match s with
  | EmptyString => ("", "")
  | String c t =>
      if is_digit c then let (d, r) := span_digits t in (String c d, r)
      else ("", s)
  end.

Definition starts_fraction (s : string) : bool :=
  match s with
  | String c _ =>
      let n := nat_of_ascii c in (n =? 46) || (n =? 101) || (n =? 69)
  | EmptyString => false
  end.

(** The digits of a number literal, after the optional minus sign.  A
    leading zero may only stand alone.  A literal with a fraction or an
    exponent denotes a double and is outside this model of numbers. *)
Definition parse_digits (s : string) : option (Z * string) :=
  let (d, r) := span_digits s in
  match d with
  | EmptyString => None
  | String c d' =>
      if (nat_of_ascii c =? 48) && negb (String.eqb d' "") then None
      else if starts_fraction r then None
      else match NilEmpty.uint_of_string d with
           | Some u => Some (Z.of_uint u, r)
           | None => None
           end
  end.

Definition parse_number (s : string) : option (jsval * string) :=
  match s with
  | String c t =>
      if nat_of_ascii c =? 45 then
        match parse_digits t with
        | Some (z, r) => Some (JNum (- z), r)
        | None => None
        end
      else
        match parse_digits s with
        | Some (z, r) => Some (JNum z, r)
        | None => None
        end
  | EmptyString => None
  end.

Definition hex_val (c : ascii) : option nat :=
  let n := nat_of_ascii c in
  if (48 <=? n) && (n <=? 57) then Some (n - 48)
  else if (97 <=? n) && (n <=? 102) then Some (n - 87)
  else if (65 <=? n) && (n <=? 70) then Some (n - 55)
  else None.

Definition hex4 (a b c d : ascii) : option nat :=
  match hex_val a, hex_val b, hex_val c, hex_val d with
  | Some x, Some y, Some z, Some w => Some (((x * 16 + y) * 16 + z) * 16 + w)
  | _, _, _, _ => None
  end.

Definition cons_char (c : ascii) (r : option (string * string))
  : option (string * string) :=
  match r with
  | Some (s, rest) => Some (String c s, rest)
  | None => None
  end.

(** The body of a string literal, after the opening quote, up to and
    including the closing one.  A raw control character is rejected, as is
    an escape above the code units of the model. *)
Fixpoint parse_string_body (s : string) : option (string * string) :=
  match s with
  | EmptyString => None
  | String c t =>
      let n := nat_of_ascii c in
      if n =? 34 then Some ("", t)
      else if n =? 92 then
        match t with
        | EmptyString => None
        | String e t1 =>
            let m := nat_of_ascii e in
            if m =? 34 then cons_char e (parse_string_body t1)
            else if m =? 92 then cons_char e (parse_string_body t1)
            else if m =? 47 then cons_char e (parse_string_body t1)
            else if m =? 98 then cons_char (ascii_of_nat 8) (parse_string_body t1)
            else if m =? 102 then cons_char (ascii_of_nat 12) (parse_string_body t1)
            else if m =? 110 then cons_char (ascii_of_nat 10) (parse_string_body t1)
            else if m =? 114 then cons_char (ascii_of_nat 13) (parse_string_body t1)
            else if m =? 116 then cons_char (ascii_of_nat 9) (parse_string_body t1)
            else if m =? 117 then
              match t1 with
              | String h1 (String h2 (String h3 (String h4 t2))) =>
                  match hex4 h1 h2 h3 h4 with
                  | Some code =>
                      if code <? 256
                      then cons_char (ascii_of_nat code) (parse_string_body t2)
                      else None
                  | None => None
                  end
              | _ => None
              end
            else None
        end
      else if n <? 32 then None
      else cons_char c (parse_string_body t)
  end.

Fixpoint expect (w : string) (s : string) : option string :=
  match w with
  | EmptyString => Some s
  | String c w' =>
      match s with
      | String c' s' => if Ascii.eqb c c' then expect w' s' else None
      | EmptyString => None
      end
  end.

Definition literal (w : string) (v : jsval) (s : string)
  : option (jsval * string) :=
  match expect w s with
  | Some r => Some (v, r)
  | None => None
  end.

(** An object literal with a repeated key keeps the last value, at the
    place of the first. *)
Definition build_object (members : list (string * jsval)) : jsval :=
  JObj (fold_left (fun acc kv => obj_set (fst kv) (snd kv) acc) members []).

Fixpoint parse_value (fuel : nat) (s : string) {struct fuel}
  : option (jsval * string) :=
  match fuel with
  | O => None
  | S f =>
      match skip_ws s with
      | EmptyString => None
      | String c t =>
          let n := nat_of_ascii c in
          if n =? 110 then literal "ull" JNull t
          else if n =? 116 then literal "rue" (JBool true) t
          else if n =? 102 then literal "alse" (JBool false) t
          else if n =? 34 then
            match parse_string_body t with
            | Some (str, r) => Some (JStr str, r)
            | None => None
            end
          else if n =? 91 then
            match skip_ws t with
            | String c' r =>
                if nat_of_ascii c' =? 93 then Some (JArr [], r)
                else match parse_elements f t with
                     | Some (l, r') => Some (JArr l, r')
                     | None => None
                     end
            | EmptyString => None
            end
          else if n =? 123 then
            match skip_ws t with
            | String c' r =>
                if nat_of_ascii c' =? 125 then Some (JObj [], r)
                else match parse_members f t with
                     | Some (l, r') => Some (build_object l, r')
                     | None => None
                     end
            | EmptyString => None
            end
          else parse_number (String c t)
      end
  end
with parse_elements (fuel : nat) (s : string) {struct fuel}
  : option (list jsval * string) :=
  match fuel with
  | O => None
  | S f =>
      match parse_value f s with
      | None => None
      | Some (v, r) =>
          match skip_ws r with
          | String c r' =>
              let n := nat_of_ascii c in
              if n =? 44 then
                match parse_elements f r' with
                | Some (l, r'') => Some (v :: l, r'')
                | None => None
                end
              else if n =? 93 then Some ([v], r')
              else None
          | EmptyString => None
          end
      end
  end
with parse_members (fuel : nat) (s : string) {struct fuel}
  : option (list (string * jsval) * string) :=
  match fuel with
  | O => None
  | S f =>
      match skip_ws s with
      | String q t =>
          if nat_of_ascii q =? 34 then
            match parse_string_body t with
            | None => None
            | Some (k, r) =>
                match skip_ws r with
                | String c r1 =>
                    if nat_of_ascii c =? 58 then
                      match parse_value f r1 with
                      | None => None
                      | Some (v, r2) =>
                          match skip_ws r2 with
                          | String c' r3 =>
                              let n := nat_of_ascii c' in
                              if n =? 44 then
                                match parse_members f r3 with
                                | Some (l, r4) => Some ((k, v) :: l, r4)
                                | None => None
                                end
                              else if n =? 125 then Some ([(k, v)], r3)
                              else None
                          | EmptyString => None
                          end
                      end
                    else None
                | EmptyString => None
                end
            end
          else None
      | EmptyString => None
      end
  end.

(** [JSON.parse(s)]; [None] is the [SyntaxError]. *)
Definition parse (s : string) : option jsval :=
  match parse_value (2 + 2 * String.length s) s with
  | Some (v, r) =>
      match skip_ws r with
      | EmptyString => Some v
      | String _ _ => None
      end
  | None => None
  end.

End Json.

(** ** The world outside: the OpenAI client, the console, the table *)

Module Remote.

Inductive ContentPart : Type :=
| Text (text : string)
| ImageUrl (url : string).

Record Message : Type := mkMessage {
  role : string;
  content : list ContentPart
}.

Record ChatRequest : Type := mkChatRequest {
  chat_model : string;
  messages : list Message;
  json_object : bool;              (* response_format: { type: 'json_object' } *)
  max_tokens : option nat
}.

(** [choices[i].message.content] is a string or null. *)
Record ChatCompletion : Type := mkChatCompletion {
  choices : list (option string)
}.

(** Every image request of the repository has model dall-e-3, n 1, size
    1024x1024 and quality standard; only the prompt varies. *)
Record ImageRequest : Type := mkImageRequest {
  prompt : string
}.

Record Image : Type := mkImage {
  url : option string
}.

Record ImagesResponse : Type := mkImagesResponse {
  data : option (list Image)
}.

(** How a promise settles. *)
Inductive settled (A : Type) : Type :=
| Resolved (a : A)
| Rejected (message : string).
Arguments Resolved {A} a.
Arguments Rejected {A} message.

Inductive Call : Type :=
| ChatCall (r : ChatRequest)
| ImageCall (r : ImageRequest).

(** The behaviour of everything the process does not control.  A remote
    answer may depend on the request and on how many requests were issued
    before it. *)
Record World : Type := mkWorld {
  chat_completions : nat -> ChatRequest -> settled ChatCompletion;
  images_generate : nat -> ImageRequest -> settled ImagesResponse;
  randomUUID : nat -> string;
  isURL : string -> bool           (* the url rule of the validator *)
}.

End Remote.
Export Remote.

(** A row of the table [story_sessions] of the migration.  The column
    [current_story_state] is not nullable and holds JSON text; [uuid] is
    unique.  The two timestamps are maintained by the ORM and left out. *)
Record Row : Type := mkRow {
  row_id : nat;
  row_uuid : string;
  initial_briefing : string;
  scene_count : Z;
  current_story_state : string
}.

(** What the services print: [console.log], [console.warn] with its
    [{ expected, got }], [console.error] with the exception caught. *)
Inductive LogLine : Type :=
| ConsoleLog (label : string) (text : string)
| ConsoleWarn (label : string) (expected : option jsval) (got : option jsval)
| ConsoleError (label : string) (error : exn).

Record State : Type := mkState {
  db : list Row;
  next_id : nat;                   (* the autoincrement counter *)
  drawn : nat;                     (* uuids drawn so far *)
  calls : list Call;               (* remote requests issued, oldest first *)
  console : list LogLine
}.

(** The state with another table. *)
Definition with_db (st : State) (d : list Row) (n : nat) : State :=
  mkState d n (drawn st) (calls st) (console st).

(** ** The monad of the request handlers: world, state, exceptions *)

Definition M (A : Type) : Type := World -> State -> result A * State.

Definition ret {A} (a : A) : M A := fun _ st => (Ok a, st).

Definition bind {A B} (m : M A) (k : A -> M B) : M B :=
  fun w st =>
    match m w st with
    | (Ok a, st') => k a w st'
    | (Throw e, st') => (Throw e, st')
    end.

Definition throw {A} (e : exn) : M A := fun _ st => (Throw e, st).

Definition lift {A} (r : result A) : M A := fun _ st => (r, st).

(** [try { m } catch (error) { h error }]: what [m] did before it threw
    stays done. *)
Definition try_catch {A} (m : M A) (h : exn -> M A) : M A :=
  fun w st =>
    match m w st with
    | (Ok a, st') => (Ok a, st')
    | (Throw e, st') => h e w st'
    end.

Notation "x <- m ;; k" := (bind m (fun x => k))
  (at level 61, m at next level, right associativity).
Notation "m ;;; k" := (bind m (fun _ => k))
  (at level 61, right associativity).

Definition console_write (l : LogLine) : M unit :=
  fun _ st =>
    (Ok tt, mkState (db st) (next_id st) (drawn st) (calls st)
              (console st ++ [l])%list).

(** One more request in the log. *)
Definition record_call (c : Call) (st : State) : State :=
  mkState (db st) (next_id st) (drawn st) (calls st ++ [c])%list (console st).

(** [openai.images.generate(r)]: the request leaves at once; the promise
    it returns settles later, as the world decides. *)
Definition openai_images_generate (r : ImageRequest)
  : M (settled ImagesResponse) :=
  fun w st =>
    (Ok (images_generate w (List.length (calls st)) r),
     record_call (ImageCall r) st).

(** [await p] *)
Definition await {A} (p : settled A) : M A :=
  match p with
  | Resolved a => ret a
  | Rejected msg => throw (ApiError msg)
  end.

(** [await openai.chat.completions.create(r)] *)
Definition openai_chat_completions_create (r : ChatRequest)
  : M ChatCompletion :=
  fun w st =>
    await (chat_completions w (List.length (calls st)) r) w
      (record_call (ChatCall r) st).

(** [await Promise.all(ps)]: the results in the order of [ps], or the
    rejection of one of them (the model takes the first in the list; which
    one wins in time is not determined by the code). *)
Fixpoint promise_all {A} (ps : list (settled A)) : M (list A) :=
  match ps with
  | [] => ret []
  | p :: t => a <- await p ;; l <- promise_all t ;; ret (a :: l)
  end.

(** [xs.map(f)] for a callback with effects: left to right, stopping at the
    first call that throws. *)
Fixpoint mapM {A B} (f : A -> M B) (xs : list A) : M (list B) :=
  match xs with
  | [] => ret []
  | x :: t => y <- f x ;; l <- mapM f t ;; ret (y :: l)
  end.

(** [xs.map((x, index) => f x index)] for a callback that may throw. *)
Fixpoint mapi_from {A B} (f : A -> nat -> result B) (i : nat) (xs : list A)
  : result (list B) :=
  match xs with
  | [] => Ok []
  | x :: t =>
      rbind (f x i) (fun y => rbind (mapi_from f (S i) t) (fun l => Ok (y :: l)))
  end.

(** The receiver of [.map]: arrays have it, nothing else [JSON.parse]
    returns does. *)
Definition array_items (v : jsval) : result (list jsval) :=
  match v with
  | JArr l => Ok l
  | _ => Throw TypeError
  end.

(** A text between double quotes, for the prompts. *)
Definition q (s : string) : string := dquote ++ s ++ dquote.

(** [completion.choices[0].message.content] *)
Definition first_content (c : ChatCompletion) : result (option string) :=
  match choices c with
  | [] => Throw TypeError
  | m :: _ => Ok m
  end.

(** [results[index].data?.[0]?.url] *)
Definition first_url (r : ImagesResponse) : option string :=
  match data r with
  | None => None
  | Some [] => None
  | Some (i :: _) => url i
  end.

(** The value of [imageUrl] when [!imageUrl] is false: a url that is there
    and not the empty string. *)
Definition usable_url (r : ImagesResponse) : option string :=
  match first_url r with
  | Some u => if String.eqb u "" then None else Some u
  | None => None
  end.

(** [JSON.parse(s)] with its exception. *)
Definition JSON_parse (s : string) : result jsval :=
  match Json.parse s with
  | Some v => Ok v
  | None => Throw SyntaxError
  end.

(** White space and line terminators below 256. *)
Definition is_trim_ws (c : ascii) : bool :=
  let n := nat_of_ascii c in
  ((9 <=? n) && (n <=? 13)) || (n =? 32) || (n =? 160).

Fixpoint trim_start (s : string) : string :=
  match s with
  | EmptyString => ""
  | String c t => if is_trim_ws c then trim_start t else s
  end.

Fixpoint trim_end (s : string) : string :=
  match s with
  | EmptyString => ""
  | String c t =>
      match trim_end t with
      | EmptyString => if is_trim_ws c then "" else String c ""
      | t' => String c t'
      end
  end.

(** [s.trim()] *)
Definition trim (s : string) : string := trim_end (trim_start s).

(** The line feed of the template literals. *)
Definition nl : string := String (ascii_of_nat 10) EmptyString.

(** [JSON.stringify(v, null, 2)] *)
Fixpoint stringify_indent (ind : string) (v : jsval) : string :=
  match v with
  | JArr [] => "[]"
  | JArr l =>
      let ind' := ind ++ "  " in
      "[" ++ nl ++ ind' ++
      (fix items (l : list jsval) : string :=
         match l with
         | [] => ""
         | [x] => stringify_indent ind' x
         | x :: t => stringify_indent ind' x ++ "," ++ nl ++ ind' ++ items t
         end) l ++ nl ++ ind ++ "]"
  | JObj [] => "{}"
  | JObj l =>
      let ind' := ind ++ "  " in
      "{" ++ nl ++ ind' ++
      (fix members (l : list (string * jsval)) : string :=
         match l with
         | [] => ""
         | [(k, x)] => Json.quote k ++ ": " ++ stringify_indent ind' x
         | (k, x) :: t =>
             Json.quote k ++ ": " ++ stringify_indent ind' x ++ "," ++ nl ++
             ind' ++ members t
         end) l ++ nl ++ ind ++ "}"
  | _ => Json.stringify v
  end.

(** The hole [${v.k}] of a template literal. *)
Definition hole (v : option jsval) (k : string) : result string :=
  rbind (get_u v k) to_string_u.

(** ** app/models/story_session.ts *)

Module StorySession.

(** A model instance.  [id] and [uuid] are absent until the row exists. *)
Record t : Type := mk {
  id : option nat;
  uuid : option string;
  initialBriefing : string;
  sceneCount : Z;
  currentStoryState : jsval
}.

(** [prepare: (value) => (value ? JSON.stringify(value) : null)] *)
Definition prepare (value : jsval) : option string :=
  if truthy value then Some (Json.stringify value) else None.

(** [consume: (value) => (value ? JSON.parse(value) : null)] *)
Definition consume (value : option string) : result jsval :=
  match value with
  | Some s => if negb (String.eqb s "") then JSON_parse s else Ok JNull
  | None => Ok JNull
  end.

Definition draw_uuid : M string :=
  fun w st =>
    (Ok (randomUUID w (drawn st)),
     mkState (db st) (next_id st) (S (drawn st)) (calls st) (console st)).

(** The [beforeCreate] hook. *)
Definition generateUuid (session : t) : M t :=
  match uuid session with
  | Some u =>
      if negb (String.eqb u "") then ret session
      else
        u' <- draw_uuid ;;
        ret (mk (id session) (Some u') (initialBriefing session)
               (sceneCount session) (currentStoryState session))
  | None =>
      u' <- draw_uuid ;;
      ret (mk (id session) (Some u') (initialBriefing session)
             (sceneCount session) (currentStoryState session))
  end.

Definition uuid_taken (u : string) (d : list Row) : bool :=
  existsb (fun r => String.eqb (row_uuid r) u) d.

(** The INSERT of a new instance, under the constraints of the table. *)
Definition insert (session : t) : M t :=
  fun _ st =>
    match uuid session, prepare (currentStoryState session) with
    | Some u, Some text =>
        if uuid_taken u (db st) then (Throw DbError, st)
        else
          let r := mkRow (next_id st) u (initialBriefing session)
                     (sceneCount session) text in
          (Ok (mk (Some (next_id st)) (Some u) (initialBriefing session)
                 (sceneCount session) (currentStoryState session)),
           with_db st (db st ++ [r])%list (S (next_id st)))
    | _, _ => (Throw DbError, st)
    end.

(** [StorySession.create(values)]: hook, then INSERT. *)
Definition create (briefing : string) (count : Z) (story : jsval) : M t :=
  session <- generateUuid (mk None None briefing count story) ;;
  insert session.

Fixpoint find_row (u : string) (d : list Row) : option Row :=
  match d with
  | [] => None
  | r :: t => if String.eqb (row_uuid r) u then Some r else find_row u t
  end.

(** [StorySession.findByOrFail('uuid', value)] *)
Definition findByOrFail (value : string) : M t :=
  fun _ st =>
    match find_row value (db st) with
    | None => (Throw RowNotFound, st)
    | Some r =>
        (rbind (consume (Some (current_story_state r)))
           (fun story =>
              Ok (mk (Some (row_id r)) (Some (row_uuid r)) (initial_briefing r)
                    (scene_count r) story)),
         st)
    end.

Fixpoint update_row (i : nat) (r' : Row) (d : list Row) : list Row :=
  match d with
  | [] => []
  | r :: t => if row_id r =? i then r' :: t else r :: update_row i r' t
  end.

(** [session.save()] on an instance that was read from the table: the
    UPDATE of its row.  Lucid sends the columns that were assigned; the
    others still hold what was read, so writing the whole instance stores
    the same row.  (Lucid sends nothing when the assigned story equals the
    one that was read; the text written here then reads as that story.) *)
Definition save (session : t) : M unit :=
  fun _ st =>
    match id session, uuid session, prepare (currentStoryState session) with
    | Some i, Some u, Some text =>
        (Ok tt,
         with_db st
           (update_row i
              (mkRow i u (initialBriefing session) (sceneCount session) text)
              (db st))
           (next_id st))
    | _, _, _ => (Throw DbError, st)
    end.

Definition assign_story (session : t) (story : jsval) : t :=
  mk (id session) (uuid session) (initialBriefing session)
    (sceneCount session) story.

End StorySession.

(** ** app/services/story_generator_service.ts *)

Module StoryGeneratorService.

Definition getSystemMessage : string :=
  "You are an expert creative writer and a strict data architect for a web-based story game. Your task is to generate a linear story."
  ++ nl ++ nl ++
  "    RULES:" ++ nl ++
  "    1. Your ENTIRE response MUST be a single, valid JSON object." ++ nl ++
  "    2. The JSON object must have a single root key named " ++ q "story" ++ "." ++ nl ++
  "    3. The value of " ++ q "story" ++ " must be a JSON array of scene objects." ++ nl ++
  "    4. Do NOT include any text, explanations, or markdown before or after the JSON object." ++ nl ++
  "    5. Each scene object in the array must contain these exact keys: "
  ++ q "id" ++ ", " ++ q "narrator" ++ ", " ++ q "character" ++ ", "
  ++ q "characterImagePrompt" ++ ", " ++ q "dialogue" ++ ", "
  ++ q "backgroundPrompt" ++ "." ++ nl ++ "    ".

Definition buildInitialPrompt (briefing : string) (sceneCount : Z) : string :=
  nl ++
  "    Generate a story based on the following details. The story array must contain exactly "
  ++ string_of_Z sceneCount ++ " scenes." ++ nl ++ nl ++
  "    STORY BRIEFING: " ++ q briefing ++ nl ++ "    ".

Definition getRefinementSystemMessage : string :=
  "You are a helpful story editor. Your task is to revise and rewrite a story based on user feedback."
  ++ nl ++ nl ++
  "    RULES:" ++ nl ++
  "    1. You will be given the [CURRENT_STORY] as a JSON array and a [REFINEMENT_PROMPT] with instructions." ++ nl ++
  "    2. Your job is to rewrite the story according to the instructions." ++ nl ++
  "    3. You MUST return the ENTIRE, new version of the story." ++ nl ++
  "    4. Your response MUST be a single, valid JSON object with a single root key named " ++ q "story" ++ "." ++ nl ++
  "    5. The value of " ++ q "story" ++ " must be a JSON array of scene objects." ++ nl ++
  "    6. Maintain the original number of scenes unless specifically asked to change it." ++ nl ++
  "    7. Ensure every scene object in the new array has the correct keys: "
  ++ q "id" ++ ", " ++ q "narrator" ++ ", " ++ q "character" ++ ", "
  ++ q "characterImagePrompt" ++ ", " ++ q "dialogue" ++ ", "
  ++ q "backgroundPrompt" ++ "." ++ nl ++ "    ".

Definition buildRefinementPrompt (existingStory : jsval)
  (refinementPrompt : string) : string :=
  let storyJsonString := stringify_indent "" existingStory in
  nl ++
  "    [CURRENT_STORY]:" ++ nl ++
  "    " ++ storyJsonString ++ nl ++ nl ++
  "    [REFINEMENT_PROMPT]:" ++ nl ++
  "    " ++ q refinementPrompt ++ nl ++ nl ++
  "    Please revise the story according to the refinement prompt and return the complete, updated story."
  ++ nl ++ "    ".

Definition story_request (system user : string) : ChatRequest :=
  mkChatRequest "gpt-4o"
    [mkMessage "system" [Text system]; mkMessage "user" [Text user]]
    true None.

Definition generation_failure : exn :=
  Error "Failed to generate story from AI service.".

Definition refinement_failure : exn :=
  Error "Failed to refine story from AI service.".

(** [generateLinearStory(briefing, sceneCount)].  The whole body after the
    prompt is inside [try]; whatever is thrown there is logged and replaced
    by the generation failure. *)
Definition generateLinearStory (briefing : string) (sceneCount : Z) : M jsval :=
  let prompt := buildInitialPrompt briefing sceneCount in
  try_catch
    (completion <- openai_chat_completions_create
                     (story_request getSystemMessage prompt) ;;
     content <- lift (first_content completion) ;;
     match content with
     | None => throw (Error "OpenAI returned an empty response.")
     | Some text =>
         if String.eqb text "" then throw (Error "OpenAI returned an empty response.")
         else
           parsedResponse <- lift (JSON_parse text) ;;
           storyArray <- lift (get parsedResponse "story") ;;
           match storyArray with
           | Some (JArr items) =>
               (* Array.isArray holds; the length test decides *)
               if negb (Z.eqb (Z.of_nat (List.length items)) sceneCount)
               then throw (Error "AI did not return the expected story structure or scene count.")
               else ret (JArr items)
           | _ =>
               throw (Error "AI did not return the expected story structure or scene count.")
           end
     end)
    (fun error =>
       console_write (ConsoleError "Error calling OpenAI API:" error) ;;;
       throw generation_failure).

Definition refinement_warning : string :=
  "AI returned a story with a different number of scenes. This might be okay.".

(** [refineStory(existingStory, refinementPrompt)].  The prompt and
    [existingStory.length] are computed before [try].  Inside, the test
    [!Array.isArray(storyArray) || storyArray.length !== sceneCount] only
    guards a warning, whose argument reads [storyArray.length] once more;
    [storyArray] is returned in every case. *)
Definition refineStory (existingStory : jsval) (refinementPrompt : string)
  : M jsval :=
  let prompt := buildRefinementPrompt existingStory refinementPrompt in
  sceneCount <- lift (get existingStory "length") ;;
  try_catch
    (completion <- openai_chat_completions_create
                     (story_request getRefinementSystemMessage prompt) ;;
     content <- lift (first_content completion) ;;
     match content with
     | None => throw (Error "OpenAI returned an empty response during refinement.")
     | Some text =>
         if String.eqb text ""
         then throw (Error "OpenAI returned an empty response during refinement.")
         else
           parsedResponse <- lift (JSON_parse text) ;;
           storyArray <- lift (get parsedResponse "story") ;;
           match storyArray with
           | Some (JArr items) =>
               let n := Z.of_nat (List.length items) in
               (if num_strict_neq n sceneCount
                then console_write
                       (ConsoleWarn refinement_warning sceneCount (Some (JNum n)))
                else ret tt) ;;;
               ret (JArr items)
           | Some v =>
               (* not an array: the warning is built, reading v.length *)
               got <- lift (get v "length") ;;
               console_write (ConsoleWarn refinement_warning sceneCount got) ;;;
               ret v
           | None =>
               (* undefined: reading storyArray.length throws *)
               throw TypeError
           end
     end)
    (fun error =>
       console_write (ConsoleError "Error calling OpenAI API for refinement:" error) ;;;
       throw refinement_failure).

End StoryGeneratorService.

Definition image_request (p : string) : ImageRequest := mkImageRequest p.

(** The callback [(x) => openai.images.generate({ prompt: build(x), ... })]
    of a [map] that starts a batch of image requests. *)
Definition send_image (build : jsval -> result string) (x : jsval)
  : M (settled ImagesResponse) :=
  p <- lift (build x) ;;
  openai_images_generate (image_request p).

(** ** app/services/art_style_service.ts *)

Module ArtStyleService.

Definition getSystemMessage : string :=
  "You are a professional Art Director for a video game studio, specializing in visual storytelling. Your task is to propose three distinct and compelling art styles for a new story."
  ++ nl ++ nl ++
  "    RULES:" ++ nl ++
  "    1.  You will be given a description of the first scene." ++ nl ++
  "    2.  Your response MUST be a single, valid JSON object." ++ nl ++
  "    3.  The JSON object must have a single root key named " ++ q "artStyles" ++ "." ++ nl ++
  "    4.  The value of " ++ q "artStyles" ++ " must be a JSON array containing EXACTLY THREE style suggestion objects." ++ nl ++
  "    5.  Each style suggestion object must have these keys: " ++ q "name"
  ++ " (a catchy name for the style), " ++ q "description"
  ++ " (a brief explanation of the style's look and feel), and " ++ q "imagePrompt"
  ++ " (a detailed, reusable prompt suffix for an AI image generator that encapsulates the style)."
  ++ nl ++ "    ".

Definition buildPrompt (firstScene : option jsval) : result string :=
  rbind (hole firstScene "narrator") (fun narrator =>
  rbind (hole firstScene "character") (fun character =>
  rbind (hole firstScene "characterImagePrompt") (fun characterImagePrompt =>
  rbind (hole firstScene "backgroundPrompt") (fun backgroundPrompt =>
    let sceneContext :=
      nl ++
      "    - Setting: " ++ narrator ++ nl ++
      "    - Character in Scene: " ++ character ++ nl ++
      "    - Character Details: " ++ characterImagePrompt ++ nl ++
      "    - Background Details: " ++ backgroundPrompt ++ nl ++ "    " in
    Ok (nl ++
        "    Based on the following scene context, please generate three distinct art style proposals."
        ++ nl ++ nl ++
        "    [SCENE CONTEXT]:" ++ nl ++
        "    " ++ sceneContext ++ nl ++ "    "))))).

Definition styles_request (user : string) : ChatRequest :=
  mkChatRequest "gpt-4o"
    [mkMessage "system" [Text getSystemMessage]; mkMessage "user" [Text user]]
    true None.

(** [generateStylePrompts(firstScene)]: no [try] here, every exception
    leaves as it is. *)
Definition generateStylePrompts (firstScene : option jsval) : M (list jsval) :=
  prompt <- lift (buildPrompt firstScene) ;;
  completion <- openai_chat_completions_create (styles_request prompt) ;;
  content <- lift (first_content completion) ;;
  match content with
  | None => throw (Error "OpenAI returned an empty response for art styles.")
  | Some text =>
      if String.eqb text ""
      then throw (Error "OpenAI returned an empty response for art styles.")
      else
        parsedResponse <- lift (JSON_parse text) ;;
        styles <- lift (get parsedResponse "artStyles") ;;
        match styles with
        | Some (JArr items) =>
            if negb (List.length items =? 3)
            then throw (Error "AI did not return exactly three art style suggestions.")
            else ret items
        | _ => throw (Error "AI did not return exactly three art style suggestions.")
        end
  end.

(** The text of the prompt of one style preview. *)
Definition fullImagePrompt (firstScene : option jsval) (style : jsval)
  : result string :=
  rbind (hole firstScene "characterImagePrompt") (fun characterImagePrompt =>
  rbind (hole (Some style) "imagePrompt") (fun imagePrompt =>
    Ok (characterImagePrompt ++ ", " ++ imagePrompt))).

(** The callback of the first [map]: build the prompt, send the request. *)
Definition style_image (firstScene : option jsval)
  : jsval -> M (settled ImagesResponse) :=
  send_image (fullImagePrompt firstScene).

(** [{ ...style, imageUrl }] *)
Definition with_image (style : jsval) (imageUrl : string) : jsval :=
  JObj (obj_set "imageUrl" (JStr imageUrl) (spread style)).

(** The callback of the second [map]. *)
Definition style_suggestion (imageResults : list ImagesResponse)
  (style : jsval) (index : nat) : result jsval :=
  match nth_error imageResults index with
  | None => Throw TypeError
  | Some r =>
      match usable_url r with
      | Some imageUrl => Ok (with_image style imageUrl)
      | None =>
          rbind (hole (Some style) "name") (fun name =>
            Throw (Error ("DALL-E did not return an image URL for style: " ++ name)))
      end
  end.

(** [suggestStyles(firstScene)] *)
Definition suggestStyles (firstScene : option jsval) : M jsval :=
  stylePrompts <- generateStylePrompts firstScene ;;
  imageGenerationPromises <- mapM (style_image firstScene) stylePrompts ;;
  imageResults <- promise_all imageGenerationPromises ;;
  finalSuggestions <- lift (mapi_from (style_suggestion imageResults) 0 stylePrompts) ;;
  ret (JArr finalSuggestions).

Definition refine_request (imageUrl originalPrompt refinementRequest : string)
  : ChatRequest :=
  mkChatRequest "gpt-4o"
    [mkMessage "system"
       [Text "You are an expert DALL-E prompt engineer. You will be shown an image, the prompt that created it, and a user's request for a change. Your job is to create a new, single, cohesive DALL-E prompt that keeps the original image's style and composition, but incorporates the user's change. Output ONLY the new prompt text, nothing else."];
     mkMessage "user"
       [Text ("This is the original prompt: " ++ q originalPrompt
              ++ ". This is my change request: " ++ q refinementRequest
              ++ ". Please give me the new, complete DALL-E prompt.");
        ImageUrl imageUrl]]
    false (Some 500).

Definition getRefinedImagePrompt (imageUrl originalPrompt refinementRequest : string)
  : M string :=
  completion <- openai_chat_completions_create
                  (refine_request imageUrl originalPrompt refinementRequest) ;;
  newPrompt <- lift (first_content completion) ;;
  match newPrompt with
  | None => throw (Error "GPT-4o failed to generate a refined prompt.")
  | Some s =>
      if String.eqb s "" then throw (Error "GPT-4o failed to generate a refined prompt.")
      else ret (trim s)
  end.

(** [refineStyle(originalImageUrl, originalImagePrompt, refinementPrompt)] *)
Definition refineStyle (originalImageUrl originalImagePrompt refinementPrompt : string)
  : M string :=
  newPrompt <- getRefinedImagePrompt originalImageUrl originalImagePrompt
                 refinementPrompt ;;
  promise <- openai_images_generate (image_request newPrompt) ;;
  imageResponse <- await promise ;;
  match usable_url imageResponse with
  | None => throw (Error "DALL-E failed to generate the refined image.")
  | Some newImageUrl => ret newImageUrl
  end.

End ArtStyleService.

(** ** app/services/final_story_service.ts *)

Module FinalStoryService.

Definition consistency_request (imageUrl : string) : ChatRequest :=
  mkChatRequest "gpt-4o"
    [mkMessage "system"
       [Text "You are an expert character designer and DALL-E prompt engineer. Analyze the provided image and create a detailed, reusable prompt that describes the main character's specific physical appearance (hair style and color, eye color, facial structure, specific clothing, etc.) and the overall art style (e.g., 'digital painting', 'anime style', 'cyberpunk noir'). This description will be used to generate new images of the same character in different scenes. Output ONLY the descriptive prompt text."];
     mkMessage "user"
       [Text "Please generate the detailed character and style description for this image.";
        ImageUrl imageUrl]]
    false (Some 400).

Definition createConsistencyPrompt (imageUrl : string) : M string :=
  completion <- openai_chat_completions_create (consistency_request imageUrl) ;;
  newPrompt <- lift (first_content completion) ;;
  match newPrompt with
  | None => throw (Error "GPT-4o failed to generate a consistency prompt from the image.")
  | Some s =>
      if String.eqb s ""
      then throw (Error "GPT-4o failed to generate a consistency prompt from the image.")
      else ret (trim s)
  end.

(** The text of the prompt of one scene. *)
Definition finalPrompt (consistencyPrompt : string) (scene : jsval)
  : result string :=
  rbind (hole (Some scene) "narrator") (fun narrator =>
  rbind (hole (Some scene) "character") (fun character =>
  rbind (hole (Some scene) "dialogue") (fun dialogue =>
    Ok (consistencyPrompt ++ ". The scene is: " ++ q narrator
        ++ ". The character is " ++ character
        ++ " and they are saying " ++ q dialogue ++ ".")))).

(** The callback of the first [map]. *)
Definition scene_image (consistencyPrompt : string)
  : jsval -> M (settled ImagesResponse) :=
  send_image (finalPrompt consistencyPrompt).

(** [{ ...scene, characterImagePrompt: imageUrl, backgroundPrompt: '' }] *)
Definition illustrated (scene : jsval) (imageUrl : string) : jsval :=
  JObj (obj_set "backgroundPrompt" (JStr "")
          (obj_set "characterImagePrompt" (JStr imageUrl) (spread scene))).

(** The callback of the second [map]. *)
Definition finalized_scene (imageResults : list ImagesResponse)
  (scene : jsval) (index : nat) : result jsval :=
  match nth_error imageResults index with
  | None => Throw TypeError
  | Some r =>
      match usable_url r with
      | Some imageUrl => Ok (illustrated scene imageUrl)
      | None =>
          rbind (hole (Some scene) "id") (fun i =>
            Throw (Error ("DALL-E failed to generate image for scene " ++ i)))
      end
  end.

(** [generateFinalImages(scenes, referenceImageUrl)] *)
Definition generateFinalImages (scenes : jsval) (referenceImageUrl : string)
  : M jsval :=
  consistencyPrompt <- createConsistencyPrompt referenceImageUrl ;;
  console_write (ConsoleLog "Generated Master Consistency Prompt:" consistencyPrompt) ;;;
  items <- lift (array_items scenes) ;;
  imageGenerationPromises <- mapM (scene_image consistencyPrompt) items ;;
  imageResults <- promise_all imageGenerationPromises ;;
  finalizedScenes <- lift (mapi_from (finalized_scene imageResults) 0 items) ;;
  ret (JArr finalizedScenes).

End FinalStoryService.

(** ** app/controllers *)

Inductive Response : Type :=
| Created (body : jsval)                   (* response.created(body) *)
| OkBody (body : jsval)                    (* response.ok(body) *)
| OkSession (session : StorySession.t)     (* response.ok(session) *)
| BadRequest (body : jsval)                (* response.badRequest(body) *)
| Returned (body : jsval).                 (* return body *)

Definition session_body (session : StorySession.t) : jsval :=
  JObj ((match StorySession.uuid session with
         | Some u => [("sessionId", JStr u)]
         | None => []
         end)
        ++ [("story", StorySession.currentStoryState session)])%list.

(** What vine checks on a body whose fields have the right types. *)
Definition validateUsing (ok : bool) : M unit :=
  if ok then ret tt else throw ValidationError.

Module StoryGeneratorController.

Record StoreBody : Type := mkStoreBody {
  briefing : string;
  sceneCount : Z
}.

Definition store (body : StoreBody) : M Response :=
  validateUsing ((10 <=? String.length (briefing body))
                 && (2 <=? sceneCount body)%Z && (sceneCount body <=? 10)%Z) ;;;
  initialStory <- StoryGeneratorService.generateLinearStory
                    (briefing body) (sceneCount body) ;;
  session <- StorySession.create (briefing body) (sceneCount body) initialStory ;;
  ret (Created (session_body session)).

Definition update (id : string) (prompt : string) : M Response :=
  session <- StorySession.findByOrFail id ;;
  validateUsing (5 <=? String.length prompt) ;;;
  refinedStory <- StoryGeneratorService.refineStory
                    (StorySession.currentStoryState session) prompt ;;
  let session := StorySession.assign_story session refinedStory in
  StorySession.save session ;;;
  ret (OkBody (session_body session)).

End StoryGeneratorController.

Module ArtStylesController.

Definition no_scenes : jsval :=
  JObj [("message", JStr "Story has no scenes to analyze.")].

(** [!state || state.length === 0] *)
Definition has_no_scenes (state : jsval) : bool :=
  negb (truthy state)
  || match length_of state with
     | Some (JNum z) => Z.eqb z 0
     | _ => false
     end.

Definition show (id : string) : M Response :=
  session <- StorySession.findByOrFail id ;;
  let state := StorySession.currentStoryState session in
  if has_no_scenes state then ret (BadRequest no_scenes)
  else
    firstScene <- lift (get state (index_key 0)) ;;
    suggestions <- ArtStyleService.suggestStyles firstScene ;;
    ret (Returned suggestions).

Record UpdateBody : Type := mkUpdateBody {
  originalImageUrl : string;
  originalImagePrompt : string;
  refinementPrompt : string
}.

Definition update (body : UpdateBody) : M Response :=
  (fun w => validateUsing (isURL w (originalImageUrl body)
                           && (10 <=? String.length (originalImagePrompt body))
                           && (5 <=? String.length (refinementPrompt body))) w) ;;;
  newImageUrl <- ArtStyleService.refineStyle (originalImageUrl body)
                   (originalImagePrompt body) (refinementPrompt body) ;;
  ret (Created (JObj [("newImageUrl", JStr newImageUrl)])).

End ArtStylesController.

Module FinalStoriesController.

Definition store (sessionId : string) (referenceImageUrl : string) : M Response :=
  session <- StorySession.findByOrFail sessionId ;;
  (fun w => validateUsing (isURL w referenceImageUrl) w) ;;;
  finalizedStoryState <- FinalStoryService.generateFinalImages
                           (StorySession.currentStoryState session)
                           referenceImageUrl ;;
  let session := StorySession.assign_story session finalizedStoryState in
  StorySession.save session ;;;
  ret (OkSession session).

End FinalStoriesController.

(** ** app/middleware/route_logger_middleware.ts *)

Module RouteLoggerMiddleware.

(** What the middleware reads of [ctx.request]. *)
Record HttpRequest : Type := mkHttpRequest {
  method : string;
  url : string;
  qs : jsval;
  hasBody : bool;
  body : jsval
}.

(** What the middleware prints.  Its lines are kept in a list of their
    own, beside the console of the services. *)
Inductive AccessLine : Type :=
| RequestLine (method url : string) (qs : jsval)   (* console.log(method, url, qs) *)
| BodyLine (body : jsval).                          (* console.log(body) *)

(** The character a character is compared as under the flag [i]: the
    upper case of an ASCII letter; the characters from 128 on never compare
    equal to an ASCII one. *)
Definition fold_case (c : ascii) : ascii :=
  let n := nat_of_ascii c in
  if (97 <=? n) && (n <=? 122) then ascii_of_nat (n - 32) else c.

(** Whether a text starts with an ASCII pattern, letter case ignored. *)
Fixpoint starts_with (pat s : string) : bool :=
  match pat with
  | EmptyString => true
  | String p pat' =>
      match s with
      | String c s' => Ascii.eqb (fold_case p) (fold_case c) && starts_with pat' s'
      | EmptyString => false
      end
  end.

(** [/^\/static/i.test(url)] *)
Definition is_static (url : string) : bool := starts_with "/static" url.

(** [handle(ctx, next)]: print, then run the rest of the pipeline and
    return its output, or let its exception through. *)
Definition handle {A} (request : HttpRequest) (next : M A)
  : World -> list AccessLine * State -> result A * (list AccessLine * State) :=
  fun w s =>
    let (log, st) := s in
    let log' :=
      if negb (is_static (url request)) then
        (log ++ [RequestLine (method request) (url request) (qs request)]
             ++ (if hasBody request then [BodyLine (body request)] else []))%list
      else log in
    let (output, st') := next w st in
    (output, (log', st')).

End RouteLoggerMiddleware.

(** ** start/routes.ts *)

Inductive Request : Type :=
| PostStories (body : StoryGeneratorController.StoreBody)
| PatchStories (id : string) (prompt : string)
| GetArtStyles (id : string)
| PatchArtStyles (body : ArtStylesController.UpdateBody)
| PostFinalStory (sessionId : string) (referenceImageUrl : string).

Definition handle (r : Request) : M Response :=
  match r with
  | PostStories body => StoryGeneratorController.store body
  | PatchStories id prompt => StoryGeneratorController.update id prompt
  | GetArtStyles id => ArtStylesController.show id
  | PatchArtStyles body => ArtStylesController.update body
  | PostFinalStory sessionId url => FinalStoriesController.store sessionId url
  end.

Definition initial_state : State := mkState [] 1 0 [] [].

(** The states the server can be in: it starts on an empty table and
    handles one request after the other.  The list collects the sessions a
    refine request was addressed to. *)
Inductive reachable (w : World) : list string -> State -> Prop :=
| reach_init : reachable w [] initial_state
| reach_step : forall refined st r res st',
    reachable w refined st ->
    handle r w st = (res, st') ->
    reachable w
      (match r with
       | PatchStories id _ => id :: refined
       | _ => refined
       end) st'.

(** ** Scenes as the interface declares them *)

Record StoryScene : Type := mkScene {
  id : Z;
  narrator : string;
  character : string;
  characterImagePrompt : string;
  dialogue : string;
  backgroundPrompt : string
}.

Definition scene_to_js (s : StoryScene) : jsval :=
  JObj [("id", JNum (id s));
        ("narrator", JStr (narrator s));
        ("character", JStr (character s));
        ("characterImagePrompt", JStr (characterImagePrompt s));
        ("dialogue", JStr (dialogue s));
        ("backgroundPrompt", JStr (backgroundPrompt s))].

Definition scenes_to_js (l : list StoryScene) : jsval :=
  JArr (map scene_to_js l).

(** ** Specification devices *)

(** The state after some more requests have left. *)
Definition add_calls (st : State) (cs : list Call) : State :=
  mkState (db st) (next_id st) (drawn st) (calls st ++ cs)%list (console st).

Definition add_console (st : State) (ls : list LogLine) : State :=
  mkState (db st) (next_id st) (drawn st) (calls st) (console st ++ ls)%list.

(** The prompts a batch builds before the first one that throws, and that
    exception if there is one. *)
Fixpoint build_all (build : jsval -> result string) (xs : list jsval)
  : list string * option exn :=
  match xs with
  | [] => ([], None)
  | x :: t =>
      match build x with
      | Ok p => let (ps, e) := build_all build t in (p :: ps, e)
      | Throw e => ([], Some e)
      end
  end.

(** What the world answers to a batch of image requests of which the first
    is request number [base]. *)
Fixpoint outcomes_from (w : World) (base : nat) (prompts : list string)
  : list (settled ImagesResponse) :=
  match prompts with
  | [] => []
  | p :: t =>
      images_generate w base (image_request p) :: outcomes_from w (S base) t
  end.

Fixpoint settle_all {A} (ps : list (settled A)) : result (list A) :=
  match ps with
  | [] => Ok []
  | Resolved a :: t => rbind (settle_all t) (fun l => Ok (a :: l))
  | Rejected msg :: _ => Throw (ApiError msg)
  end.

Definition image_calls (prompts : list string) : list Call :=
  map (fun p => ImageCall (image_request p)) prompts.

Definition is_image_call (c : Call) : bool :=
  match c with
  | ImageCall _ => true
  | ChatCall _ => false
  end.

(** The image requests among the requests a step has added to the log. *)
Definition images_issued (before after : State) : nat :=
  List.length (filter is_image_call (skipn (List.length (calls before)) (calls after))).

(** The [story] member of a reply of the text model, when the reply has a
    first choice with content that is JSON text for a value with such a
    member. *)
Definition story_of_reply (key : string) (r : settled ChatCompletion)
  : option jsval :=
  match r with
  | Resolved c =>
      match choices c with
      | Some text :: _ =>
          if String.eqb text "" then None
          else match Json.parse text with
               | Some v =>
                   match get v key with
                   | Ok (Some s) => Some s
                   | _ => None
                   end
               | None => None
               end
      | _ => None
      end
  | Rejected _ => None
  end.





(** The request [refineStory] sends for a story and an instruction. *)
Definition refinement_request (existingStory : jsval) (refinementPrompt : string)
  : ChatRequest :=
  StoryGeneratorService.story_request
    StoryGeneratorService.getRefinementSystemMessage
    (StoryGeneratorService.buildRefinementPrompt existingStory refinementPrompt).

Definition refinement_warn (n : nat) (got : option jsval) : LogLine :=
  ConsoleWarn StoryGeneratorService.refinement_warning
    (Some (JNum (Z.of_nat n))) got.

(** A scene and a world for the examples: the text model answers request
    number [k] with [replies k], every image request with a fresh url. *)
Definition sample_scene (i : Z) : StoryScene :=
  mkScene i "The garden is silent." "Robot" "a small rusty robot"
    "Hello?" "a dead planet".

Definition reply_text (text : string) : settled ChatCompletion :=
  Resolved (mkChatCompletion [Some text]).

Definition image_at (n : nat) : settled ImagesResponse :=
  Resolved (mkImagesResponse
              (Some [mkImage (Some ("https://img.example/" ++ index_key n))])).

Definition sample_world (replies : nat -> settled ChatCompletion) : World :=
  mkWorld (fun n _ => replies n) (fun n _ => image_at n)
    (fun n => "uuid-" ++ index_key n) (fun _ => true).

Definition story_reply (v : jsval) : settled ChatCompletion :=
  reply_text (Json.stringify (JObj [("story", v)])).

(** A batch as a whole: the prompts are built and sent in order, the
    answers awaited together and joined by position. *)
Definition batch (w : World) (st : State) (build : jsval -> result string)
  (join : list ImagesResponse -> jsval -> nat -> result jsval)
  (items : list jsval) : result (list jsval) * State :=
  let built := build_all build items in
  (match snd built with
   | Some e => Throw e
   | None =>
       rbind (settle_all (outcomes_from w (List.length (calls st)) (fst built)))
         (fun rs => mapi_from (join rs) 0 items)
   end, add_calls st (image_calls (fst built))).
Arguments batch : simpl never.

Definition sample_story : jsval :=
  scenes_to_js [sample_scene 1; sample_scene 2].

Definition reference_url : string := "https://img.example/reference".

(** A world whose text model describes the reference image. *)
Definition illustrator_world : World :=
  sample_world (fun _ => reply_text "a small rusty robot, watercolour").


Definition style (name : string) : jsval :=
  JObj [("name", JStr name);
        ("description", JStr ("The look of " ++ name));
        ("imagePrompt", JStr ("in the style of " ++ name))].

Definition styles_reply (styles : jsval) : settled ChatCompletion :=
  reply_text (Json.stringify (JObj [("artStyles", styles)])).


Definition first_scene : option jsval := Some (scene_to_js (sample_scene 1)).





(** A world whose text model returns null as its second style. *)
Definition null_entry_world : World :=
  sample_world (fun _ => styles_reply (JArr [style "Noir"; JNull; style "Pixel"])).

(** A world in which the second preview comes back without data. *)
Definition second_preview_missing_world : World :=
  mkWorld
    (fun _ _ => styles_reply (JArr [style "Watercolour"; style "Noir"; style "Pixel"]))
    (fun n _ => if n =? 2 then Resolved (mkImagesResponse None) else image_at n)
    (fun n => "uuid-" ++ index_key n) (fun _ => true).

(** Two states with the same table: rows, counters. *)
Definition same_table (st st' : State) : Prop :=
  db st' = db st /\ next_id st' = next_id st /\ drawn st' = drawn st.

(** A computation that leaves the table alone, whatever it returns. *)
Definition frames_table {A} (m : M A) : Prop :=
  forall w st, same_table st (snd (m w st)).

(** The row a session is written back to. *)
Definition row_of (r : Row) (text : string) : Row :=
  mkRow (row_id r) (row_uuid r) (initial_briefing r) (scene_count r) text.

Definition session_of (r : Row) (story : jsval) : StorySession.t :=
  StorySession.mk (Some (row_id r)) (Some (row_uuid r)) (initial_briefing r)
    (scene_count r) story.

(** A world whose text model follows a script, request by request, and
    then goes offline. *)
Definition scripted_world (replies : list (settled ChatCompletion)) : World :=
  sample_world (fun n => nth n replies (Rejected "offline")).

Definition robot_request : Request :=
  PostStories (StoryGeneratorController.mkStoreBody
                 "A lonely robot finds a garden on a dead planet." 2).

(** The server after it has created one session of two scenes. *)
Definition one_session (w : World) : State :=
  snd (handle robot_request w initial_state).

Definition goes_offline : World := scripted_world [story_reply sample_story].

(** A row after a request, compared with the row before: everything but
    the story is as it was. *)
Definition keeps_identity (r r' : Row) : Prop :=
  row_id r' = row_id r /\ row_uuid r' = row_uuid r
  /\ initial_briefing r' = initial_briefing r /\ scene_count r' = scene_count r.

(** Two tables that differ at most in the story of the session [u]. *)
Definition only_story_changes (u : string) (d d' : list Row) : Prop :=
  Forall2 (fun r r' => keeps_identity r r' /\ (row_uuid r <> u -> r' = r)) d d'.

(** A script in which the story is refined to no scene at all, and then
    illustrated. *)
Definition emptied_story_world : World :=
  scripted_world [story_reply sample_story; story_reply (JArr []);
                  reply_text "a small rusty robot, watercolour"].

(** The server after one more request. *)
Definition then_request (w : World) (r : Request) (st : State) : State :=
  snd (handle r w st).

Definition emptied_story : State :=
  then_request emptied_story_world
    (PatchStories "uuid-0" "Remove every scene")
    (one_session emptied_story_world).

(** A script in which the story is refined to three scenes. *)
Definition three_scenes_world : World :=
  scripted_world
    [story_reply sample_story;
     story_reply (scenes_to_js [sample_scene 1; sample_scene 2; sample_scene 3]);
     reply_text "a small rusty robot, watercolour"].

(** A script in which the story is illustrated right after its creation. *)
Definition finalize_world : World :=
  scripted_world [story_reply sample_story;
                  reply_text "a small rusty robot, watercolour"].

(** What a value reads back as after [JSON.stringify] and [JSON.parse]:
    itself, but for objects with a repeated key, which [JSON.parse] merges. *)
Fixpoint canon (v : jsval) : jsval :=
  match v with
  | JArr l => JArr (map canon l)
  | JObj l => Json.build_object (map (fun kv => (fst kv, canon (snd kv))) l)
  | _ => v
  end.

(** Fuel that is enough to parse the text of a value. *)
Fixpoint need (v : jsval) : nat :=
  match v with
  | JArr l => S (list_sum (map (fun x => S (need x)) l))
  | JObj l => S (list_sum (map (fun kv => S (need (snd kv))) l))
  | _ => 1
  end.

(** A text that can follow a number: it does not go on with a digit, a
    fraction or an exponent. *)
Definition terminated (rest : string) : bool :=
  match rest with
  | EmptyString => true
  | String c _ => negb (Json.is_digit c) && negb (Json.starts_fraction rest)
  end.

(** What the table guarantees: the primary key, the unique uuid, the
    autoincrement counter above every id in use. *)
Definition table_ok (st : State) : Prop :=
  NoDup (map row_id (db st))
  /\ NoDup (map row_uuid (db st))
  /\ Forall (fun r => row_id r < next_id st) (db st).

(** A session whose story still has the number of scenes asked for at its
    creation, a number from 2 to 10. *)
Definition as_created (r : Row) : Prop :=
  exists items,
    StorySession.consume (Some (current_story_state r)) = Ok (JArr items)
    /\ Z.of_nat (List.length items) = scene_count r
    /\ (2 <= scene_count r <= 10)%Z.

(** The invariant of the server: the table is sound, and every session no
    refine request was addressed to is as created. *)
Definition server_invariant (refined : list string) (st : State) : Prop :=
  table_ok st
  /\ Forall (fun r => ~ In (row_uuid r) refined -> as_created r) (db st).

(** A script in which a story of two scenes is refined into eleven. *)
Definition eleven_scenes : jsval :=
  scenes_to_js (map sample_scene [1; 2; 3; 4; 5; 6; 7; 8; 9; 10; 11]%Z).

Definition eleven_scenes_world : World :=
  scripted_world [story_reply sample_story; story_reply eleven_scenes;
                  reply_text "a small rusty robot, watercolour"].

Definition grown_story : State :=
  then_request eleven_scenes_world
    (PatchStories "uuid-0" "Tell it in eleven scenes")
    (one_session eleven_scenes_world).

(** The exceptions and log lines the statements name. *)
Definition three_styles_error : exn :=
  Error "AI did not return exactly three art style suggestions.".

Definition consistency_log (cp : string) : LogLine :=
  ConsoleLog "Generated Master Consistency Prompt:" cp.

(** A reply whose [story] is the number 5. *)
Definition number_story_text : string := "{" ++ q "story" ++ ": 5}".


(** The state after [StorySession.create] has drawn a uuid. *)
Definition after_draw (st : State) : State :=
  mkState (db st) (next_id st) (S (drawn st)) (calls st) (console st).

(** What a request on an existing session does: read, validate, run the
    stage, write. *)
Definition on_session (w : World) (st : State) (u : string) (valid : bool)
  (stage : jsval -> M jsval) (respond : StorySession.t -> Response)
  : result Response * State :=
  match StorySession.find_row u (db st) with
  | None => (Throw RowNotFound, st)
  | Some r =>
      match StorySession.consume (Some (current_story_state r)) with
      | Throw e => (Throw e, st)
      | Ok story =>
          if valid then
            match stage story w st with
            | (Throw e, st1) => (Throw e, st1)
            | (Ok out, st1) =>
                match StorySession.prepare out with
                | Some text =>
                    (Ok (respond (session_of r out)),
                     with_db st1
                       (StorySession.update_row (row_id r) (row_of r text) (db st1))
                       (next_id st1))
                | None => (Throw DbError, st1)
                end
            end
          else (Throw ValidationError, st)
      end
  end.

(** A text that does not go on with a digit. *)
Definition no_digit_head (rest : string) : Prop :=
  match rest with
  | EmptyString => True
  | String c _ => Json.is_digit c = false
  end.

(** A decimal numeral without superfluous zero in front. *)
Definition plain_numeral (d : uint) : Prop :=
  match d with
  | Nil => False
  | D0 Nil => True
  | D0 _ => False
  | _ => True
  end.

(** The characters a JSON text of a value can start with. *)
Definition value_head (c : ascii) : bool :=
  let n := nat_of_ascii c in
  Json.is_digit c || (n =? 45) || (n =? 110) || (n =? 116) || (n =? 102)
  || (n =? 34) || (n =? 91) || (n =? 123).

(** One member of an object, as text and as it reads back. *)
Definition member_text (kv : string * jsval) : string :=
  Json.quote (fst kv) ++ ":" ++ Json.stringify (snd kv).

Definition canon_member (kv : string * jsval) : string * jsval :=
  (fst kv, canon (snd kv)).

(** The hypothesis of the induction: the text of [v], followed by anything
    that ends a number, parses to [canon v] and leaves what followed. *)
Definition reads_back (v : jsval) : Prop :=
  forall fuel rest,
    terminated rest = true -> need v <= fuel ->
    Json.parse_value fuel (Json.stringify v ++ rest) = Some (canon v, rest).

(** Induction on values, through the lists inside them. *)
Section JsvalInduction.

Variable P : jsval -> Prop.
Hypothesis HNull : P JNull.
Hypothesis HBool : forall b, P (JBool b).
Hypothesis HNum : forall z, P (JNum z).
Hypothesis HStr : forall s, P (JStr s).
Hypothesis HArr : forall l, Forall P l -> P (JArr l).
Hypothesis HObj : forall l, Forall (fun kv => P (snd kv)) l -> P (JObj l).

Fixpoint jsval_induction (v : jsval) : P v :=
  match v with
  | JNull => HNull
  | JBool b => HBool b
  | JNum z => HNum z
  | JStr s => HStr s
  | JArr l =>
      HArr l
        ((fix all (l : list jsval) : Forall P l :=
            match l with
            | [] => Forall_nil P
            | x :: t => Forall_cons x (jsval_induction x) (all t)
            end) l)
  | JObj l =>
      HObj l
        ((fix all (l : list (string * jsval)) : Forall (fun kv => P (snd kv)) l :=
            match l with
            | [] => Forall_nil _
            | kv :: t =>
                Forall_cons (P:=fun kv => P (snd kv)) kv
                  (jsval_induction (snd kv)) (all t)
            end) l)
  end.

End JsvalInduction.

(** Values in which no object repeats a key: what [JSON.parse] returns and
    what the services build. *)
Fixpoint fresh_keys (l : list string) : bool :=
  match l with
  | [] => true
  | k :: t => negb (existsb (String.eqb k) t) && fresh_keys t
  end.

Fixpoint keys_distinct (v : jsval) : bool :=
  match v with
  | JArr l => forallb keys_distinct l
  | JObj l =>
      fresh_keys (map fst l) && forallb (fun kv => keys_distinct (snd kv)) l
  | _ => true
  end.

(** A scene as a model may return it, with its keys in another order. *)
Definition reordered_scene : jsval :=
  JObj [("narrator", JStr "The garden is silent.");
        ("id", JNum 7);
        ("dialogue", JStr ("She said " ++ q "hello" ++ "."));
        ("character", JStr "Robot");
        ("backgroundPrompt", JStr "a dead planet");
        ("characterImagePrompt", JStr "a small rusty robot")].

(** The exceptions of the services: what they throw themselves, what the
    runtime throws on their behalf, and the rejections of the remote
    client. *)
Definition service_error (e : exn) : Prop :=
  match e with
  | Error _ | TypeError | SyntaxError | ApiError _ => True
  | ValidationError | RowNotFound | DbError => False
  end.

(** A computation all of whose exceptions satisfy [P]. *)
Definition raises {A} (P : exn -> Prop) (m : M A) : Prop :=
  forall w st e st', m w st = (Throw e, st') -> P e.

(** The rules the validators of the controllers compile. *)
Definition store_rule (body : StoryGeneratorController.StoreBody) : bool :=
  (10 <=? String.length (StoryGeneratorController.briefing body))
  && (2 <=? StoryGeneratorController.sceneCount body)%Z
  && (StoryGeneratorController.sceneCount body <=? 10)%Z.

Definition art_update_rule (w : World) (body : ArtStylesController.UpdateBody)
  : bool :=
  isURL w (ArtStylesController.originalImageUrl body)
  && (10 <=? String.length (ArtStylesController.originalImagePrompt body))
  && (5 <=? String.length (ArtStylesController.refinementPrompt body)).

(** The content of the first choice of a reply, when there is one and it
    passes the emptiness test of the services. *)
Definition reply_content (r : settled ChatCompletion) : option string :=
  match r with
  | Resolved c =>
      match choices c with
      | Some text :: _ => if String.eqb text "" then None else Some text
      | _ => None
      end
  | Rejected _ => None
  end.

(** A text of white space only. *)
Definition blank (s : string) : bool :=
  forallb is_trim_ws (list_ascii_of_string s).

(** A world whose text model answers with a line feed. *)
Definition blank_world : World := sample_world (fun _ => reply_text nl).

(** A story text that [prepare] has written for a value without repeated
    keys. *)
Definition written (text : string) : Prop :=
  exists v, keys_distinct v = true /\ StorySession.prepare v = Some text.

(** What one request does to the table: nothing, or the INSERT of a new
    session, or the UPDATE of the story of an existing one. *)
Inductive table_step (w : World) (st st' : State) : Prop :=
| step_same :
    db st' = db st -> next_id st' = next_id st -> drawn st <= drawn st' ->
    table_step w st st'
| step_insert : forall briefing n items text,
    10 <= String.length briefing -> (2 <= n <= 10)%Z ->
    Z.of_nat (List.length items) = n ->
    keys_distinct (JArr items) = true ->
    StorySession.prepare (JArr items) = Some text ->
    StorySession.uuid_taken (randomUUID w (drawn st)) (db st) = false ->
    db st' = (db st ++ [mkRow (next_id st) (randomUUID w (drawn st)) briefing n text])%list ->
    next_id st' = S (next_id st) -> drawn st' = S (drawn st) ->
    table_step w st st'
| step_update : forall u r out text,
    StorySession.find_row u (db st) = Some r ->
    keys_distinct out = true ->
    StorySession.prepare out = Some text ->
    db st' = StorySession.update_row (row_id r) (row_of r text) (db st) ->
    next_id st' = next_id st -> drawn st' = drawn st ->
    table_step w st st'.

(** What every row of the table keeps from its creation. *)
Definition row_ok (w : World) (st : State) (r : Row) : Prop :=
  (2 <= scene_count r <= 10)%Z
  /\ 10 <= String.length (initial_briefing r)
  /\ (exists k, k < drawn st /\ row_uuid r = randomUUID w k)
  /\ written (current_story_state r).

(** A script in which the story is refined to the number 0. *)
Definition zero_story_world : World :=
  scripted_world [story_reply sample_story; story_reply (JNum 0)].

(** A world in which the image of the second scene comes back without
    data. *)
Definition second_image_missing_world : World :=
  mkWorld (fun _ _ => reply_text "a small rusty robot, watercolour")
    (fun n _ => if n =? 2 then Resolved (mkImagesResponse None) else image_at n)
    (fun n => "uuid-" ++ index_key n) (fun _ => true).

(** The messages of a batch whose answers are not all usable. *)
Definition missing_style_image (name : string) : exn :=
  Error ("DALL-E did not return an image URL for style: " ++ name).

Definition missing_scene_image (id : string) : exn :=
  Error ("DALL-E failed to generate image for scene " ++ id).

(** A script in which the story is refined to the number 5. *)
Definition number_refined_world : World :=
  scripted_world [story_reply sample_story; reply_text number_story_text;
                  reply_text "a small rusty robot, watercolour"].

Definition number_story_state : State :=
  then_request number_refined_world
    (PatchStories "uuid-0" "Make the robot's tone angrier")
    (one_session number_refined_world).


(** A source of uuids that never repeats itself. *)
Definition never_repeats (w : World) : Prop :=
  forall i j, randomUUID w i = randomUUID w j -> i = j.

(** A story whose second scene is null, and a world that tells it. *)
Definition holed_story : jsval :=
  JArr [scene_to_js (sample_scene 1); JNull; scene_to_js (sample_scene 3)].

Definition holed_story_world : World :=
  scripted_world [story_reply holed_story;
                  reply_text "a small rusty robot, watercolour"].

(** A world whose uuid source always draws the same uuid. *)
Definition one_uuid_world : World :=
  mkWorld (fun _ _ => story_reply sample_story) (fun n _ => image_at n)
    (fun _ => "b5c0b187-fe82-4f7f-a4f6-2f1c1e2a0f11") (fun _ => true).

(** ** Proofs *)

(** *** The monad *)

Lemma add_calls_nil st : add_calls st [] = st.
Proof. destruct st; unfold add_calls; simpl; now rewrite List.app_nil_r. Qed.

Lemma add_calls_app st a b : add_calls (add_calls st a) b = add_calls st (a ++ b).
Proof. unfold add_calls; simpl; now rewrite List.app_assoc. Qed.

Lemma record_call_add st c : record_call c st = add_calls st [c].
Proof. reflexivity. Qed.

Lemma chat_create_run r w st :
  openai_chat_completions_create r w st =
  (match chat_completions w (List.length (calls st)) r with
   | Resolved c => Ok c
   | Rejected msg => Throw (ApiError msg)
   end, add_calls st [ChatCall r]).
Proof.
  unfold openai_chat_completions_create, await.
  destruct (chat_completions w (List.length (calls st)) r); reflexivity.
Qed.

Lemma promise_all_run {A} (ps : list (settled A)) w st :
  promise_all ps w st = (settle_all ps, st).
Proof.
  revert st; induction ps as [|p t IH]; intros st; simpl; [reflexivity|].
  unfold bind. destruct p as [a|msg]; simpl; [|reflexivity].
  unfold ret. rewrite IH. destruct (settle_all t); reflexivity.
Qed.

Lemma mapM_send_image build xs w st :
  mapM (send_image build) xs w st =
  (match snd (build_all build xs) with
   | None => Ok (outcomes_from w (List.length (calls st)) (fst (build_all build xs)))
   | Some e => Throw e
   end, add_calls st (image_calls (fst (build_all build xs)))).
Proof.
  revert st; induction xs as [|x t IH]; intros st; simpl.
  - now rewrite add_calls_nil.
  - unfold bind at 1. unfold send_image at 1. unfold bind, lift.
    destruct (build x) as [p|e]; simpl.
    + unfold openai_images_generate. rewrite IH.
      rewrite record_call_add, add_calls_app.
      destruct (build_all build t) as [ps [e|]]; simpl;
        unfold ret; simpl; try reflexivity.
      do 3 f_equal. unfold add_calls; simpl. rewrite length_app; simpl.
      f_equal. lia.
    + now rewrite add_calls_nil.
Qed.

(** Unfolds the plumbing of the monad. *)
Ltac run_monad :=
  unfold try_catch, bind, lift, ret, throw, console_write; simpl.

(** *** Story generation *)

(** What [generateLinearStory] returns, as a function of the reply. *)
Lemma generateLinearStory_run briefing n w st :
  fst (StoryGeneratorService.generateLinearStory briefing n w st) =
  match story_of_reply "story"
          (chat_completions w (List.length (calls st))
             (StoryGeneratorService.story_request
                StoryGeneratorService.getSystemMessage
                (StoryGeneratorService.buildInitialPrompt briefing n))) with
  | Some (JArr items) =>
      if Z.eqb (Z.of_nat (List.length items)) n then Ok (JArr items)
      else Throw StoryGeneratorService.generation_failure
  | _ => Throw StoryGeneratorService.generation_failure
  end.
Proof.
  unfold StoryGeneratorService.generateLinearStory, story_of_reply, JSON_parse.
  run_monad. rewrite chat_create_run.
  destruct (chat_completions _ _ _) as [[ch]|msg]; simpl; [|reflexivity].
  unfold first_content; simpl.
  destruct ch as [|[text|] rest]; simpl; try reflexivity.
  destruct (String.eqb text ""); simpl; [reflexivity|].
  destruct (Json.parse text) as [v|]; simpl; [|reflexivity].
  destruct (get v "story") as [[s|]|e]; simpl; try reflexivity.
  destruct s; simpl; try reflexivity.
  destruct (Z.eqb _ n); reflexivity.
Qed.

(** C1.  Whatever the briefing, the scene count and the reply of the text
    model, [generateLinearStory] either returns an array of exactly
    [sceneCount] elements or throws the generation failure; in particular
    for a briefing of ten characters or more and a count from 2 to 10. *)
Theorem generateLinearStory_count_or_failure :
  forall (w : World) (st : State) (briefing : string) (sceneCount : Z),
    (exists items,
        fst (StoryGeneratorService.generateLinearStory briefing sceneCount w st)
        = Ok (JArr items)
        /\ Z.of_nat (List.length items) = sceneCount)
    \/ fst (StoryGeneratorService.generateLinearStory briefing sceneCount w st)
       = Throw StoryGeneratorService.generation_failure.
Proof.
  intros w st briefing n. rewrite generateLinearStory_run.
  destruct (story_of_reply _ _) as [[| | | |items|]|]; try (right; reflexivity).
  destruct (Z.eqb _ n) eqn:E; [left|right; reflexivity].
  exists items. split; [reflexivity|]. now apply Z.eqb_eq.
Qed.

(** *** Story refinement *)

Lemma Z_of_nat_eqb a b : Z.eqb (Z.of_nat a) (Z.of_nat b) = (a =? b).
Proof.
  destruct (a =? b) eqn:E.
  - apply Nat.eqb_eq in E. subst. apply Z.eqb_refl.
  - apply Nat.eqb_neq in E. apply Z.eqb_neq. lia.
Qed.

Lemma get_throws v k e : get v k = Throw e -> e = TypeError.
Proof.
  destruct v; simpl; try (destruct (String.eqb k "length"); discriminate).
  now intros [= <-].
Qed.

Lemma refineStory_run items prompt w st :
  StoryGeneratorService.refineStory (JArr items) prompt w st =
  let n := List.length items in
  let req := refinement_request (JArr items) prompt in
  let st1 := add_calls st [ChatCall req] in
  match story_of_reply "story" (chat_completions w (List.length (calls st)) req) with
  | Some JNull =>
      (Throw StoryGeneratorService.refinement_failure,
       add_console st1
         [ConsoleError "Error calling OpenAI API for refinement:" TypeError])
  | Some (JArr l) =>
      (Ok (JArr l),
       if List.length l =? n then st1
       else add_console st1
              [refinement_warn n (Some (JNum (Z.of_nat (List.length l))))])
  | Some v =>
      (Ok v, add_console st1 [refinement_warn n (length_of v)])
  | None =>
      (Throw StoryGeneratorService.refinement_failure,
       add_console st1
         [ConsoleError "Error calling OpenAI API for refinement:"
            match chat_completions w (List.length (calls st)) req with
            | Rejected msg => ApiError msg
            | Resolved c =>
                match choices c with
                | [] => TypeError
                | None :: _ => Error "OpenAI returned an empty response during refinement."
                | Some text :: _ =>
                    if String.eqb text ""
                    then Error "OpenAI returned an empty response during refinement."
                    else match Json.parse text with
                         | None => SyntaxError
                         | Some _ => TypeError
                         end
                end
            end])
  end.
Proof.
  unfold StoryGeneratorService.refineStory, story_of_reply, JSON_parse.
  cbv zeta. fold (refinement_request (JArr items) prompt).
  run_monad. rewrite chat_create_run.
  destruct (chat_completions _ _ _) as [[ch]|msg]; simpl; [|reflexivity].
  unfold first_content; simpl.
  destruct ch as [|[text|] rest]; simpl; try reflexivity.
  destruct (String.eqb text ""); simpl; [reflexivity|].
  destruct (Json.parse text) as [v|]; simpl; [|reflexivity].
  destruct (get v "story") as [[s|]|e] eqn:G; simpl.
  - destruct s; simpl; try reflexivity.
    unfold num_strict_neq. rewrite Z_of_nat_eqb.
    destruct (List.length items0 =? List.length items); reflexivity.
  - reflexivity.
  - rewrite (get_throws _ _ _ G). reflexivity.
Qed.



(** *** Batches of image requests *)

Section Batches.

Variable w : World.

Lemma build_all_length build xs :
  snd (build_all build xs) = None ->
  List.length (fst (build_all build xs)) = List.length xs.
Proof.
  induction xs as [|x t IH]; simpl; [reflexivity|].
  destruct (build x) as [p|e]; [|discriminate].
  destruct (build_all build t) as [ps e]; simpl in *.
  intros H. now rewrite IH.
Qed.


(** In a batch that was built entirely, prompt [i] is the one of input [i]. *)
Lemma build_all_nth build xs i x :
  snd (build_all build xs) = None ->
  nth_error xs i = Some x ->
  exists p, build x = Ok p /\ nth_error (fst (build_all build xs)) i = Some p.
Proof.
  revert i; induction xs as [|y t IH]; intros i; simpl.
  - destruct i; discriminate.
  - destruct (build y) as [p|e] eqn:B; [|discriminate].
    destruct (build_all build t) as [ps e]; simpl in *.
    intros E. destruct i as [|i]; simpl.
    + intros [= <-]. now exists p.
    + intros H. now apply IH.
Qed.

Lemma outcomes_from_length base prompts :
  List.length (outcomes_from w base prompts) = List.length prompts.
Proof.
  revert base; induction prompts as [|p t IH]; intros base; simpl;
    [reflexivity|]. now rewrite IH.
Qed.

(** When the whole batch resolves, result [i] is the answer to request
    [base + i], which carries prompt [i]. *)
Lemma settle_all_outcomes base prompts rs i p :
  settle_all (outcomes_from w base prompts) = Ok rs ->
  nth_error prompts i = Some p ->
  exists r, nth_error rs i = Some r
            /\ images_generate w (base + i) (image_request p) = Resolved r.
Proof.
  revert base rs i; induction prompts as [|p0 t IH]; intros base rs i; simpl.
  - destruct i; discriminate.
  - destruct (images_generate w base (image_request p0)) as [r|msg] eqn:O;
      [|discriminate].
    destruct (settle_all (outcomes_from w (S base) t)) as [l|e] eqn:E;
      simpl; [|discriminate].
    intros [= <-]. destruct i as [|i]; simpl.
    + intros [= <-]. rewrite Nat.add_0_r. now exists r.
    + intros H. replace (base + S i) with (S base + i) by lia.
      now apply (IH (S base) l i).
Qed.

Lemma settle_all_length {A} (ps : list (settled A)) rs :
  settle_all ps = Ok rs -> List.length rs = List.length ps.
Proof.
  revert rs; induction ps as [|[a|msg] t IH]; intros rs; simpl.
  - now intros [= <-].
  - destruct (settle_all t) as [l|e]; simpl; [|discriminate].
    intros [= <-]. simpl. now rewrite (IH l).
  - discriminate.
Qed.

Lemma mapi_from_length {A B} (f : A -> nat -> result B) base xs out :
  mapi_from f base xs = Ok out -> List.length out = List.length xs.
Proof.
  revert base out; induction xs as [|x t IH]; intros base out; simpl.
  - now intros [= <-].
  - destruct (f x base) as [y|e]; simpl; [|discriminate].
    destruct (mapi_from f (S base) t) as [l|e] eqn:M; simpl; [|discriminate].
    intros [= <-]. simpl. now rewrite (IH _ _ M).
Qed.

(** Output [i] of the second [map] is the callback on input [i] and index
    [base + i]. *)
Lemma mapi_from_nth {A B} (f : A -> nat -> result B) base xs out i x :
  mapi_from f base xs = Ok out ->
  nth_error xs i = Some x ->
  exists y, f x (base + i) = Ok y /\ nth_error out i = Some y.
Proof.
  revert base out i; induction xs as [|x0 t IH]; intros base out i; simpl.
  - destruct i; discriminate.
  - destruct (f x0 base) as [y|e] eqn:F; simpl; [|discriminate].
    destruct (mapi_from f (S base) t) as [l|e] eqn:M; simpl; [|discriminate].
    intros [= <-]. destruct i as [|i]; simpl.
    + intros [= <-]. rewrite Nat.add_0_r. now exists y.
    + intros H. replace (base + S i) with (S base + i) by lia.
      now apply (IH _ _ _ M).
Qed.

Lemma nth_error_image_calls prompts i p :
  nth_error prompts i = Some p ->
  nth_error (image_calls prompts) i = Some (ImageCall (image_request p)).
Proof.
  intros H. unfold image_calls. now rewrite nth_error_map, H.
Qed.

Lemma filter_image_calls prompts :
  filter is_image_call (image_calls prompts) = image_calls prompts.
Proof.
  induction prompts as [|p t IH]; simpl; [reflexivity|]. now rewrite IH.
Qed.

End Batches.

Lemma createConsistencyPrompt_run url w st :
  FinalStoryService.createConsistencyPrompt url w st =
  (match chat_completions w (List.length (calls st))
           (FinalStoryService.consistency_request url) with
   | Resolved c =>
       match choices c with
       | [] => Throw TypeError
       | None :: _ =>
           Throw (Error "GPT-4o failed to generate a consistency prompt from the image.")
       | Some s :: _ =>
           if String.eqb s ""
           then Throw (Error "GPT-4o failed to generate a consistency prompt from the image.")
           else Ok (trim s)
       end
   | Rejected msg => Throw (ApiError msg)
   end, add_calls st [ChatCall (FinalStoryService.consistency_request url)]).
Proof.
  unfold FinalStoryService.createConsistencyPrompt. run_monad.
  rewrite chat_create_run.
  destruct (chat_completions _ _ _) as [[ch]|msg]; simpl; [|reflexivity].
  unfold first_content; simpl.
  destruct ch as [|[s|] rest]; simpl; try reflexivity.
  destruct (String.eqb s ""); reflexivity.
Qed.

Lemma batch_run {B} build join items (k : list jsval -> M B) w st :
  (imageGenerationPromises <- mapM (send_image build) items ;;
   imageResults <- promise_all imageGenerationPromises ;;
   out <- lift (mapi_from (join imageResults) 0 items) ;;
   k out) w st
  = match batch w st build join items with
    | (Ok out, st') => k out w st'
    | (Throw e, st') => (Throw e, st')
    end.
Proof.
  unfold batch. unfold bind at 1. rewrite mapM_send_image. simpl.
  destruct (snd (build_all build items)) as [e|]; [reflexivity|].
  unfold bind at 1. rewrite promise_all_run.
  destruct (settle_all _) as [rs|e]; simpl; [|reflexivity].
  unfold bind, lift. destruct (mapi_from _ 0 items); reflexivity.
Qed.

(** The positional join of a batch that succeeds: output [i] is made from
    input [i] and the url of the answer to the request that carries the
    prompt of input [i]; that request is number [i] of the batch. *)
Lemma batch_positional w st build join mk items outs st' :
  (forall rs x i y, join rs x i = Ok y ->
     exists r u, nth_error rs i = Some r /\ usable_url r = Some u /\ y = mk x u) ->
  batch w st build join items = (Ok outs, st') ->
  List.length outs = List.length items
  /\ (exists prompts, st' = add_calls st (image_calls prompts)
                      /\ List.length prompts = List.length items)
  /\ forall i x, nth_error items i = Some x ->
       exists p r u,
         build x = Ok p
         /\ nth_error (calls st') (List.length (calls st) + i)
            = Some (ImageCall (image_request p))
         /\ images_generate w (List.length (calls st) + i) (image_request p)
            = Resolved r
         /\ usable_url r = Some u
         /\ nth_error outs i = Some (mk x u).
Proof.
  intros J. unfold batch.
  destruct (snd (build_all build items)) as [e|] eqn:B; [discriminate|].
  destruct (settle_all _) as [rs|e] eqn:R; simpl; [|discriminate].
  intros [= M <-]. split; [now apply (mapi_from_length _ _ _ _ M)|].
  split.
  - eexists. split; [reflexivity|]. now apply build_all_length.
  - intros i x Hx.
    destruct (build_all_nth _ _ _ _ B Hx) as (p & Bp & Np).
    destruct (settle_all_outcomes _ _ _ _ _ _ R Np) as (r & Nr & O).
    destruct (mapi_from_nth _ _ _ _ _ _ M Hx) as (y & Fy & Ny).
    simpl in Fy. destruct (J _ _ _ _ Fy) as (r' & u & Nr' & U & ->).
    rewrite Nr in Nr'. injection Nr' as <-.
    exists p, r, u. repeat split; try assumption.
    simpl. rewrite nth_error_app2 by lia.
    replace (List.length (calls st) + i - List.length (calls st)) with i by lia.
    now apply nth_error_image_calls.
Qed.

Lemma finalized_scene_join rs x i y :
  FinalStoryService.finalized_scene rs x i = Ok y ->
  exists r u, nth_error rs i = Some r /\ usable_url r = Some u
              /\ y = FinalStoryService.illustrated x u.
Proof.
  unfold FinalStoryService.finalized_scene.
  destruct (nth_error rs i) as [r|]; [|discriminate].
  destruct (usable_url r) as [u|] eqn:U.
  - intros [= <-]. now exists r, u.
  - destruct (hole (Some x) "id"); discriminate.
Qed.


Lemma generateFinalImages_run scenes url w st :
  FinalStoryService.generateFinalImages scenes url w st =
  match FinalStoryService.createConsistencyPrompt url w st with
  | (Ok cp, st1) =>
      match scenes with
      | JArr items =>
          let b := batch w (add_console st1 [consistency_log cp])
                     (FinalStoryService.finalPrompt cp)
                     FinalStoryService.finalized_scene items in
          (rbind (fst b) (fun out => Ok (JArr out)), snd b)
      | _ => (Throw TypeError, add_console st1 [consistency_log cp])
      end
  | (Throw e, st1) => (Throw e, st1)
  end.
Proof.
  unfold FinalStoryService.generateFinalImages.
  unfold bind at 1.
  destruct (FinalStoryService.createConsistencyPrompt url w st) as [[cp|e] st1];
    [|reflexivity].
  unfold bind at 1. unfold console_write at 1.
  fold (consistency_log cp). fold (add_console st1 [consistency_log cp]).
  unfold bind at 1. unfold lift at 1.
  destruct scenes; try reflexivity.
  cbn -[batch]. unfold FinalStoryService.scene_image. rewrite batch_run.
  destruct (batch _ _ _ _ items) as [[out|e] st2]; reflexivity.
Qed.

(** *** Final illustration *)

Lemma usable_url_spec r u :
  usable_url r = Some u -> first_url r = Some u /\ u <> "".
Proof.
  unfold usable_url. destruct (first_url r) as [u'|]; [|discriminate].
  destruct (String.eqb u' "") eqn:E; [discriminate|].
  intros [= <-]. split; [reflexivity|]. now apply String.eqb_neq.
Qed.

Lemma lookup_obj_set_same k v l : lookup k (obj_set k v l) = Some v.
Proof.
  induction l as [|[k' v'] t IH]; simpl.
  - now rewrite String.eqb_refl.
  - destruct (String.eqb k k') eqn:E; simpl.
    + now rewrite String.eqb_refl.
    + now rewrite E.
Qed.

Lemma lookup_obj_set_other k k' v l :
  k <> k' -> lookup k (obj_set k' v l) = lookup k l.
Proof.
  intros N. induction l as [|[k0 v0] t IH]; simpl.
  - apply String.eqb_neq in N. now rewrite N.
  - destruct (String.eqb k' k0) eqn:E; simpl.
    + apply String.eqb_eq in E. subst k0.
      apply String.eqb_neq in N. now rewrite N.
    + destruct (String.eqb k k0); [reflexivity|assumption].
Qed.

(** A read of a key other than [length] on a value that is not null. *)
Lemma get_own v k :
  v <> JNull -> k <> "length" -> get v k = Ok (lookup k (own_props v)).
Proof.
  intros Nv Nk. apply String.eqb_neq in Nk.
  destruct v; simpl; rewrite ?Nk; try reflexivity. now elim Nv.
Qed.

Lemma hole_not_null v k s : hole (Some v) k = Ok s -> v <> JNull.
Proof. intros H ->. discriminate H. Qed.

Lemma finalPrompt_not_null cp scene p :
  FinalStoryService.finalPrompt cp scene = Ok p -> scene <> JNull.
Proof.
  unfold FinalStoryService.finalPrompt.
  destruct (hole (Some scene) "narrator") eqn:H; [|discriminate].
  intros _. now apply (hole_not_null _ _ _ H).
Qed.

(** The fields of [{ ...scene, characterImagePrompt: url, backgroundPrompt: '' }]. *)
Lemma illustrated_fields scene u :
  scene <> JNull ->
  get (FinalStoryService.illustrated scene u) "characterImagePrompt"
  = Ok (Some (JStr u))
  /\ get (FinalStoryService.illustrated scene u) "backgroundPrompt"
     = Ok (Some (JStr ""))
  /\ forall k, k <> "characterImagePrompt" -> k <> "backgroundPrompt" ->
       k <> "length" ->
       get (FinalStoryService.illustrated scene u) k = get scene k.
Proof.
  intros N. unfold FinalStoryService.illustrated, spread. repeat split.
  - simpl. rewrite lookup_obj_set_other by discriminate.
    now rewrite lookup_obj_set_same.
  - simpl. now rewrite lookup_obj_set_same.
  - intros k K1 K2 K3. rewrite (get_own scene k N K3).
    rewrite get_own by (assumption || discriminate). simpl.
    now rewrite !lookup_obj_set_other by assumption.
Qed.

(** A run of [generateFinalImages] that succeeds, step by step. *)
Lemma generateFinalImages_success scenes url w st out st' :
  FinalStoryService.generateFinalImages scenes url w st = (Ok out, st') ->
  exists cp items outs,
    FinalStoryService.createConsistencyPrompt url w st
    = (Ok cp, add_calls st [ChatCall (FinalStoryService.consistency_request url)])
    /\ scenes = JArr items /\ out = JArr outs
    /\ List.length outs = List.length items
    /\ (exists prompts,
          st' = add_calls
                  (add_console
                     (add_calls st [ChatCall (FinalStoryService.consistency_request url)])
                     [consistency_log cp])
                  (image_calls prompts)
          /\ List.length prompts = List.length items)
    /\ forall i x, nth_error items i = Some x ->
         exists p r u,
           FinalStoryService.finalPrompt cp x = Ok p
           /\ nth_error (calls st') (S (List.length (calls st)) + i)
              = Some (ImageCall (image_request p))
           /\ images_generate w (S (List.length (calls st)) + i) (image_request p)
              = Resolved r
           /\ usable_url r = Some u
           /\ nth_error outs i = Some (FinalStoryService.illustrated x u).
Proof.
  rewrite generateFinalImages_run.
  destruct (FinalStoryService.createConsistencyPrompt url w st)
    as [[cp|e] st1] eqn:C; [|discriminate].
  assert (S1 : st1 = add_calls st [ChatCall (FinalStoryService.consistency_request url)]).
  { rewrite createConsistencyPrompt_run in C. now injection C. }
  destruct scenes; try discriminate. cbv zeta.
  destruct (batch _ _ _ _ items) as [[outs|e] st2] eqn:B; simpl; [|discriminate].
  intros [= <- <-].
  destruct (batch_positional _ _ _ _ FinalStoryService.illustrated _ _ _
              finalized_scene_join B) as (L & P & N).
  exists cp, items, outs. subst st1.
  repeat split; try assumption; try reflexivity.
  intros i x Hx. destruct (N i x Hx) as (p & r & u & H1 & H2 & H3 & H4 & H5).
  simpl in H2, H3. rewrite length_app in H2, H3. simpl in H2, H3.
  replace (List.length (calls st) + 1 + i) with (S (List.length (calls st) + i))
    in H2, H3 by lia.
  now exists p, r, u.
Qed.

(** The same object, for a scene with the six fields of the interface. *)
Lemma illustrated_scene s u :
  FinalStoryService.illustrated (scene_to_js s) u
  = scene_to_js (mkScene (id s) (narrator s) (character s) u (dialogue s) "").
Proof. destruct s. reflexivity. Qed.

(** C2.  When [generateFinalImages] succeeds, its input was an array and
    its output is an array of the same length whose element [i] is scene
    [i] with [characterImagePrompt] set to the non-empty url of the image
    generated for it (the answer to the request that carries its prompt)
    and [backgroundPrompt] set to the empty string; [id], [narrator],
    [character] and [dialogue] read as before. *)
Theorem generateFinalImages_output :
  forall (w : World) (st st' : State) (scenes out : jsval) (url : string),
    FinalStoryService.generateFinalImages scenes url w st = (Ok out, st') ->
    exists cp items outs,
      scenes = JArr items /\ out = JArr outs
      /\ List.length outs = List.length items
      /\ forall i scene, nth_error items i = Some scene ->
           exists scene' u p r,
             nth_error outs i = Some scene'
             /\ FinalStoryService.finalPrompt cp scene = Ok p
             /\ images_generate w (S (List.length (calls st)) + i)
                  (image_request p) = Resolved r
             /\ first_url r = Some u
             /\ u <> ""
             /\ scene' = FinalStoryService.illustrated scene u
             /\ get scene' "characterImagePrompt" = Ok (Some (JStr u))
             /\ get scene' "backgroundPrompt" = Ok (Some (JStr ""))
             /\ get scene' "id" = get scene "id"
             /\ get scene' "narrator" = get scene "narrator"
             /\ get scene' "character" = get scene "character"
             /\ get scene' "dialogue" = get scene "dialogue".
Proof.
  intros w st st' scenes out url H.
  destruct (generateFinalImages_success _ _ _ _ _ _ H)
    as (cp & items & outs & _ & -> & -> & L & _ & N).
  exists cp, items, outs. repeat split; try assumption.
  intros i scene Hs. destruct (N i scene Hs) as (p & r & u & P & _ & O & U & Ho).
  destruct (usable_url_spec _ _ U) as (F & Ne).
  pose proof (finalPrompt_not_null _ _ _ P) as Nn.
  destruct (illustrated_fields scene u Nn) as (F1 & F2 & F3).
  exists (FinalStoryService.illustrated scene u), u, p, r.
  repeat split; try assumption; apply F3; discriminate.
Qed.

Lemma generateFinalImages_output_witness :
  exists out st',
    FinalStoryService.generateFinalImages sample_story reference_url
      illustrator_world initial_state = (Ok out, st')
    /\ out = scenes_to_js
               [mkScene 1 "The garden is silent." "Robot"
                  "https://img.example/1" "Hello?" "";
                mkScene 2 "The garden is silent." "Robot"
                  "https://img.example/2" "Hello?" ""]
    /\ exists cp items outs,
         sample_story = JArr items /\ out = JArr outs
         /\ List.length outs = List.length items
         /\ forall i scene, nth_error items i = Some scene ->
              exists scene' u p r,
                nth_error outs i = Some scene'
                /\ FinalStoryService.finalPrompt cp scene = Ok p
                /\ images_generate illustrator_world
                     (S (List.length (calls initial_state)) + i)
                     (image_request p) = Resolved r
                /\ first_url r = Some u
                /\ u <> ""
                /\ scene' = FinalStoryService.illustrated scene u
                /\ get scene' "characterImagePrompt" = Ok (Some (JStr u))
                /\ get scene' "backgroundPrompt" = Ok (Some (JStr ""))
                /\ get scene' "id" = get scene "id"
                /\ get scene' "narrator" = get scene "narrator"
                /\ get scene' "character" = get scene "character"
                /\ get scene' "dialogue" = get scene "dialogue".
Proof.
  eexists _, _. split; [vm_compute; reflexivity|].
  split; [vm_compute; reflexivity|].
  eapply (generateFinalImages_output illustrator_world initial_state
            _ _ _ reference_url).
  vm_compute. reflexivity.
Defined.

(** *** Art style suggestion *)

Lemma generateStylePrompts_run firstScene w st :
  ArtStyleService.generateStylePrompts firstScene w st =
  match ArtStyleService.buildPrompt firstScene with
  | Throw e => (Throw e, st)
  | Ok prompt =>
      let req := ArtStyleService.styles_request prompt in
      (match story_of_reply "artStyles"
               (chat_completions w (List.length (calls st)) req) with
       | Some (JArr items) =>
           if List.length items =? 3 then Ok items else Throw three_styles_error
       | Some _ => Throw three_styles_error
       | None =>
           match chat_completions w (List.length (calls st)) req with
           | Rejected msg => Throw (ApiError msg)
           | Resolved c =>
               match choices c with
               | [] => Throw TypeError
               | None :: _ =>
                   Throw (Error "OpenAI returned an empty response for art styles.")
               | Some text :: _ =>
                   if String.eqb text ""
                   then Throw (Error "OpenAI returned an empty response for art styles.")
                   else match Json.parse text with
                        | None => Throw SyntaxError
                        | Some JNull => Throw TypeError
                        | Some _ => Throw three_styles_error
                        end
               end
           end
       end, add_calls st [ChatCall req])
  end.
Proof.
  unfold ArtStyleService.generateStylePrompts, story_of_reply, JSON_parse.
  unfold bind at 1. unfold lift at 1.
  destruct (ArtStyleService.buildPrompt firstScene) as [prompt|e]; [|reflexivity].
  cbv zeta. unfold bind at 1. rewrite chat_create_run.
  destruct (chat_completions _ _ _) as [[ch]|msg]; simpl; [|reflexivity].
  run_monad. unfold first_content; simpl.
  destruct ch as [|[text|] rest]; simpl; try reflexivity.
  destruct (String.eqb text ""); simpl; [reflexivity|].
  destruct (Json.parse text) as [v|]; simpl; [|reflexivity].
  destruct (get v "artStyles") as [[s|]|e] eqn:G; simpl.
  - destruct s; simpl; try reflexivity.
    destruct (List.length items =? 3); reflexivity.
  - destruct v; try reflexivity. discriminate G.
  - rewrite (get_throws _ _ _ G). destruct v; try reflexivity;
      simpl in G; destruct (String.eqb "artStyles" "length"); discriminate.
Qed.

Lemma suggestStyles_run firstScene w st :
  ArtStyleService.suggestStyles firstScene w st =
  match ArtStyleService.generateStylePrompts firstScene w st with
  | (Ok items, st1) =>
      let b := batch w st1 (ArtStyleService.fullImagePrompt firstScene)
                 ArtStyleService.style_suggestion items in
      (rbind (fst b) (fun out => Ok (JArr out)), snd b)
  | (Throw e, st1) => (Throw e, st1)
  end.
Proof.
  unfold ArtStyleService.suggestStyles. unfold bind at 1.
  destruct (ArtStyleService.generateStylePrompts firstScene w st)
    as [[items|e] st1]; [|reflexivity].
  cbv zeta. unfold ArtStyleService.style_image. rewrite batch_run.
  destruct (batch _ _ _ _ items) as [[out|e] st2]; reflexivity.
Qed.



(** *** Positional join *)



(** *** Three suggestions or none *)






(** *** The services leave the table alone *)

Lemma same_table_refl st : same_table st st.
Proof. now repeat split. Qed.

Lemma same_table_trans a b c : same_table a b -> same_table b c -> same_table a c.
Proof. unfold same_table. intros (? & ? & ?) (? & ? & ?). repeat split; congruence. Qed.

Lemma frames_ret {A} (a : A) : frames_table (ret a).
Proof. intros w st. apply same_table_refl. Qed.

Lemma frames_throw {A} e : frames_table (@throw A e).
Proof. intros w st. apply same_table_refl. Qed.

Lemma frames_lift {A} (r : result A) : frames_table (lift r).
Proof. intros w st. apply same_table_refl. Qed.

Lemma frames_bind {A B} (m : M A) (k : A -> M B) :
  frames_table m -> (forall a, frames_table (k a)) -> frames_table (bind m k).
Proof.
  intros Hm Hk w st. unfold bind. specialize (Hm w st).
  destruct (m w st) as [[a|e] st1]; simpl in *; [|assumption].
  eapply same_table_trans; [eassumption|apply Hk].
Qed.

Lemma frames_try_catch {A} (m : M A) (h : exn -> M A) :
  frames_table m -> (forall e, frames_table (h e)) -> frames_table (try_catch m h).
Proof.
  intros Hm Hh w st. unfold try_catch. specialize (Hm w st).
  destruct (m w st) as [[a|e] st1]; simpl in *; [assumption|].
  eapply same_table_trans; [eassumption|apply Hh].
Qed.

Lemma frames_console_write l : frames_table (console_write l).
Proof. intros w st. now repeat split. Qed.

Lemma frames_chat r : frames_table (openai_chat_completions_create r).
Proof. intros w st. rewrite chat_create_run. now repeat split. Qed.

Lemma frames_images r : frames_table (openai_images_generate r).
Proof. intros w st. now repeat split. Qed.

Lemma frames_await {A} (p : settled A) : frames_table (await p).
Proof. destruct p; [apply frames_ret|apply frames_throw]. Qed.

Lemma frames_promise_all {A} (ps : list (settled A)) : frames_table (promise_all ps).
Proof. intros w st. rewrite promise_all_run. apply same_table_refl. Qed.

Lemma frames_mapM {A B} (f : A -> M B) xs :
  (forall x, frames_table (f x)) -> frames_table (mapM f xs).
Proof.
  intros Hf. induction xs as [|x t IH]; simpl; [apply frames_ret|].
  apply frames_bind; [apply Hf|]. intros y.
  apply frames_bind; [apply IH|]. intros l. apply frames_ret.
Qed.

Lemma frames_send_image build x : frames_table (send_image build x).
Proof.
  unfold send_image. apply frames_bind; [apply frames_lift|].
  intros p. apply frames_images.
Qed.

Ltac frames :=
  repeat first
    [ apply frames_ret | apply frames_throw | apply frames_lift
    | apply frames_console_write | apply frames_chat | apply frames_images
    | apply frames_await | apply frames_promise_all | apply frames_send_image
    | apply frames_mapM; intro
    | apply frames_bind; [|intro]
    | apply frames_try_catch; [|intro]
    | match goal with
      | |- frames_table (match ?x with _ => _ end) => destruct x
      | |- frames_table (if ?b then _ else _) => destruct b
      end ].

Lemma frames_generateLinearStory briefing n :
  frames_table (StoryGeneratorService.generateLinearStory briefing n).
Proof. unfold StoryGeneratorService.generateLinearStory. frames. Qed.

Lemma frames_refineStory story prompt :
  frames_table (StoryGeneratorService.refineStory story prompt).
Proof. unfold StoryGeneratorService.refineStory. frames. Qed.

Lemma frames_suggestStyles firstScene :
  frames_table (ArtStyleService.suggestStyles firstScene).
Proof.
  unfold ArtStyleService.suggestStyles, ArtStyleService.generateStylePrompts,
    ArtStyleService.style_image. frames.
Qed.

Lemma frames_refineStyle a b c : frames_table (ArtStyleService.refineStyle a b c).
Proof.
  unfold ArtStyleService.refineStyle, ArtStyleService.getRefinedImagePrompt. frames.
Qed.

Lemma frames_generateFinalImages scenes url :
  frames_table (FinalStoryService.generateFinalImages scenes url).
Proof.
  unfold FinalStoryService.generateFinalImages,
    FinalStoryService.createConsistencyPrompt, FinalStoryService.scene_image.
  frames.
Qed.

(** *** The controllers, request by request *)

Lemma findByOrFail_run u w st :
  StorySession.findByOrFail u w st =
  (match StorySession.find_row u (db st) with
   | None => Throw RowNotFound
   | Some r =>
       rbind (StorySession.consume (Some (current_story_state r)))
         (fun story => Ok (session_of r story))
   end, st).
Proof.
  unfold StorySession.findByOrFail.
  destruct (StorySession.find_row u (db st)); reflexivity.
Qed.

Lemma update_run u prompt w st :
  StoryGeneratorController.update u prompt w st =
  on_session w st u (5 <=? String.length prompt)
    (fun story => StoryGeneratorService.refineStory story prompt)
    (fun session => OkBody (session_body session)).
Proof.
  unfold StoryGeneratorController.update, on_session.
  unfold bind at 1. rewrite findByOrFail_run.
  destruct (StorySession.find_row u (db st)) as [r|]; [|reflexivity].
  destruct (StorySession.consume _) as [story|e]; [|reflexivity].
  cbv beta iota delta [rbind].
  unfold bind at 1. unfold validateUsing.
  destruct (5 <=? String.length prompt); [|reflexivity].
  unfold ret at 1. unfold bind at 1.
  change (StorySession.currentStoryState (session_of r story)) with story.
  destruct (StoryGeneratorService.refineStory story prompt w st) as [[out|e] st1];
    [|reflexivity].
  unfold bind, StorySession.save, StorySession.assign_story, ret; simpl.
  destruct (StorySession.prepare out); reflexivity.
Qed.

Lemma final_store_run u url w st :
  FinalStoriesController.store u url w st =
  on_session w st u (isURL w url)
    (fun story => FinalStoryService.generateFinalImages story url)
    OkSession.
Proof.
  unfold FinalStoriesController.store, on_session.
  unfold bind at 1. rewrite findByOrFail_run.
  destruct (StorySession.find_row u (db st)) as [r|]; [|reflexivity].
  destruct (StorySession.consume _) as [story|e]; [|reflexivity].
  cbv beta iota delta [rbind].
  unfold bind at 1. unfold validateUsing.
  destruct (isURL w url); [|reflexivity].
  unfold ret at 1. unfold bind at 1.
  change (StorySession.currentStoryState (session_of r story)) with story.
  destruct (FinalStoryService.generateFinalImages story url w st) as [[out|e] st1];
    [|reflexivity].
  unfold bind, StorySession.save, StorySession.assign_story, ret; simpl.
  destruct (StorySession.prepare out); reflexivity.
Qed.

Lemma create_run briefing n story w st :
  StorySession.create briefing n story w st =
  let u := randomUUID w (drawn st) in
  match StorySession.prepare story with
  | Some text =>
      if StorySession.uuid_taken u (db st) then (Throw DbError, after_draw st)
      else
        (Ok (StorySession.mk (Some (next_id st)) (Some u) briefing n story),
         with_db (after_draw st)
           (db st ++ [mkRow (next_id st) u briefing n text])%list
           (S (next_id st)))
  | None => (Throw DbError, after_draw st)
  end.
Proof.
  unfold StorySession.create, StorySession.generateUuid, StorySession.insert,
    StorySession.draw_uuid, bind, ret; simpl.
  destruct (StorySession.prepare story); [|reflexivity].
  destruct (StorySession.uuid_taken _ _); reflexivity.
Qed.

Lemma store_run body w st :
  StoryGeneratorController.store body w st =
  if (10 <=? String.length (StoryGeneratorController.briefing body))
     && (2 <=? StoryGeneratorController.sceneCount body)%Z
     && (StoryGeneratorController.sceneCount body <=? 10)%Z
  then
    match StoryGeneratorService.generateLinearStory
            (StoryGeneratorController.briefing body)
            (StoryGeneratorController.sceneCount body) w st with
    | (Throw e, st1) => (Throw e, st1)
    | (Ok story, st1) =>
        match StorySession.create (StoryGeneratorController.briefing body)
                (StoryGeneratorController.sceneCount body) story w st1 with
        | (Throw e, st2) => (Throw e, st2)
        | (Ok session, st2) => (Ok (Created (session_body session)), st2)
        end
    end
  else (Throw ValidationError, st).
Proof.
  unfold StoryGeneratorController.store. unfold bind at 1. unfold validateUsing.
  destruct (_ && _ && _); [|reflexivity].
  unfold ret at 1. unfold bind at 1.
  destruct (StoryGeneratorService.generateLinearStory _ _ w st) as [[story|e] st1];
    [|reflexivity].
  unfold bind.
  destruct (StorySession.create _ _ story w st1) as [[session|e] st2]; reflexivity.
Qed.

(** A request on a session that throws leaves the table as it was, if the
    stage does. *)
Lemma on_session_throws w st u valid stage respond e st' :
  (forall story, frames_table (stage story)) ->
  on_session w st u valid stage respond = (Throw e, st') ->
  same_table st st'.
Proof.
  intros F. unfold on_session.
  destruct (StorySession.find_row u (db st)) as [r|];
    [|intros [= _ <-]; apply same_table_refl].
  destruct (StorySession.consume _) as [story|e0];
    [|intros [= _ <-]; apply same_table_refl].
  destruct valid; [|intros [= _ <-]; apply same_table_refl].
  specialize (F story w st).
  destruct (stage story w st) as [[out|e1] st1]; simpl in F.
  - destruct (StorySession.prepare out); [discriminate|].
    now intros [= _ <-].
  - now intros [= _ <-].
Qed.

(** C5.  A refine or finalize request that fails, for whatever reason,
    leaves the table exactly as it was: the stage runs before the one write
    of the request and never touches the table itself. *)
Theorem failed_stage_persists_nothing :
  forall (w : World) (st st' : State) (e : exn),
    (forall id prompt,
        StoryGeneratorController.update id prompt w st = (Throw e, st') ->
        db st' = db st)
    /\ (forall sessionId referenceImageUrl,
           FinalStoriesController.store sessionId referenceImageUrl w st
           = (Throw e, st') ->
           db st' = db st)
    /\ (forall story prompt,
           db (snd (StoryGeneratorService.refineStory story prompt w st)) = db st)
    /\ (forall story url,
           db (snd (FinalStoryService.generateFinalImages story url w st)) = db st).
Proof.
  intros w st st' e. repeat split.
  - intros id prompt H. rewrite update_run in H.
    apply on_session_throws in H; [apply H|].
    intros story. apply frames_refineStory.
  - intros u url H. rewrite final_store_run in H.
    apply on_session_throws in H; [apply H|].
    intros story. apply frames_generateFinalImages.
  - intros story prompt. apply frames_refineStory.
  - intros story url. apply frames_generateFinalImages.
Qed.

Lemma failed_stage_persists_nothing_witness :
  db (snd (StoryGeneratorController.update "uuid-0" "Make the robot angrier"
             goes_offline (one_session goes_offline)))
  = db (one_session goes_offline)
  /\ db (snd (FinalStoriesController.store "uuid-0" reference_url
                goes_offline (one_session goes_offline)))
     = db (one_session goes_offline)
  /\ List.length (db (one_session goes_offline)) = 1.
Proof.
  split; [|split].
  - apply (proj1 (failed_stage_persists_nothing goes_offline
                    (one_session goes_offline) _
                    StoryGeneratorService.refinement_failure)
             "uuid-0" "Make the robot angrier").
    vm_compute. reflexivity.
  - apply (proj1 (proj2 (failed_stage_persists_nothing goes_offline
                           (one_session goes_offline) _ (ApiError "offline")))
             "uuid-0" reference_url).
    vm_compute. reflexivity.
  - vm_compute. reflexivity.
Defined.

(** *** The table *)

Lemma find_row_uuid u d r : StorySession.find_row u d = Some r -> row_uuid r = u.
Proof.
  induction d as [|h t IH]; simpl; [discriminate|].
  destruct (String.eqb (row_uuid h) u) eqn:E; [|assumption].
  intros [= <-]. now apply String.eqb_eq.
Qed.

Lemma find_row_In u d r : StorySession.find_row u d = Some r -> In r d.
Proof.
  induction d as [|h t IH]; simpl; [discriminate|].
  destruct (String.eqb (row_uuid h) u); [intros [= <-]; now left|].
  intros H. right. now apply IH.
Qed.

(** After the write, the session reads back as the row that was written. *)
Lemma find_row_update u d r text :
  StorySession.find_row u d = Some r ->
  StorySession.find_row u (StorySession.update_row (row_id r) (row_of r text) d)
  = Some (row_of r text).
Proof.
  induction d as [|h t IH]; simpl; [discriminate|].
  destruct (String.eqb (row_uuid h) u) eqn:E.
  - intros [= <-]. rewrite Nat.eqb_refl. simpl. now rewrite E.
  - intros H. pose proof (find_row_uuid _ _ _ H) as U.
    destruct (row_id h =? row_id r); simpl.
    + rewrite U, String.eqb_refl. reflexivity.
    + rewrite E. now apply IH.
Qed.

Lemma only_story_changes_refl u d : only_story_changes u d d.
Proof.
  induction d as [|h t IH]; constructor; [|assumption].
  split; [now repeat split|reflexivity].
Qed.

(** Under the primary key, the write touches the row that was read and
    nothing else. *)
Lemma update_row_only_story u d r text :
  NoDup (map row_id d) ->
  StorySession.find_row u d = Some r ->
  only_story_changes u d (StorySession.update_row (row_id r) (row_of r text) d).
Proof.
  induction d as [|h t IH]; simpl; [discriminate|].
  intros N. inversion N as [|? ? Nh Nt]; subst.
  destruct (String.eqb (row_uuid h) u) eqn:E.
  - intros [= <-]. rewrite Nat.eqb_refl. constructor.
    + split; [now repeat split|]. intros Nu. apply String.eqb_eq in E. now elim Nu.
    + apply only_story_changes_refl.
  - intros H. destruct (row_id h =? row_id r) eqn:I.
    + exfalso. apply Nat.eqb_eq in I. apply Nh. rewrite I.
      apply in_map. now apply (find_row_In u).
    + constructor; [|now apply IH].
      split; [now repeat split|reflexivity].
Qed.

Lemma on_session_success w st u valid stage respond resp st' :
  (forall story, frames_table (stage story)) ->
  on_session w st u valid stage respond = (Ok resp, st') ->
  exists r story out text st1,
    StorySession.find_row u (db st) = Some r
    /\ StorySession.consume (Some (current_story_state r)) = Ok story
    /\ valid = true
    /\ stage story w st = (Ok out, st1)
    /\ StorySession.prepare out = Some text
    /\ resp = respond (session_of r out)
    /\ db st' = StorySession.update_row (row_id r) (row_of r text) (db st)
    /\ next_id st' = next_id st /\ drawn st' = drawn st
    /\ calls st' = calls st1 /\ console st' = console st1.
Proof.
  intros F. unfold on_session.
  destruct (StorySession.find_row u (db st)) as [r|]; [|discriminate].
  destruct (StorySession.consume _) as [story|e0] eqn:C; [|discriminate].
  destruct valid; [|discriminate].
  specialize (F story w st).
  destruct (stage story w st) as [[out|e1] st1] eqn:G; simpl in F; [|discriminate].
  destruct (StorySession.prepare out) as [text|] eqn:P; [|discriminate].
  intros [= <- <-]. destruct F as (F1 & F2 & F3).
  exists r, story, out, text, st1. simpl. rewrite F1.
  now repeat split.
Qed.

(** C9.  On a table whose ids are distinct, a successful refine or finalize
    request changes nothing but the story of the session it names: every
    row keeps its id, uuid, briefing and scene count, and the rows of other
    sessions are untouched.  The uuid of a session is drawn by the
    [beforeCreate] hook and is in the row from the INSERT on; an instance
    without uuid cannot be inserted. *)
Theorem only_the_story_changes :
  forall (w : World) (st : State),
    NoDup (map row_id (db st)) ->
    (forall id prompt resp st',
        StoryGeneratorController.update id prompt w st = (Ok resp, st') ->
        only_story_changes id (db st) (db st'))
    /\ (forall sessionId url resp st',
           FinalStoriesController.store sessionId url w st = (Ok resp, st') ->
           only_story_changes sessionId (db st) (db st'))
    /\ (forall body resp st',
           StoryGeneratorController.store body w st = (Ok resp, st') ->
           exists story text,
             StorySession.prepare story = Some text
             /\ resp = Created (JObj [("sessionId", JStr (randomUUID w (drawn st)));
                                      ("story", story)])
             /\ db st' = (db st ++
                          [mkRow (next_id st) (randomUUID w (drawn st))
                             (StoryGeneratorController.briefing body)
                             (StoryGeneratorController.sceneCount body) text])%list)
    /\ (forall session,
           StorySession.uuid session = None ->
           StorySession.insert session w st = (Throw DbError, st)).
Proof.
  intros w st N. repeat split.
  - intros id prompt resp st' H. rewrite update_run in H.
    apply on_session_success in H; [|intros; apply frames_refineStory].
    destruct H as (r & story & out & text & st1 & F & _ & _ & _ & _ & _ & D & _).
    rewrite D. now apply update_row_only_story.
  - intros u url resp st' H. rewrite final_store_run in H.
    apply on_session_success in H; [|intros; apply frames_generateFinalImages].
    destruct H as (r & story & out & text & st1 & F & _ & _ & _ & _ & _ & D & _).
    rewrite D. now apply update_row_only_story.
  - intros body resp st' H. rewrite store_run in H.
    destruct (_ && _ && _); [|discriminate].
    pose proof (frames_generateLinearStory
                  (StoryGeneratorController.briefing body)
                  (StoryGeneratorController.sceneCount body) w st) as F.
    destruct (StoryGeneratorService.generateLinearStory _ _ w st)
      as [[story|e] st1]; [|discriminate].
    destruct F as (F1 & F2 & F3). simpl in F1, F2, F3.
    rewrite create_run in H. cbv zeta in H.
    destruct (StorySession.prepare story) as [text|] eqn:P; [|discriminate].
    destruct (StorySession.uuid_taken _ _); [discriminate|].
    injection H as <- <-. exists story, text. simpl.
    rewrite F1, F2, F3. now repeat split.
  - intros session U. unfold StorySession.insert. now rewrite U.
Qed.

Lemma only_the_story_changes_witness :
  only_story_changes "uuid-0" (db (one_session three_scenes_world))
    (db (snd (StoryGeneratorController.update "uuid-0" "Add a third scene"
                three_scenes_world (one_session three_scenes_world))))
  /\ only_story_changes "uuid-0" (db (one_session finalize_world))
       (db (snd (FinalStoriesController.store "uuid-0" reference_url
                   finalize_world (one_session finalize_world))))
  /\ List.length (db (one_session three_scenes_world)) = 1.
Proof.
  split; [|split].
  - assert (N : NoDup (map row_id (db (one_session three_scenes_world)))).
    { vm_compute. constructor; [intros []|constructor]. }
    destruct (StoryGeneratorController.update "uuid-0" "Add a third scene"
                three_scenes_world (one_session three_scenes_world))
      as [[resp|e] st'] eqn:H.
    + exact (proj1 (only_the_story_changes three_scenes_world
                      (one_session three_scenes_world) N) _ _ _ _ H).
    + vm_compute in H. discriminate H.
  - assert (N : NoDup (map row_id (db (one_session finalize_world)))).
    { vm_compute. constructor; [intros []|constructor]. }
    destruct (FinalStoriesController.store "uuid-0" reference_url
                finalize_world (one_session finalize_world))
      as [[resp|e] st'] eqn:H.
    + exact (proj1 (proj2 (only_the_story_changes finalize_world
                             (one_session finalize_world) N)) _ _ _ _ H).
    + vm_compute in H. discriminate H.
  - vm_compute. reflexivity.
Defined.

(** *** A story without scenes *)

Lemma images_issued_add st st1 cs :
  calls st1 = (calls st ++ cs)%list ->
  images_issued st st1 = List.length (filter is_image_call cs).
Proof.
  intros H. unfold images_issued. rewrite H.
  rewrite skipn_app, skipn_all, Nat.sub_diag. reflexivity.
Qed.

(** C10.  [generateFinalImages] does not test its input for emptiness.  On
    the empty array, once the consistency prompt has been derived, it sends
    no image request and returns the empty array; the controller then
    writes the text of the empty array into the row of the session, which
    reads back as the empty array. *)
Theorem generateFinalImages_empty_story :
  forall (w : World) (st st1 : State) (url cp : string),
    FinalStoryService.createConsistencyPrompt url w st = (Ok cp, st1) ->
    let st2 := add_console st1 [consistency_log cp] in
    FinalStoryService.generateFinalImages (JArr []) url w st = (Ok (JArr []), st2)
    /\ calls st2 = (calls st ++ [ChatCall (FinalStoryService.consistency_request url)])%list
    /\ images_issued st st2 = 0
    /\ forall sessionId row,
         StorySession.find_row sessionId (db st) = Some row ->
         StorySession.consume (Some (current_story_state row)) = Ok (JArr []) ->
         isURL w url = true ->
         exists st',
           FinalStoriesController.store sessionId url w st
           = (Ok (OkSession (session_of row (JArr []))), st')
           /\ StorySession.find_row sessionId (db st') = Some (row_of row "[]")
           /\ StorySession.consume (Some "[]") = Ok (JArr []).
Proof.
  intros w st st1 url cp C st2.
  assert (G : FinalStoryService.generateFinalImages (JArr []) url w st
              = (Ok (JArr []), st2)).
  { rewrite generateFinalImages_run, C. unfold batch. simpl.
    now rewrite add_calls_nil. }
  assert (S1 : calls st2
               = (calls st ++ [ChatCall (FinalStoryService.consistency_request url)])%list).
  { rewrite createConsistencyPrompt_run in C. injection C as _ <-. reflexivity. }
  repeat split; try assumption.
  - now rewrite (images_issued_add _ _ _ S1).
  - intros u row F Cs V.
    pose proof (frames_generateFinalImages (JArr []) url w st) as Fr.
    rewrite G in Fr. destruct Fr as (D & _). simpl in D.
    eexists. rewrite final_store_run. unfold on_session.
    rewrite F, Cs, V, G. simpl. split; [reflexivity|]. split; [|reflexivity].
    simpl. rewrite D. now apply find_row_update.
Qed.

Lemma generateFinalImages_empty_story_witness :
  exists st',
    FinalStoriesController.store "uuid-0" reference_url emptied_story_world
      emptied_story
    = (Ok (OkSession
             (StorySession.mk (Some 1) (Some "uuid-0")
                "A lonely robot finds a garden on a dead planet." 2 (JArr []))),
       st')
    /\ StorySession.find_row "uuid-0" (db st')
       = Some (mkRow 1 "uuid-0"
                 "A lonely robot finds a garden on a dead planet." 2 "[]").
Proof.
  destruct (FinalStoryService.createConsistencyPrompt reference_url
              emptied_story_world emptied_story) as [[cp|e] st1] eqn:C.
  - destruct (generateFinalImages_empty_story emptied_story_world emptied_story
                st1 reference_url cp C) as (_ & _ & _ & H).
    destruct (H "uuid-0"
                (mkRow 1 "uuid-0"
                   "A lonely robot finds a garden on a dead planet." 2 "[]"))
      as (st' & H1 & H2 & _).
    + vm_compute. reflexivity.
    + vm_compute. reflexivity.
    + reflexivity.
    + exists st'. split; [exact H1|exact H2].
  - vm_compute in C. discriminate C.
Defined.

(** *** JSON text: what is written reads back *)

Lemma append_assoc (a b c : string) : ((a ++ b) ++ c = a ++ (b ++ c))%string.
Proof. induction a as [|x a IH]; simpl; [reflexivity|]. now rewrite IH. Qed.

Lemma length_append (a b : string) :
  String.length (a ++ b) = String.length a + String.length b.
Proof. induction a as [|x a IH]; simpl; [reflexivity|]. now rewrite IH. Qed.

(** One code unit, written and read. *)
Lemma parse_escape_char c s :
  Json.parse_string_body (Json.escape_char c ++ s)
  = Json.cons_char c (Json.parse_string_body s).
Proof.
  destruct c as [[|] [|] [|] [|] [|] [|] [|] [|]]; reflexivity.
Qed.

Lemma parse_string_body_escape s rest :
  Json.parse_string_body (Json.escape s ++ dquote ++ rest) = Some (s, rest).
Proof.
  induction s as [|c t IH]; [reflexivity|].
  cbn [Json.escape]. rewrite append_assoc, parse_escape_char, IH. reflexivity.
Qed.

(** Numbers. *)

Lemma terminated_no_digit rest : terminated rest = true -> no_digit_head rest.
Proof.
  destruct rest as [|c t]; simpl; [trivial|].
  destruct (Json.is_digit c); [discriminate|reflexivity].
Qed.

Lemma terminated_no_fraction rest :
  terminated rest = true -> Json.starts_fraction rest = false.
Proof.
  destruct rest as [|c t]; [reflexivity|]. unfold terminated.
  destruct (Json.is_digit c); [discriminate|].
  destruct (Json.starts_fraction (String c t)); [discriminate|reflexivity].
Qed.

Lemma span_digits_uint d rest :
  no_digit_head rest ->
  Json.span_digits (NilEmpty.string_of_uint d ++ rest)
  = (NilEmpty.string_of_uint d, rest).
Proof.
  intros H. induction d; simpl; try (rewrite IHd; reflexivity).
  destruct rest as [|c t]; simpl in *; [reflexivity|]. now rewrite H.
Qed.

Lemma nzhead_plain d : nzhead d = Nil \/ (plain_numeral (nzhead d) /\ nzhead d <> zero).
Proof.
  induction d; simpl; try (right; split; [exact I|discriminate]).
  - now left.
  - assumption.
Qed.

Lemma unorm_plain d : plain_numeral (unorm d).
Proof.
  unfold unorm. destruct (nzhead_plain d) as [-> | [H _]]; [exact I|].
  destruct (nzhead d); try exact I; assumption.
Qed.

Lemma to_uint_plain p : plain_numeral (Pos.to_uint p).
Proof.
  pose proof (unorm_plain (Pos.to_uint p)) as H.
  rewrite <- (DecimalPos.Unsigned.to_of (Pos.to_uint p)) in H.
  now rewrite DecimalPos.Unsigned.of_to in H.
Qed.

Lemma parse_digits_plain d rest :
  plain_numeral d -> terminated rest = true ->
  Json.parse_digits (NilEmpty.string_of_uint d ++ rest) = Some (Z.of_uint d, rest).
Proof.
  intros P T. unfold Json.parse_digits.
  rewrite span_digits_uint by now apply terminated_no_digit.
  rewrite (terminated_no_fraction _ T), NilEmpty.usu.
  destruct d; simpl in *; try reflexivity; try contradiction.
  destruct d; try contradiction. reflexivity.
Qed.

Lemma of_uint_to_uint p : Z.of_uint (Pos.to_uint p) = Z.pos p.
Proof. unfold Z.of_uint. now rewrite DecimalPos.Unsigned.of_to. Qed.

Lemma uint_head d :
  plain_numeral d ->
  exists c t, NilEmpty.string_of_uint d = String c t /\ Json.is_digit c = true.
Proof.
  destruct d; simpl; try contradiction; intros _; eexists _, _;
    (split; [reflexivity|reflexivity]).
Qed.

Lemma parse_number_string_of_Z z rest :
  terminated rest = true ->
  Json.parse_number (string_of_Z z ++ rest) = Some (JNum z, rest).
Proof.
  intros T. unfold string_of_Z. destruct z as [|p|p]; simpl Z.to_int.
  - pose proof (parse_digits_plain (D0 Nil) rest I T) as PD.
    change (NilZero.string_of_int (Pos zero)) with "0"%string.
    cbn [NilEmpty.string_of_uint append] in PD.
    cbn [append Json.parse_number].
    change (nat_of_ascii "0" =? 45) with false. cbv iota.
    now rewrite PD.
  - cbn [NilZero.string_of_int NilZero.string_of_uint].
    pose proof (to_uint_plain p) as Pl.
    assert (E : NilZero.string_of_uint (Pos.to_uint p)
                = NilEmpty.string_of_uint (Pos.to_uint p)).
    { destruct (Pos.to_uint p); try reflexivity. destruct Pl. }
    rewrite E. destruct (uint_head _ Pl) as (c & t & Hs & Hd).
    pose proof (parse_digits_plain _ rest Pl T) as PD.
    rewrite Hs in *. cbn [append Json.parse_number].
    assert (N45 : (nat_of_ascii c =? 45) = false).
    { unfold Json.is_digit in Hd. apply andb_true_iff in Hd. destruct Hd as [A _].
      apply Nat.leb_le in A. apply Nat.eqb_neq. lia. }
    rewrite N45. cbn [append] in PD. rewrite PD, of_uint_to_uint. reflexivity.
  - cbn [NilZero.string_of_int].
    pose proof (to_uint_plain p) as Pl.
    assert (E : NilZero.string_of_uint (Pos.to_uint p)
                = NilEmpty.string_of_uint (Pos.to_uint p)).
    { destruct (Pos.to_uint p); try reflexivity. destruct Pl. }
    rewrite E. cbn [append Json.parse_number].
    change (nat_of_ascii "-" =? 45) with true. cbv iota.
    rewrite (parse_digits_plain _ rest Pl T), of_uint_to_uint. reflexivity.
Qed.

(** Values. *)

Lemma string_of_Z_head z :
  exists c t, string_of_Z z = String c t
              /\ (Json.is_digit c = true \/ nat_of_ascii c = 45).
Proof.
  unfold string_of_Z. destruct z as [|p|p]; simpl Z.to_int.
  - exists "0"%char, ""%string. split; [reflexivity|now left].
  - cbn [NilZero.string_of_int]. pose proof (to_uint_plain p) as Pl.
    destruct (uint_head _ Pl) as (c & t & Hs & Hd). exists c, t.
    split; [|now left]. rewrite <- Hs.
    destruct (Pos.to_uint p); try reflexivity. destruct Pl.
  - cbn [NilZero.string_of_int]. eexists _, _. split; [reflexivity|now right].
Qed.

Lemma stringify_head v :
  exists c t, Json.stringify v = String c t /\ value_head c = true.
Proof.
  destruct v as [|[|]|z|s|l|l]; try (eexists _, _; split; reflexivity).
  destruct (string_of_Z_head z) as (c & t & E & H). exists c, t.
  split; [exact E|]. unfold value_head.
  destruct H as [-> | ->]; [reflexivity|]. now rewrite orb_true_r.
Qed.

Lemma value_head_skip_ws c t :
  value_head c = true -> Json.skip_ws (String c t) = String c t.
Proof.
  destruct c as [[|] [|] [|] [|] [|] [|] [|] [|]]; try discriminate; reflexivity.
Qed.

Lemma value_head_not_closing c :
  value_head c = true ->
  (nat_of_ascii c =? 93) = false /\ (nat_of_ascii c =? 125) = false.
Proof.
  destruct c as [[|] [|] [|] [|] [|] [|] [|] [|]]; try discriminate; now split.
Qed.

Lemma parse_value_number c t f :
  Json.is_digit c = true \/ nat_of_ascii c = 45 ->
  Json.parse_value (S f) (String c t) = Json.parse_number (String c t).
Proof.
  intros H.
  destruct c as [[|] [|] [|] [|] [|] [|] [|] [|]];
    try (exfalso; destruct H as [H|H]; discriminate H); reflexivity.
Qed.

Lemma join_cons sep x l :
  l <> [] -> join sep (x :: l) = (x ++ sep ++ join sep l)%string.
Proof. destruct l; [congruence|reflexivity]. Qed.

Lemma reads_back_elements l :
  l <> [] -> Forall reads_back l ->
  forall fuel rest,
    list_sum (map (fun x => S (need x)) l) <= fuel ->
    Json.parse_elements fuel (join "," (map Json.stringify l) ++ "]" ++ rest)
    = Some (map canon l, rest).
Proof.
  induction l as [|x t IH]; [congruence|].
  intros _ F fuel rest Hf. inversion F as [|? ? Hx Ht]; subst.
  simpl in Hf. destruct fuel as [|f]; [lia|].
  destruct t as [|y t'].
  - cbn [map join Json.parse_elements].
    rewrite (Hx f ("]" ++ rest)%string eq_refl) by lia. reflexivity.
  - change (map Json.stringify (x :: y :: t'))
      with (Json.stringify x :: map Json.stringify (y :: t')).
    rewrite join_cons by discriminate.
    rewrite !append_assoc. cbn [Json.parse_elements].
    rewrite (Hx f ("," ++ join "," (map Json.stringify (y :: t')) ++ "]" ++ rest)%string
               eq_refl) by lia.
    cbn [append Json.skip_ws]. change (Json.is_ws ",") with false. cbv iota.
    change (nat_of_ascii "," =? 44) with true. cbv iota.
    change (String "]" rest) with ("]" ++ rest)%string.
    rewrite (IH ltac:(discriminate) Ht f rest) by (simpl in *; lia).
    reflexivity.
Qed.

Lemma reads_back_members l :
  l <> [] -> Forall (fun kv => reads_back (snd kv)) l ->
  forall fuel rest,
    list_sum (map (fun kv => S (need (snd kv))) l) <= fuel ->
    Json.parse_members fuel (join "," (map member_text l) ++ "}" ++ rest)
    = Some (map canon_member l, rest).
Proof.
  induction l as [|[k x] t IH]; [congruence|].
  intros _ F fuel rest Hf. inversion F as [|? ? Hx Ht]; subst.
  simpl in Hf, Hx. destruct fuel as [|f]; [lia|].
  assert (Step : forall tail,
             Json.parse_members (S f)
               (member_text (k, x) ++ tail)
             = match Json.parse_value f (Json.stringify x ++ tail) with
               | None => None
               | Some (v, r2) =>
                   match Json.skip_ws r2 with
                   | String c' r3 =>
                       if nat_of_ascii c' =? 44 then
                         match Json.parse_members f r3 with
                         | Some (l, r4) => Some ((k, v) :: l, r4)
                         | None => None
                         end
                       else if nat_of_ascii c' =? 125 then Some ([(k, v)], r3)
                       else None
                   | EmptyString => None
                   end
               end).
  { intros tail. unfold member_text, Json.quote. cbn [fst snd].
    rewrite !append_assoc. cbn [Json.parse_members].
    change (dquote ++ Json.escape k ++ dquote ++ ":" ++ Json.stringify x ++ tail)%string
      with (String (ascii_of_nat 34)
              (Json.escape k ++ dquote ++ ":" ++ Json.stringify x ++ tail)).
    cbn [Json.skip_ws]. change (Json.is_ws (ascii_of_nat 34)) with false. cbv iota.
    change (nat_of_ascii (ascii_of_nat 34) =? 34) with true. cbv iota.
    rewrite parse_string_body_escape.
    change (":" ++ Json.stringify x ++ tail)%string
      with (String ":" (Json.stringify x ++ tail)).
    cbn [Json.skip_ws]. change (Json.is_ws ":") with false. cbv iota.
    change (nat_of_ascii ":" =? 58) with true. cbv iota. reflexivity. }
  destruct t as [|y t'].
  - cbn [map join]. rewrite Step.
    rewrite (Hx f ("}" ++ rest)%string eq_refl) by lia. reflexivity.
  - change (map member_text ((k, x) :: y :: t'))
      with (member_text (k, x) :: map member_text (y :: t')).
    rewrite join_cons by discriminate.
    rewrite !append_assoc. rewrite Step.
    rewrite (Hx f ("," ++ join "," (map member_text (y :: t')) ++ "}" ++ rest)%string
               eq_refl) by lia.
    cbn [append Json.skip_ws]. change (Json.is_ws ",") with false. cbv iota.
    change (nat_of_ascii "," =? 44) with true. cbv iota.
    change (String "}" rest) with ("}" ++ rest)%string.
    rewrite (IH ltac:(discriminate) Ht f rest) by (simpl in *; lia).
    reflexivity.
Qed.

(** Every value reads back. *)
Lemma reads_back_all v : reads_back v.
Proof.
  induction v as [| b | z | s | l IH | l IH] using jsval_induction;
    intros fuel rest T Hf; (destruct fuel as [|f]; [simpl in Hf; lia|]).
  - reflexivity.
  - destruct b; reflexivity.
  - cbn [Json.stringify canon].
    destruct (string_of_Z_head z) as (c & t & E & H).
    pose proof (parse_number_string_of_Z z rest T) as PN.
    rewrite E in *. cbn [append] in *.
    now rewrite parse_value_number.
  - cbn [Json.stringify canon]. unfold Json.quote. rewrite !append_assoc.
    change (dquote ++ Json.escape s ++ dquote ++ rest)%string
      with (String (ascii_of_nat 34) (Json.escape s ++ dquote ++ rest)).
    cbn [Json.parse_value Json.skip_ws].
    change (Json.is_ws (ascii_of_nat 34)) with false. cbv iota.
    change (nat_of_ascii (ascii_of_nat 34)) with 34.
    cbn [Nat.eqb]. now rewrite parse_string_body_escape.
  - cbn [Json.stringify canon need] in *. rewrite !append_assoc.
    change ("[" ++ join "," (map Json.stringify l) ++ "]" ++ rest)%string
      with (String "[" (join "," (map Json.stringify l) ++ "]" ++ rest)).
    cbn [Json.parse_value Json.skip_ws].
    change (Json.is_ws "[") with false. cbv iota.
    change (nat_of_ascii "[") with 91. cbn [Nat.eqb].
    destruct l as [|x t]; [reflexivity|].
    rewrite reads_back_elements by (assumption || discriminate || lia).
    destruct (stringify_head x) as (c & tx & E & H).
    change (map Json.stringify (x :: t))
      with (Json.stringify x :: map Json.stringify t).
    assert (Hd : exists u, (join "," (Json.stringify x :: map Json.stringify t)
                            ++ "]" ++ rest)%string = String c u).
    { destruct (map Json.stringify t); cbn [join]; rewrite E; eexists; reflexivity. }
    destruct Hd as (u & ->).
    rewrite (value_head_skip_ws _ _ H).
    destruct (value_head_not_closing _ H) as (-> & _). reflexivity.
  - cbn [Json.stringify canon need] in *. rewrite !append_assoc.
    fold member_text. fold canon_member.
    change (fun kv : string * jsval => Json.quote (fst kv) ++ ":" ++ Json.stringify (snd kv))%string
      with member_text.
    change (fun kv : string * jsval => (fst kv, canon (snd kv))) with canon_member.
    change ("{" ++ join "," (map member_text l) ++ "}" ++ rest)%string
      with (String "{" (join "," (map member_text l) ++ "}" ++ rest)).
    cbn [Json.parse_value Json.skip_ws].
    change (Json.is_ws "{") with false. cbv iota.
    change (nat_of_ascii "{") with 123. cbn [Nat.eqb].
    destruct l as [|[k x] t]; [reflexivity|].
    rewrite reads_back_members by (assumption || discriminate || lia).
    change (map member_text ((k, x) :: t))
      with (member_text (k, x) :: map member_text t).
    assert (Hd : exists u, (join "," (member_text (k, x) :: map member_text t)
                            ++ "}" ++ rest)%string = String (ascii_of_nat 34) u).
    { destruct (map member_text t); cbn [join]; eexists; reflexivity. }
    destruct Hd as (u & ->).
    reflexivity.
Qed.

Lemma append_nil_r (s : string) : (s ++ "")%string = s.
Proof. induction s as [|c t IH]; simpl; [reflexivity|]. now rewrite IH. Qed.

Lemma need_sum_le (f : jsval -> string) l :
  Forall (fun x => need x <= 2 * String.length (f x)) l ->
  list_sum (map (fun x => S (need x)) l)
  <= 2 * String.length (join "," (map f l)) + 2.
Proof.
  induction l as [|x t IH]; intros F; [simpl; lia|].
  inversion F as [|? ? Hx Ht]; subst. specialize (IH Ht).
  change (map f (x :: t)) with (f x :: map f t).
  destruct t as [|y t'].
  - cbn [map join list_sum fold_right]. lia.
  - rewrite join_cons by discriminate. rewrite !length_append.
    cbn [map list_sum fold_right] in *. cbn [String.length]. lia.
Qed.

Lemma need_le_length v : need v <= 2 * String.length (Json.stringify v).
Proof.
  induction v as [| b | z | s | l IH | l IH] using jsval_induction.
  - simpl. lia.
  - destruct b; simpl; lia.
  - destruct (string_of_Z_head z) as (c & t & E & _).
    cbn [Json.stringify need]. rewrite E. simpl. lia.
  - cbn [Json.stringify need]. unfold Json.quote.
    rewrite !length_append. simpl. lia.
  - cbn [Json.stringify need]. rewrite !length_append.
    pose proof (need_sum_le Json.stringify l IH). simpl String.length. lia.
  - cbn [Json.stringify need]. rewrite !length_append.
    assert (F : Forall (fun kv => need (snd kv)
                                 <= 2 * String.length (member_text kv)) l).
    { eapply Forall_impl; [|exact IH]. intros [k x] H. unfold member_text.
      rewrite !length_append. simpl in *. lia. }
    assert (S : list_sum (map (fun kv => S (need (snd kv))) l)
                <= 2 * String.length (join "," (map member_text l)) + 2).
    { clear IH. induction l as [|kv t IHl]; [simpl; lia|].
      inversion F as [|? ? Hx Ht]; subst. specialize (IHl Ht).
      change (map member_text (kv :: t)) with (member_text kv :: map member_text t).
      destruct t as [|y t'].
      - cbn [map join list_sum fold_right]. lia.
      - rewrite join_cons by discriminate. rewrite !length_append.
        cbn [map list_sum fold_right] in *. cbn [String.length]. lia. }
    change (fun kv : string * jsval => Json.quote (fst kv) ++ ":" ++ Json.stringify (snd kv))%string
      with member_text.
    simpl String.length. lia.
Qed.

(** [JSON.parse(JSON.stringify(v))] is [canon v]. *)
Theorem parse_stringify v : Json.parse (Json.stringify v) = Some (canon v).
Proof.
  unfold Json.parse.
  pose proof (reads_back_all v (2 + 2 * String.length (Json.stringify v)) ""
                eq_refl) as R.
  rewrite append_nil_r in R. rewrite R; [reflexivity|].
  pose proof (need_le_length v). lia.
Qed.

Lemma stringify_not_empty v : String.eqb (Json.stringify v) "" = false.
Proof.
  destruct (stringify_head v) as (c & t & -> & _). reflexivity.
Qed.

(** A value that [prepare] accepts reads back as its canonical form. *)
Lemma consume_prepare v :
  truthy v = true ->
  exists text, StorySession.prepare v = Some text
               /\ StorySession.consume (Some text) = Ok (canon v).
Proof.
  intros T. exists (Json.stringify v). unfold StorySession.prepare. rewrite T.
  split; [reflexivity|]. unfold StorySession.consume, JSON_parse.
  now rewrite stringify_not_empty, parse_stringify.
Qed.

Lemma canon_scene s : canon (scene_to_js s) = scene_to_js s.
Proof. destruct s. reflexivity. Qed.

Lemma canon_scenes l : canon (scenes_to_js l) = scenes_to_js l.
Proof.
  unfold scenes_to_js. cbn [canon]. f_equal.
  induction l as [|s t IH]; [reflexivity|].
  cbn [map]. now rewrite canon_scene, IH.
Qed.

Lemma obj_set_fresh k v l :
  existsb (String.eqb k) (map fst l) = false ->
  obj_set k v l = (l ++ [(k, v)])%list.
Proof.
  induction l as [|[k' v'] t IH]; simpl; [reflexivity|].
  destruct (String.eqb k k'); simpl; [discriminate|].
  intros H. now rewrite IH.
Qed.

Lemma existsb_app_false k (a b : list string) :
  existsb (String.eqb k) (a ++ b) = false <->
  existsb (String.eqb k) a = false /\ existsb (String.eqb k) b = false.
Proof. rewrite existsb_app. apply orb_false_iff. Qed.

(** Members with fresh keys are kept as they are. *)
Lemma build_members_fresh l acc :
  fresh_keys (map fst l) = true ->
  (forall k, In k (map fst acc) -> existsb (String.eqb k) (map fst l) = false) ->
  fold_left (fun acc kv => obj_set (fst kv) (snd kv) acc) l acc = (acc ++ l)%list.
Proof.
  revert acc. induction l as [|[k v] t IH]; intros acc F D; simpl.
  - now rewrite List.app_nil_r.
  - simpl in F. apply andb_true_iff in F. destruct F as [Fk Ft].
    apply negb_true_iff in Fk.
    rewrite obj_set_fresh.
    + rewrite IH; [now rewrite <- List.app_assoc|assumption|].
      intros k0 I. rewrite map_app, in_app_iff in I. destruct I as [I|[<-|[]]].
      * specialize (D k0 I). simpl in D. now apply orb_false_iff in D.
      * exact Fk.
    + destruct (existsb (String.eqb k) (map fst acc)) eqn:E; [|reflexivity].
      apply existsb_exists in E. destruct E as (k0 & I & Ek).
      apply String.eqb_eq in Ek. subst k0. specialize (D k I). simpl in D.
      now rewrite String.eqb_refl in D.
Qed.

(** A value without repeated keys is its own canonical form. *)
Lemma canon_keys_distinct v : keys_distinct v = true -> canon v = v.
Proof.
  induction v as [| b | z | s | l IH | l IH] using jsval_induction;
    try reflexivity; cbn [keys_distinct canon]; intros K.
  - f_equal. induction l as [|x t IHt]; [reflexivity|].
    simpl in K. apply andb_true_iff in K. destruct K as [Kx Kt].
    inversion IH as [|? ? Hx Ht]; subst. cbn [map].
    now rewrite (Hx Kx), (IHt Ht Kt).
  - apply andb_true_iff in K. destruct K as [Kf Kv].
    assert (E : map (fun kv => (fst kv, canon (snd kv))) l = l).
    { clear Kf. induction l as [|[k x] t IHt]; [reflexivity|].
      simpl in Kv. apply andb_true_iff in Kv. destruct Kv as [Kx Kt].
      inversion IH as [|? ? Hx Ht]; subst. cbn [map fst snd] in *.
      now rewrite (Hx Kx), (IHt Ht Kt). }
    rewrite E. unfold Json.build_object.
    rewrite build_members_fresh; [reflexivity|assumption|intros k []].
Qed.

(** C8.  A list of scenes that is written through [prepare] and read
    through [consume] comes back as it was: as many scenes, each with its
    six fields.  The same holds for every value [prepare] accepts in which
    no object repeats a key, whatever the order of the keys. *)
Theorem scenes_round_trip :
  (forall (v : list StoryScene),
      exists text,
        StorySession.prepare (scenes_to_js v) = Some text
        /\ StorySession.consume (Some text) = Ok (scenes_to_js v))
  /\ (forall (v : jsval),
         truthy v = true -> keys_distinct v = true ->
         exists text,
           StorySession.prepare v = Some text
           /\ StorySession.consume (Some text) = Ok v).
Proof.
  split.
  - intros v. destruct (consume_prepare (scenes_to_js v) eq_refl) as (text & P & C).
    exists text. split; [exact P|]. now rewrite canon_scenes in C.
  - intros v T K. destruct (consume_prepare v T) as (text & P & C).
    exists text. split; [exact P|]. now rewrite (canon_keys_distinct v K) in C.
Qed.

Lemma scenes_round_trip_witness :
  (exists text,
      StorySession.prepare sample_story = Some text
      /\ StorySession.consume (Some text) = Ok sample_story)
  /\ (exists text,
         StorySession.prepare (JArr [reordered_scene]) = Some text
         /\ StorySession.consume (Some text) = Ok (JArr [reordered_scene])).
Proof.
  split.
  - exact (proj1 scenes_round_trip [sample_scene 1; sample_scene 2]).
  - apply (proj2 scenes_round_trip (JArr [reordered_scene])); reflexivity.
Defined.

(** *** The size of the batches *)

Lemma images_issued_calls st prompts other :
  is_image_call other = false ->
  images_issued st (add_calls (add_calls st [other]) (image_calls prompts))
  = List.length prompts.
Proof.
  intros H. unfold images_issued. simpl.
  rewrite <- List.app_assoc, skipn_app, skipn_all, Nat.sub_diag. simpl.
  rewrite H, filter_image_calls. unfold image_calls. now rewrite length_map.
Qed.

Lemma images_issued_same_calls st st1 st2 :
  calls st2 = calls st1 -> images_issued st st2 = images_issued st st1.
Proof. intros H. unfold images_issued. now rewrite H. Qed.







Lemma generateFinalImages_issues_all scenes url w st out st' :
  FinalStoryService.generateFinalImages scenes url w st = (Ok out, st') ->
  exists items outs,
    scenes = JArr items /\ out = JArr outs
    /\ List.length outs = List.length items
    /\ images_issued st st' = List.length items.
Proof.
  intros H. destruct (generateFinalImages_success _ _ _ _ _ _ H)
    as (cp & items & outs & _ & -> & -> & Lo & (prompts & -> & L) & _).
  exists items, outs. repeat split; try assumption.
  erewrite images_issued_same_calls;
    [rewrite (images_issued_calls st prompts
                (ChatCall (FinalStoryService.consistency_request url)) eq_refl)
    |reflexivity].
  exact L.
Qed.

(** *** The invariant of the server *)

Lemma NoDup_map_inj {A B} (f : A -> B) l a b :
  NoDup (map f l) -> In a l -> In b l -> f a = f b -> a = b.
Proof.
  induction l as [|x t IH]; simpl; [contradiction|].
  intros N. inversion N as [|? ? Nx Nt]; subst.
  intros [->|Ha] [->|Hb] E; try reflexivity.
  - elim Nx. rewrite E. now apply in_map.
  - elim Nx. rewrite <- E. now apply in_map.
  - now apply IH.
Qed.

Lemma NoDup_snoc {A} (l : list A) a :
  NoDup l -> ~ In a l -> NoDup (l ++ [a]).
Proof.
  induction l as [|x t IH]; simpl; intros N H.
  - constructor; [intros []|constructor].
  - inversion N as [|? ? Nx Nt]; subst. constructor.
    + rewrite in_app_iff. intros [I|[->|[]]]; [now apply Nx|]. apply H. now left.
    + apply IH; [assumption|]. intros I. apply H. now right.
Qed.

Lemma uuid_taken_false u d :
  StorySession.uuid_taken u d = false -> ~ In u (map row_uuid d).
Proof.
  unfold StorySession.uuid_taken. induction d as [|r t IH]; simpl; [tauto|].
  destruct (String.eqb (row_uuid r) u) eqn:E; simpl; [discriminate|].
  intros H [I|I]; [|now apply IH].
  apply String.eqb_neq in E. contradiction.
Qed.

(** Row by row, what the UPDATE does under the primary key. *)
Lemma update_row_pointwise i rnew d :
  NoDup (map row_id d) ->
  Forall2 (fun r0 r' => r' = if row_id r0 =? i then rnew else r0)
    d (StorySession.update_row i rnew d).
Proof.
  induction d as [|h t IH]; simpl; intros N; [constructor|].
  inversion N as [|? ? Nh Nt]; subst.
  destruct (row_id h =? i) eqn:E.
  - constructor; [now rewrite E|]. apply Nat.eqb_eq in E. subst i.
    clear IH N Nt. induction t as [|x t IHt]; constructor.
    + destruct (row_id x =? row_id h) eqn:Ex; [|reflexivity].
      apply Nat.eqb_eq in Ex. elim Nh. left. congruence.
    + apply IHt. intros I. apply Nh. now right.
  - constructor; [now rewrite E|now apply IH].
Qed.

Lemma Forall2_In_r {A B} (R : A -> B -> Prop) l l' b :
  Forall2 R l l' -> In b l' -> exists a, In a l /\ R a b.
Proof.
  induction 1 as [|x y t t' Hxy Ht IH]; simpl; [contradiction|].
  intros [->|I].
  - exists x. split; [now left|assumption].
  - destruct (IH I) as (a & Ia & Ra). exists a. split; [now right|assumption].
Qed.

Lemma Forall2_map_eq {A B} (f : A -> B) (R : A -> A -> Prop) l l' :
  Forall2 R l l' -> (forall a b, R a b -> f b = f a) -> map f l' = map f l.
Proof.
  intros F H. induction F as [|x y t t' Hxy Ht IH]; simpl; [reflexivity|].
  now rewrite (H _ _ Hxy), IH.
Qed.

(** Under both keys, the rows after the write of session [u] are the new
    row and the old rows of the other sessions. *)
Lemma update_row_rows u d r text r' :
  NoDup (map row_id d) -> NoDup (map row_uuid d) ->
  StorySession.find_row u d = Some r ->
  In r' (StorySession.update_row (row_id r) (row_of r text) d) ->
  r' = row_of r text \/ (In r' d /\ row_uuid r' <> u).
Proof.
  intros Ni Nu F I.
  destruct (Forall2_In_r _ _ _ _ (update_row_pointwise _ (row_of r text) _ Ni) I)
    as (r0 & I0 & E).
  destruct (row_id r0 =? row_id r) eqn:Ei; [now left|].
  right. subst r'. split; [assumption|].
  intros Eu. apply Nat.eqb_neq in Ei. apply Ei.
  f_equal. apply (NoDup_map_inj row_uuid d); try assumption.
  - now apply (find_row_In u).
  - rewrite Eu. symmetry. now apply find_row_uuid with (1 := F).
Qed.

Lemma update_row_table_ok u st st' r text :
  table_ok st ->
  StorySession.find_row u (db st) = Some r ->
  db st' = StorySession.update_row (row_id r) (row_of r text) (db st) ->
  next_id st' = next_id st ->
  table_ok st'.
Proof.
  intros (Ni & Nu & Lt) F D N. unfold table_ok. rewrite D, N.
  pose proof (update_row_only_story u (db st) r text Ni F) as O.
  assert (Ei : map row_id (StorySession.update_row (row_id r) (row_of r text) (db st))
               = map row_id (db st)).
  { apply (Forall2_map_eq row_id _ _ _ O). now intros a b ((? & _) & _). }
  assert (Eu : map row_uuid (StorySession.update_row (row_id r) (row_of r text) (db st))
               = map row_uuid (db st)).
  { apply (Forall2_map_eq row_uuid _ _ _ O). now intros a b ((_ & ? & _) & _). }
  rewrite Ei, Eu. repeat split; try assumption.
  apply Forall_forall. intros r' I.
  assert (In (row_id r') (map row_id (db st))) as Im.
  { rewrite <- Ei. now apply in_map. }
  apply in_map_iff in Im. destruct Im as (r0 & E0 & I0). rewrite <- E0.
  rewrite Forall_forall in Lt. now apply Lt.
Qed.

(** What [prepare] has written, [consume] reads as the canonical form. *)
Lemma prepare_consume v text :
  StorySession.prepare v = Some text ->
  StorySession.consume (Some text) = Ok (canon v).
Proof.
  unfold StorySession.prepare. destruct (truthy v); [|discriminate].
  intros [= <-]. unfold StorySession.consume, JSON_parse.
  now rewrite stringify_not_empty, parse_stringify.
Qed.

Lemma server_invariant_same_db refined refined' st st' :
  db st' = db st -> next_id st' = next_id st ->
  (forall u, In u refined -> In u refined') ->
  server_invariant refined st -> server_invariant refined' st'.
Proof.
  intros D N Sub ((Ni & Nu & Lt) & Rows). unfold server_invariant, table_ok.
  rewrite D, N. repeat split; try assumption.
  eapply Forall_impl; [|exact Rows]. intros r H Hn. apply H. intros I.
  apply Hn. now apply Sub.
Qed.

Lemma frames_findByOrFail u : frames_table (StorySession.findByOrFail u).
Proof. intros w st. rewrite findByOrFail_run. apply same_table_refl. Qed.

Lemma frames_validateUsing b : frames_table (validateUsing b).
Proof. unfold validateUsing. destruct b; [apply frames_ret|apply frames_throw]. Qed.

Lemma frames_show id : frames_table (ArtStylesController.show id).
Proof.
  unfold ArtStylesController.show.
  apply frames_bind; [apply frames_findByOrFail|]. intros session. cbv zeta.
  destruct (ArtStylesController.has_no_scenes _); [apply frames_ret|].
  apply frames_bind; [apply frames_lift|]. intros firstScene.
  apply frames_bind; [apply frames_suggestStyles|]. intros suggestions.
  apply frames_ret.
Qed.

Lemma frames_art_update body : frames_table (ArtStylesController.update body).
Proof.
  unfold ArtStylesController.update. apply frames_bind.
  - intros w st. apply frames_validateUsing.
  - intros _. apply frames_bind; [apply frames_refineStyle|].
    intros u. apply frames_ret.
Qed.

Lemma generateLinearStory_success briefing n w st story st1 :
  StoryGeneratorService.generateLinearStory briefing n w st = (Ok story, st1) ->
  exists items, story = JArr items /\ Z.of_nat (List.length items) = n.
Proof.
  intros H.
  pose proof (generateLinearStory_run briefing n w st) as R. rewrite H in R.
  simpl in R. destruct (story_of_reply _ _) as [[| | | |items|]|]; try discriminate.
  destruct (Z.eqb _ n) eqn:E; [|discriminate].
  injection R as ->. exists items. split; [reflexivity|now apply Z.eqb_eq].
Qed.

Lemma canon_array_length items items' :
  canon (JArr items) = JArr items' -> List.length items' = List.length items.
Proof. cbn [canon]. intros [= <-]. apply length_map. Qed.

Lemma store_invariant w refined st body res st' :
  server_invariant refined st ->
  StoryGeneratorController.store body w st = (res, st') ->
  server_invariant refined st'.
Proof.
  intros Inv. rewrite store_run.
  destruct ((10 <=? _) && (2 <=? _)%Z && (_ <=? 10)%Z) eqn:V;
    [|intros [= _ <-]; assumption].
  pose proof (frames_generateLinearStory
                (StoryGeneratorController.briefing body)
                (StoryGeneratorController.sceneCount body) w st) as Fr.
  destruct (StoryGeneratorService.generateLinearStory _ _ w st)
    as [[story|e] st1] eqn:G; destruct Fr as (D1 & N1 & _); simpl in D1, N1.
  - rewrite create_run. cbv zeta.
    destruct (StorySession.prepare story) as [text|] eqn:P.
    + destruct (StorySession.uuid_taken _ _) eqn:T.
      * intros [= _ <-].
        apply (server_invariant_same_db refined refined st); auto.
      * intros [= _ <-]. destruct Inv as ((Ni & Nu & Lt) & Rows).
        unfold server_invariant, table_ok. simpl. rewrite D1, N1.
        rewrite !map_app. simpl. repeat split.
        -- apply NoDup_snoc; [assumption|]. intros I.
           apply in_map_iff in I. destruct I as (r & E & I).
           rewrite Forall_forall in Lt. specialize (Lt r I). lia.
        -- apply NoDup_snoc; [assumption|].
           rewrite D1 in T. now apply uuid_taken_false.
        -- apply Forall_app. split.
           ++ eapply Forall_impl; [|exact Lt]. simpl. intros; lia.
           ++ constructor; [simpl; lia|constructor].
        -- apply Forall_app. split; [assumption|].
           constructor; [|constructor]. intros _.
           destruct (generateLinearStory_success _ _ _ _ _ _ G) as (items & -> & L).
           exists (map canon items). simpl. repeat split.
           ++ now apply prepare_consume in P.
           ++ now rewrite length_map.
           ++ apply andb_true_iff in V. destruct V as [V _].
              apply andb_true_iff in V. destruct V as [_ V]. now apply Z.leb_le.
           ++ apply andb_true_iff in V. destruct V as [_ V]. now apply Z.leb_le.
    + intros [= _ <-].
      apply (server_invariant_same_db refined refined st); auto.
  - intros [= _ <-].
    apply (server_invariant_same_db refined refined st); auto.
Qed.

Lemma update_invariant w refined st id prompt res st' :
  server_invariant refined st ->
  StoryGeneratorController.update id prompt w st = (res, st') ->
  server_invariant (id :: refined) st'.
Proof.
  intros Inv H. rewrite update_run in H. destruct res as [resp|e].
  - apply on_session_success in H; [|intros; apply frames_refineStory].
    destruct H as (r & story & out & text & st1 & F & _ & _ & _ & _ & _ & D & N & _).
    destruct Inv as (T & Rows). split.
    + now apply (update_row_table_ok id st st' r text).
    + apply Forall_forall. intros r' I Hn. rewrite D in I.
      destruct T as (Ni & Nu & _).
      destruct (update_row_rows id _ r text r' Ni Nu F I) as [-> | [I0 Hu]].
      * elim Hn. left. simpl. symmetry. now apply find_row_uuid with (1 := F).
      * rewrite Forall_forall in Rows. apply Rows; [assumption|].
        intros I1. apply Hn. now right.
  - apply on_session_throws in H; [|intros; apply frames_refineStory].
    destruct H as (D & N & _).
    apply (server_invariant_same_db refined (id :: refined) st); auto.
    intros u I. now right.
Qed.

Lemma final_invariant w refined st u url res st' :
  server_invariant refined st ->
  FinalStoriesController.store u url w st = (res, st') ->
  server_invariant refined st'.
Proof.
  intros Inv H. rewrite final_store_run in H. destruct res as [resp|e].
  - apply on_session_success in H; [|intros; apply frames_generateFinalImages].
    destruct H as (r & story & out & text & st1 & F & C & _ & G & P & _ & D & N & _).
    destruct Inv as (T & Rows). split.
    + now apply (update_row_table_ok u st st' r text).
    + apply Forall_forall. intros r' I Hn. rewrite D in I.
      rewrite Forall_forall in Rows.
      destruct T as (Ni & Nu & _).
      destruct (update_row_rows u _ r text r' Ni Nu F I) as [-> | [I0 Hu]].
      * destruct (Rows r (find_row_In _ _ _ F) Hn) as (items & C0 & L & Rg).
        rewrite C in C0. injection C0 as ->.
        destruct (generateFinalImages_issues_all _ _ _ _ _ _ G)
          as (items' & outs & E & -> & Lo & _).
        injection E as <-.
        exists (map canon outs). simpl. repeat split; try apply Rg.
        -- now apply prepare_consume in P.
        -- rewrite length_map. congruence.
      * now apply Rows.
  - apply on_session_throws in H; [|intros; apply frames_generateFinalImages].
    destruct H as (D & N & _).
    apply (server_invariant_same_db refined refined st); auto.
Qed.

Lemma handle_invariant w refined st r res st' :
  server_invariant refined st ->
  handle r w st = (res, st') ->
  server_invariant
    (match r with
     | PatchStories id _ => id :: refined
     | _ => refined
     end) st'.
Proof.
  intros Inv H. destruct r as [body|id prompt|id|body|u url]; simpl in H.
  - now apply (store_invariant w refined st body res).
  - now apply (update_invariant w refined st id prompt res).
  - pose proof (frames_show id w st) as Fr. rewrite H in Fr.
    destruct Fr as (D & N & _).
    apply (server_invariant_same_db refined refined st); auto.
  - pose proof (frames_art_update body w st) as Fr. rewrite H in Fr.
    destruct Fr as (D & N & _).
    apply (server_invariant_same_db refined refined st); auto.
  - now apply (final_invariant w refined st u url res).
Qed.

Lemma reachable_invariant w refined st :
  reachable w refined st -> server_invariant refined st.
Proof.
  induction 1 as [|refined st r res st' R IH H].
  - repeat split; constructor.
  - now apply (handle_invariant w refined st r res).
Qed.




(** ** Further properties of the services and the controllers *)

(** *** What can be thrown *)

Lemma raises_ret {A} P (a : A) : raises P (ret a).
Proof. intros w st e st'. discriminate. Qed.

Lemma raises_throw {A} (P : exn -> Prop) e : P e -> raises P (@throw A e).
Proof. intros H w st e' st'. now intros [= <- _]. Qed.

Lemma raises_lift {A} (P : exn -> Prop) (r : result A) :
  (forall e, r = Throw e -> P e) -> raises P (lift r).
Proof. intros H w st e st'. unfold lift. intros [= E _]. now apply H. Qed.

Lemma raises_bind {A B} P (m : M A) (k : A -> M B) :
  raises P m -> (forall a, raises P (k a)) -> raises P (bind m k).
Proof.
  intros Hm Hk w st e st'. unfold bind.
  destruct (m w st) as [[a|e0] st1] eqn:E.
  - apply Hk.
  - intros [= <- _]. now apply (Hm w st e0 st1).
Qed.

Lemma raises_try_catch {A} P (m : M A) (h : exn -> M A) :
  (forall e, raises P (h e)) -> raises P (try_catch m h).
Proof.
  intros Hh w st e st'. unfold try_catch.
  destruct (m w st) as [[a|e0] st1]; [discriminate|]. apply Hh.
Qed.

Lemma raises_console_write P l : raises P (console_write l).
Proof. intros w st e st'. discriminate. Qed.

Lemma raises_chat r : raises service_error (openai_chat_completions_create r).
Proof.
  intros w st e st'. rewrite chat_create_run.
  destruct (chat_completions _ _ _); [discriminate|]. now intros [= <- _].
Qed.

Lemma raises_images P r : raises P (openai_images_generate r).
Proof. intros w st e st'. discriminate. Qed.

Lemma raises_await {A} (p : settled A) : raises service_error (await p).
Proof. destruct p; [apply raises_ret|now apply raises_throw]. Qed.

Lemma settle_all_throws {A} (ps : list (settled A)) e :
  settle_all ps = Throw e -> service_error e.
Proof.
  induction ps as [|[a|msg] t IH]; simpl; try discriminate.
  - destruct (settle_all t); simpl; [discriminate|]. intros [= <-]. now apply IH.
  - now intros [= <-].
Qed.

Lemma raises_promise_all {A} (ps : list (settled A)) :
  raises service_error (promise_all ps).
Proof.
  intros w st e st'. rewrite promise_all_run. intros [= E _].
  now apply (settle_all_throws ps).
Qed.

Lemma raises_mapM {A B} P (f : A -> M B) xs :
  (forall x, raises P (f x)) -> raises P (mapM f xs).
Proof.
  intros Hf. induction xs as [|x t IH]; simpl; [apply raises_ret|].
  apply raises_bind; [apply Hf|]. intros y.
  apply raises_bind; [apply IH|]. intros l. apply raises_ret.
Qed.

Lemma to_string_throws v e : to_string v = Throw e -> e = TypeError.
Proof.
  revert e. induction v as [| b | z | s | l IH | l IH] using jsval_induction;
    intros e; simpl; try discriminate.
  - destruct b; discriminate.
  - match goal with
    | |- rbind (?f l) _ = _ -> _ =>
        assert (A : forall e0, f l = Throw e0 -> e0 = TypeError)
    end.
    { clear e. induction l as [|x t IHt]; intros e0; [discriminate|].
      inversion IH as [|? ? Hx Ht]; subst.
      match goal with
      | |- rbind ?a _ = _ -> _ => destruct a as [sx|ex] eqn:Ex
      end; cbn [rbind].
      - match goal with
        | |- rbind ?y _ = _ -> _ => destruct y as [ss|e1] eqn:Et
        end; simpl; [discriminate|].
        intros [= <-]. now apply IHt.
      - intros [= <-].
        destruct x; try discriminate; now apply Hx. }
    match goal with
    | |- rbind ?y _ = _ -> _ => destruct y as [parts|e0] eqn:E
    end; simpl; [discriminate|].
    intros [= <-]. now apply A.
  - destruct (has_key "toString" l); [now intros [= <-]|discriminate].
Qed.

Lemma hole_throws v k e : hole v k = Throw e -> e = TypeError.
Proof.
  unfold hole. destruct v as [v|]; simpl; [|now intros [= <-]].
  destruct (get v k) as [[x|]|e0] eqn:G; simpl.
  - apply to_string_throws.
  - discriminate.
  - intros [= <-]. now apply (get_throws v k).
Qed.

Lemma service_error_TypeError e : e = TypeError -> service_error e.
Proof. now intros ->. Qed.

Lemma raises_generateLinearStory briefing n :
  raises service_error (StoryGeneratorService.generateLinearStory briefing n).
Proof.
  unfold StoryGeneratorService.generateLinearStory.
  apply raises_try_catch. intros e.
  apply raises_bind; [apply raises_console_write|]. intros _.
  now apply raises_throw.
Qed.

Lemma raises_refineStory story prompt :
  raises service_error (StoryGeneratorService.refineStory story prompt).
Proof.
  unfold StoryGeneratorService.refineStory. cbv zeta.
  apply raises_bind.
  - apply raises_lift. intros e H. apply service_error_TypeError.
    now apply (get_throws story "length").
  - intros sceneCount. apply raises_try_catch. intros e.
    apply raises_bind; [apply raises_console_write|]. intros _.
    now apply raises_throw.
Qed.

Lemma first_content_throws c e : first_content c = Throw e -> service_error e.
Proof. unfold first_content. destruct (choices c); [now intros [= <-]|discriminate]. Qed.

Lemma JSON_parse_throws s e : JSON_parse s = Throw e -> service_error e.
Proof. unfold JSON_parse. destruct (Json.parse s); [discriminate|now intros [= <-]]. Qed.

Lemma buildPrompt_throws firstScene e :
  ArtStyleService.buildPrompt firstScene = Throw e -> e = TypeError.
Proof.
  unfold ArtStyleService.buildPrompt.
  destruct (hole firstScene "narrator") eqn:H1; simpl; [|intros [= <-]; now apply hole_throws in H1].
  destruct (hole firstScene "character") eqn:H2; simpl; [|intros [= <-]; now apply hole_throws in H2].
  destruct (hole firstScene "characterImagePrompt") eqn:H3; simpl; [|intros [= <-]; now apply hole_throws in H3].
  destruct (hole firstScene "backgroundPrompt") eqn:H4; simpl; [discriminate|intros [= <-]; now apply hole_throws in H4].
Qed.

Lemma fullImagePrompt_throws firstScene style e :
  ArtStyleService.fullImagePrompt firstScene style = Throw e -> e = TypeError.
Proof.
  unfold ArtStyleService.fullImagePrompt.
  destruct (hole firstScene "characterImagePrompt") eqn:H1; simpl; [|intros [= <-]; now apply hole_throws in H1].
  destruct (hole (Some style) "imagePrompt") eqn:H2; simpl; [discriminate|intros [= <-]; now apply hole_throws in H2].
Qed.

Lemma finalPrompt_throws cp scene e :
  FinalStoryService.finalPrompt cp scene = Throw e -> e = TypeError.
Proof.
  unfold FinalStoryService.finalPrompt.
  destruct (hole (Some scene) "narrator") eqn:H1; simpl; [|intros [= <-]; now apply hole_throws in H1].
  destruct (hole (Some scene) "character") eqn:H2; simpl; [|intros [= <-]; now apply hole_throws in H2].
  destruct (hole (Some scene) "dialogue") eqn:H3; simpl; [discriminate|intros [= <-]; now apply hole_throws in H3].
Qed.

Lemma mapi_from_throws {A B} (f : A -> nat -> result B) i xs e :
  mapi_from f i xs = Throw e -> exists x j, f x j = Throw e.
Proof.
  revert i. induction xs as [|x t IH]; intros i; simpl; [discriminate|].
  destruct (f x i) as [y|e0] eqn:F; simpl.
  - destruct (mapi_from f (S i) t) as [l|e1] eqn:M; simpl; [discriminate|].
    intros [= <-]. now apply (IH (S i)).
  - intros [= <-]. now exists x, i.
Qed.

Lemma style_suggestion_throws rs x i e :
  ArtStyleService.style_suggestion rs x i = Throw e -> service_error e.
Proof.
  unfold ArtStyleService.style_suggestion.
  destruct (nth_error rs i) as [r|]; [|now intros [= <-]].
  destruct (usable_url r); [discriminate|].
  destruct (hole (Some x) "name") eqn:H; simpl.
  - now intros [= <-].
  - intros [= <-]. apply service_error_TypeError. now apply hole_throws in H.
Qed.

Lemma finalized_scene_throws rs x i e :
  FinalStoryService.finalized_scene rs x i = Throw e -> service_error e.
Proof.
  unfold FinalStoryService.finalized_scene.
  destruct (nth_error rs i) as [r|]; [|now intros [= <-]].
  destruct (usable_url r); [discriminate|].
  destruct (hole (Some x) "id") eqn:H; simpl.
  - now intros [= <-].
  - intros [= <-]. apply service_error_TypeError. now apply hole_throws in H.
Qed.

Lemma raises_send_image build x :
  (forall e, build x = Throw e -> e = TypeError) ->
  raises service_error (send_image build x).
Proof.
  intros H. unfold send_image. apply raises_bind.
  - apply raises_lift. intros e E. apply service_error_TypeError. now apply H.
  - intros p. apply raises_images.
Qed.

Lemma raises_generateStylePrompts firstScene :
  raises service_error (ArtStyleService.generateStylePrompts firstScene).
Proof.
  unfold ArtStyleService.generateStylePrompts.
  apply raises_bind.
  { apply raises_lift. intros e E. apply service_error_TypeError.
    now apply buildPrompt_throws in E. }
  intros prompt. apply raises_bind; [apply raises_chat|]. intros completion.
  apply raises_bind; [apply raises_lift, first_content_throws|]. intros content.
  destruct content as [text|]; [|now apply raises_throw].
  destruct (String.eqb text ""); [now apply raises_throw|].
  apply raises_bind; [apply raises_lift, JSON_parse_throws|]. intros parsed.
  apply raises_bind.
  { apply raises_lift. intros e E. apply service_error_TypeError.
    now apply get_throws in E. }
  intros styles. destruct styles as [[| | | |items|]|]; try now apply raises_throw.
  destruct (negb _); [now apply raises_throw|apply raises_ret].
Qed.

Lemma raises_suggestStyles firstScene :
  raises service_error (ArtStyleService.suggestStyles firstScene).
Proof.
  unfold ArtStyleService.suggestStyles.
  apply raises_bind; [apply raises_generateStylePrompts|]. intros styles.
  apply raises_bind.
  { apply raises_mapM. intros x. apply raises_send_image.
    apply fullImagePrompt_throws. }
  intros ps. apply raises_bind; [apply raises_promise_all|]. intros rs.
  apply raises_bind; [|intros; apply raises_ret].
  apply raises_lift. intros e E. apply mapi_from_throws in E.
  destruct E as (x & j & E). now apply style_suggestion_throws in E.
Qed.

Lemma raises_createConsistencyPrompt url :
  raises service_error (FinalStoryService.createConsistencyPrompt url).
Proof.
  intros w st e st'. rewrite createConsistencyPrompt_run. intros [= E _].
  destruct (chat_completions _ _ _) as [[ch]|]; [|now injection E as <-].
  simpl in E. destruct ch as [|[s|] ?]; try now injection E as <-.
  destruct (String.eqb s ""); [now injection E as <-|discriminate].
Qed.

Lemma raises_generateFinalImages scenes url :
  raises service_error (FinalStoryService.generateFinalImages scenes url).
Proof.
  unfold FinalStoryService.generateFinalImages.
  apply raises_bind; [apply raises_createConsistencyPrompt|]. intros cp.
  apply raises_bind; [apply raises_console_write|]. intros _.
  apply raises_bind.
  { apply raises_lift. intros e. destruct scenes; simpl; try discriminate;
      now intros [= <-]. }
  intros items. apply raises_bind.
  { apply raises_mapM. intros x. apply raises_send_image.
    apply finalPrompt_throws. }
  intros ps. apply raises_bind; [apply raises_promise_all|]. intros rs.
  apply raises_bind; [|intros; apply raises_ret].
  apply raises_lift. intros e E. apply mapi_from_throws in E.
  destruct E as (x & j & E). now apply finalized_scene_throws in E.
Qed.

Lemma raises_getRefinedImagePrompt a b c :
  raises service_error (ArtStyleService.getRefinedImagePrompt a b c).
Proof.
  unfold ArtStyleService.getRefinedImagePrompt.
  apply raises_bind; [apply raises_chat|]. intros completion.
  apply raises_bind; [apply raises_lift, first_content_throws|]. intros content.
  destruct content as [text|]; [|now apply raises_throw].
  destruct (String.eqb text ""); [now apply raises_throw|apply raises_ret].
Qed.

Lemma raises_refineStyle a b c :
  raises service_error (ArtStyleService.refineStyle a b c).
Proof.
  unfold ArtStyleService.refineStyle.
  apply raises_bind; [apply raises_getRefinedImagePrompt|]. intros p.
  apply raises_bind; [apply raises_images|]. intros promise.
  apply raises_bind; [apply raises_await|]. intros r.
  destruct (usable_url r); [apply raises_ret|now apply raises_throw].
Qed.

(** *** The gates of the controllers *)

Lemma show_run id w st :
  ArtStylesController.show id w st =
  match StorySession.find_row id (db st) with
  | None => (Throw RowNotFound, st)
  | Some r =>
      match StorySession.consume (Some (current_story_state r)) with
      | Throw e => (Throw e, st)
      | Ok story =>
          if ArtStylesController.has_no_scenes story
          then (Ok (BadRequest ArtStylesController.no_scenes), st)
          else match get story (index_key 0) with
               | Throw e => (Throw e, st)
               | Ok firstScene =>
                   match ArtStyleService.suggestStyles firstScene w st with
                   | (Ok s, st1) => (Ok (Returned s), st1)
                   | (Throw e, st1) => (Throw e, st1)
                   end
               end
      end
  end.
Proof.
  unfold ArtStylesController.show. unfold bind at 1. rewrite findByOrFail_run.
  destruct (StorySession.find_row id (db st)) as [r|]; [|reflexivity].
  destruct (StorySession.consume _) as [story|e]; [|reflexivity].
  cbv beta iota delta [rbind].
  change (StorySession.currentStoryState (session_of r story)) with story.
  destruct (ArtStylesController.has_no_scenes story); [reflexivity|].
  unfold bind at 1. unfold lift at 1.
  destruct (get story (index_key 0)) as [firstScene|e]; [|reflexivity].
  unfold bind.
  destruct (ArtStyleService.suggestStyles firstScene w st) as [[s|e] st1];
    reflexivity.
Qed.

Lemma art_update_run body w st :
  ArtStylesController.update body w st =
  if art_update_rule w body then
    match ArtStyleService.refineStyle
            (ArtStylesController.originalImageUrl body)
            (ArtStylesController.originalImagePrompt body)
            (ArtStylesController.refinementPrompt body) w st with
    | (Ok u, st1) => (Ok (Created (JObj [("newImageUrl", JStr u)])), st1)
    | (Throw e, st1) => (Throw e, st1)
    end
  else (Throw ValidationError, st).
Proof.
  unfold ArtStylesController.update, art_update_rule. unfold bind at 1.
  unfold validateUsing.
  destruct (_ && _ && _); [|reflexivity].
  unfold ret at 1. unfold bind.
  destruct (ArtStyleService.refineStyle _ _ _ w st) as [[u|e] st1]; reflexivity.
Qed.

(** The errors of the gate are not errors of a service. *)
Lemma refusal_is_no_service_error e :
  e = ValidationError \/ e = RowNotFound -> ~ service_error e.
Proof. intros [-> | ->] H; exact H. Qed.

Lemma on_session_refused w st u valid stage respond e st' :
  (forall story, raises service_error (stage story)) ->
  on_session w st u valid stage respond = (Throw e, st') ->
  e = ValidationError \/ e = RowNotFound ->
  st' = st.
Proof.
  intros R. unfold on_session.
  destruct (StorySession.find_row u (db st)) as [r|]; [|now intros [= _ <-]].
  destruct (StorySession.consume _) as [story|e0]; [|now intros [= _ <-]].
  destruct valid; [|now intros [= _ <-]].
  destruct (stage story w st) as [[out|e1] st1] eqn:G.
  - destruct (StorySession.prepare out); [discriminate|].
    intros [= <- _] [E|E]; discriminate E.
  - intros [= <- _] E. elim (refusal_is_no_service_error _ E).
    now apply (R story w st e1 st1 G).
Qed.

(** X1.  A request that is answered with a validation error or with
    row-not-found has cost nothing: no remote request has left, nothing was
    printed, the table is as it was. *)
Theorem refused_request_costs_nothing :
  forall (w : World) (st st' : State) (r : Request) (e : exn),
    handle r w st = (Throw e, st') ->
    e = ValidationError \/ e = RowNotFound ->
    st' = st.
Proof.
  intros w st st' r e H E. destruct r as [body|id prompt|id|body|u url]; simpl in H.
  - rewrite store_run in H.
    destruct (_ && _ && _); [|now injection H as _ <-].
    destruct (StoryGeneratorService.generateLinearStory _ _ w st)
      as [[story|e1] st1] eqn:G.
    + rewrite create_run in H. cbv zeta in H.
      destruct (StorySession.prepare story).
      * destruct (StorySession.uuid_taken _ _); [|discriminate].
        injection H as <- _. destruct E; discriminate.
      * injection H as <- _. destruct E; discriminate.
    + injection H as <- _. elim (refusal_is_no_service_error _ E).
      now apply (raises_generateLinearStory _ _ w st e1 st1 G).
  - rewrite update_run in H.
    apply (on_session_refused _ _ _ _ _ _ _ _ (fun s => raises_refineStory s prompt) H E).
  - rewrite show_run in H.
    destruct (StorySession.find_row id (db st)) as [r|]; [|now injection H as _ <-].
    destruct (StorySession.consume _) as [story|e0]; [|now injection H as _ <-].
    destruct (ArtStylesController.has_no_scenes story); [discriminate|].
    destruct (get story (index_key 0)) as [firstScene|e0]; [|now injection H as _ <-].
    destruct (ArtStyleService.suggestStyles firstScene w st) as [[s|e1] st1] eqn:G;
      [discriminate|].
    injection H as <- _. elim (refusal_is_no_service_error _ E).
    now apply (raises_suggestStyles _ w st e1 st1 G).
  - rewrite art_update_run in H.
    destruct (art_update_rule w body); [|now injection H as _ <-].
    destruct (ArtStyleService.refineStyle _ _ _ w st) as [[x|e1] st1] eqn:G;
      [discriminate|].
    injection H as <- _. elim (refusal_is_no_service_error _ E).
    now apply (raises_refineStyle _ _ _ w st e1 st1 G).
  - rewrite final_store_run in H.
    apply (on_session_refused _ _ _ _ _ _ _ _
             (fun s => raises_generateFinalImages s url) H E).
Qed.

Lemma refused_request_costs_nothing_witness :
  snd (handle (PatchStories "no-such-session" "Make it darker") goes_offline
         (one_session goes_offline))
  = one_session goes_offline
  /\ snd (handle (PostFinalStory "uuid-0" "not a url")
            (mkWorld (fun _ _ => story_reply sample_story) (fun n _ => image_at n)
               (fun n => "uuid-" ++ index_key n) (fun _ => false))
            (one_session goes_offline))
     = one_session goes_offline.
Proof.
  split.
  - destruct (handle (PatchStories "no-such-session" "Make it darker") goes_offline
                (one_session goes_offline)) as [[resp|e] st'] eqn:H.
    + vm_compute in H. discriminate H.
    + apply (refused_request_costs_nothing _ _ _ _ e H).
      vm_compute in H. injection H as <- _. now right.
  - destruct (handle (PostFinalStory "uuid-0" "not a url") _
                (one_session goes_offline)) as [[resp|e] st'] eqn:H.
    + vm_compute in H. discriminate H.
    + apply (refused_request_costs_nothing _ _ _ _ e H).
      vm_compute in H. injection H as <- _. now left.
Defined.

Lemma on_session_not_found w st u valid stage respond :
  (forall story, raises service_error (stage story)) ->
  fst (on_session w st u valid stage respond) = Throw RowNotFound
  <-> StorySession.find_row u (db st) = None.
Proof.
  intros R. unfold on_session.
  destruct (StorySession.find_row u (db st)) as [r|]; [|now split].
  split; [|discriminate]. intros H. exfalso.
  destruct (StorySession.consume _) as [story|e0] eqn:C.
  - destruct valid; [|discriminate].
    destruct (stage story w st) as [[out|e1] st1] eqn:G.
    + destruct (StorySession.prepare out); discriminate.
    + simpl in H. injection H as ->. exact (R story w st _ st1 G).
  - simpl in H. injection H as ->.
    unfold StorySession.consume in C.
    destruct (negb _); [|discriminate]. now apply JSON_parse_throws in C.
Qed.

Lemma on_session_invalid w st u valid stage respond r story :
  (forall story, raises service_error (stage story)) ->
  StorySession.find_row u (db st) = Some r ->
  StorySession.consume (Some (current_story_state r)) = Ok story ->
  fst (on_session w st u valid stage respond) = Throw ValidationError
  <-> valid = false.
Proof.
  intros R F C. unfold on_session. rewrite F, C.
  destruct valid; [|now split]. split; [|discriminate]. intros H. exfalso.
  destruct (stage story w st) as [[out|e1] st1] eqn:G.
  - destruct (StorySession.prepare out); discriminate.
  - simpl in H. injection H as ->. exact (R story w st _ st1 G).
Qed.

(** X2.  Which requests are refused.  A create request gets a validation
    error exactly when its briefing has fewer than 10 characters or its
    scene count is not from 2 to 10.  A refine, style or finalize request
    gets row-not-found exactly when no session has the uuid it names, and
    this is decided before its body is looked at; on an existing session,
    a refine request gets a validation error exactly when its prompt has
    fewer than 5 characters and a finalize request exactly when its
    reference is not a url.  A style refinement gets a validation error
    exactly when its url, its original prompt (10 characters) or its
    instruction (5 characters) fail their rule. *)
Theorem requests_are_refused_exactly_when :
  forall (w : World) (st : State),
    (forall body,
        fst (StoryGeneratorController.store body w st) = Throw ValidationError
        <-> store_rule body = false)
    /\ (forall id prompt,
           fst (StoryGeneratorController.update id prompt w st) = Throw RowNotFound
           <-> StorySession.find_row id (db st) = None)
    /\ (forall id prompt r story,
           StorySession.find_row id (db st) = Some r ->
           StorySession.consume (Some (current_story_state r)) = Ok story ->
           fst (StoryGeneratorController.update id prompt w st)
           = Throw ValidationError
           <-> String.length prompt < 5)
    /\ (forall id,
           fst (ArtStylesController.show id w st) = Throw RowNotFound
           <-> StorySession.find_row id (db st) = None)
    /\ (forall body,
           fst (ArtStylesController.update body w st) = Throw ValidationError
           <-> art_update_rule w body = false)
    /\ (forall sessionId url,
           fst (FinalStoriesController.store sessionId url w st) = Throw RowNotFound
           <-> StorySession.find_row sessionId (db st) = None)
    /\ (forall sessionId url r story,
           StorySession.find_row sessionId (db st) = Some r ->
           StorySession.consume (Some (current_story_state r)) = Ok story ->
           fst (FinalStoriesController.store sessionId url w st)
           = Throw ValidationError
           <-> isURL w url = false).
Proof.
  intros w st. repeat split.
  - rewrite store_run. fold (store_rule body).
    destruct (store_rule body); [|reflexivity]. intros H. exfalso.
    destruct (StoryGeneratorService.generateLinearStory _ _ w st)
      as [[story|e1] st1] eqn:G.
    + rewrite create_run in H. cbv zeta in H.
      destruct (StorySession.prepare story); [|discriminate].
      destruct (StorySession.uuid_taken _ _); discriminate.
    + simpl in H. injection H as ->.
      exact (raises_generateLinearStory _ _ w st _ st1 G).
  - intros H. rewrite store_run. fold (store_rule body). now rewrite H.
  - rewrite update_run. apply on_session_not_found.
    intros story. apply raises_refineStory.
  - rewrite update_run. apply on_session_not_found.
    intros story. apply raises_refineStory.
  - rewrite update_run, (on_session_invalid _ _ _ _ _ _ r story); try assumption.
    + intros V. apply Nat.leb_gt in V. lia.
    + intros s. apply raises_refineStory.
  - rewrite update_run, (on_session_invalid _ _ _ _ _ _ r story); try assumption.
    + intros V. apply Nat.leb_gt. lia.
    + intros s. apply raises_refineStory.
  - rewrite show_run.
    destruct (StorySession.find_row _ (db st)) as [r|]; [|reflexivity].
    intros H. exfalso.
    destruct (StorySession.consume _) as [story|e0] eqn:C.
    + destruct (ArtStylesController.has_no_scenes story); [discriminate|].
      destruct (get story (index_key 0)) as [firstScene|e0] eqn:Gt.
      * destruct (ArtStyleService.suggestStyles firstScene w st)
          as [[s|e1] st1] eqn:G; [discriminate|].
        simpl in H. injection H as ->.
        exact (raises_suggestStyles _ w st _ st1 G).
      * simpl in H. injection H as ->. apply get_throws in Gt. discriminate.
    + simpl in H. injection H as ->. unfold StorySession.consume in C.
      destruct (negb _); [|discriminate]. now apply JSON_parse_throws in C.
  - intros H. rewrite show_run. now rewrite H.
  - rewrite art_update_run.
    destruct (art_update_rule w body); [|reflexivity]. intros H. exfalso.
    destruct (ArtStyleService.refineStyle _ _ _ w st) as [[x|e1] st1] eqn:G;
      [discriminate|].
    simpl in H. injection H as ->. exact (raises_refineStyle _ _ _ w st _ st1 G).
  - intros H. rewrite art_update_run. now rewrite H.
  - rewrite final_store_run. apply on_session_not_found.
    intros story. apply raises_generateFinalImages.
  - rewrite final_store_run. apply on_session_not_found.
    intros story. apply raises_generateFinalImages.
  - rewrite final_store_run, (on_session_invalid _ _ _ _ _ _ r story);
      try assumption; [trivial|].
    intros s. apply raises_generateFinalImages.
  - rewrite final_store_run, (on_session_invalid _ _ _ _ _ _ r story);
      try assumption; [trivial|].
    intros s. apply raises_generateFinalImages.
Qed.

Lemma requests_are_refused_exactly_when_witness :
  fst (StoryGeneratorController.update "uuid-0" "Hm" goes_offline
         (one_session goes_offline)) = Throw ValidationError
  /\ fst (StoryGeneratorController.store
            (StoryGeneratorController.mkStoreBody
               "A lonely robot finds a garden on a dead planet." 11)
            goes_offline initial_state) = Throw ValidationError.
Proof.
  split.
  - destruct (StorySession.find_row "uuid-0" (db (one_session goes_offline)))
      as [r|] eqn:F; [|vm_compute in F; discriminate F].
    destruct (StorySession.consume (Some (current_story_state r)))
      as [story|e] eqn:C.
    + apply (proj1 (proj2 (proj2 (requests_are_refused_exactly_when goes_offline
                                    (one_session goes_offline))))
               "uuid-0" "Hm" r story F C).
      simpl. lia.
    + vm_compute in F. injection F as <-. vm_compute in C. discriminate C.
  - apply (proj1 (requests_are_refused_exactly_when goes_offline initial_state)).
    reflexivity.
Defined.

(** *** The style endpoints *)

(** X3.  The two art-style endpoints only read: whatever happens, the
    table and its counters are as before.  On a session whose story is an
    array, the style request is answered with the bad request "Story has no
    scenes to analyze." exactly when the array is empty, and that answer
    costs nothing. *)
Theorem style_endpoints_only_read :
  forall (w : World) (st : State),
    (forall id, same_table st (snd (ArtStylesController.show id w st)))
    /\ (forall body, same_table st (snd (ArtStylesController.update body w st)))
    /\ (forall id r items,
          StorySession.find_row id (db st) = Some r ->
          StorySession.consume (Some (current_story_state r)) = Ok (JArr items) ->
          fst (ArtStylesController.show id w st)
          = Ok (BadRequest ArtStylesController.no_scenes)
          <-> items = [])
    /\ (forall id,
          fst (ArtStylesController.show id w st)
          = Ok (BadRequest ArtStylesController.no_scenes) ->
          snd (ArtStylesController.show id w st) = st).
Proof.
  intros w st. split; [|split; [|split]].
  - intros id. apply frames_show.
  - intros body. apply frames_art_update.
  - intros id r items F C. rewrite show_run, F, C.
    destruct items as [|x t]; [now split|].
    split; [|discriminate]. intros H. exfalso.
    cbn in H. destruct (ArtStyleService.suggestStyles _ w st) as [[s|e] st1];
      discriminate.
  - intros id. rewrite show_run.
    destruct (StorySession.find_row id (db st)) as [r|]; [|discriminate].
    destruct (StorySession.consume _) as [story|e0]; [|discriminate].
    destruct (ArtStylesController.has_no_scenes story); [reflexivity|].
    destruct (get story (index_key 0)) as [firstScene|e0]; [|discriminate].
    destruct (ArtStyleService.suggestStyles firstScene w st) as [[s|e] st1];
      discriminate.
Qed.

Lemma style_endpoints_only_read_witness :
  ArtStylesController.show "uuid-0" emptied_story_world emptied_story
  = (Ok (BadRequest ArtStylesController.no_scenes), emptied_story).
Proof.
  destruct (StorySession.find_row "uuid-0" (db emptied_story)) as [r|] eqn:F;
    [|vm_compute in F; discriminate F].
  assert (C : StorySession.consume (Some (current_story_state r)) = Ok (JArr [])).
  { vm_compute in F. injection F as <-. vm_compute. reflexivity. }
  pose proof (proj2 (proj1 (proj2 (proj2 (style_endpoints_only_read
                                             emptied_story_world emptied_story)))
                       "uuid-0" r [] F C) eq_refl) as H.
  pose proof (proj2 (proj2 (proj2 (style_endpoints_only_read
                                     emptied_story_world emptied_story)))
                "uuid-0" H) as S.
  destruct (ArtStylesController.show "uuid-0" emptied_story_world emptied_story)
    as [res st']. simpl in H, S. now subst.
Defined.

Lemma getRefinedImagePrompt_run a b c w st :
  ArtStyleService.getRefinedImagePrompt a b c w st =
  (match reply_content
           (chat_completions w (List.length (calls st))
              (ArtStyleService.refine_request a b c)) with
   | Some text => Ok (trim text)
   | None =>
       match chat_completions w (List.length (calls st))
               (ArtStyleService.refine_request a b c) with
       | Rejected msg => Throw (ApiError msg)
       | Resolved c =>
           match choices c with
           | [] => Throw TypeError
           | _ => Throw (Error "GPT-4o failed to generate a refined prompt.")
           end
       end
   end, add_calls st [ChatCall (ArtStyleService.refine_request a b c)]).
Proof.
  unfold ArtStyleService.getRefinedImagePrompt, reply_content. run_monad.
  rewrite chat_create_run.
  destruct (chat_completions _ _ _) as [[ch]|msg]; simpl; [|reflexivity].
  unfold first_content; simpl.
  destruct ch as [|[s|] rest]; simpl; try reflexivity.
  destruct (String.eqb s ""); reflexivity.
Qed.

Lemma refineStyle_run a b c w st :
  ArtStyleService.refineStyle a b c w st =
  let req := ArtStyleService.refine_request a b c in
  let st1 := add_calls st [ChatCall req] in
  match ArtStyleService.getRefinedImagePrompt a b c w st with
  | (Ok p, _) =>
      (match images_generate w (S (List.length (calls st))) (image_request p) with
       | Resolved r =>
           match usable_url r with
           | Some u => Ok u
           | None => Throw (Error "DALL-E failed to generate the refined image.")
           end
       | Rejected msg => Throw (ApiError msg)
       end, add_calls st1 [ImageCall (image_request p)])
  | (Throw e, _) => (Throw e, st1)
  end.
Proof.
  unfold ArtStyleService.refineStyle. unfold bind at 1.
  rewrite getRefinedImagePrompt_run.
  destruct (reply_content _) as [text|].
  - cbv zeta. unfold bind at 1. unfold openai_images_generate.
    rewrite record_call_add. unfold bind at 1.
    replace (List.length (calls (add_calls st [ChatCall (ArtStyleService.refine_request a b c)])))
      with (S (List.length (calls st)))
      by (simpl; rewrite length_app; simpl; lia).
    destruct (images_generate w _ _) as [r|msg]; simpl; [|reflexivity].
    unfold ret at 1. destruct (usable_url r); reflexivity.
  - cbv zeta.
    destruct (chat_completions _ _ _) as [[ch]|msg]; [|reflexivity].
    destruct (choices _); reflexivity.
Qed.

(** X4.  The refinement of a style image asks the text model for a new
    prompt and then requests one image with it.  When it returns, the url
    is not empty, it is the url of the first image of the answer to the
    second request, and that request carried the trimmed reply of the text
    model.  When the text model brings no content, no image is requested.
    The controller wraps the url as [newImageUrl]. *)
Theorem refineStyle_asks_then_draws :
  forall (w : World) (st : State) (a b c : string),
    let req := ArtStyleService.refine_request a b c in
    let run := ArtStyleService.refineStyle a b c w st in
    (forall u, fst run = Ok u ->
       u <> ""
       /\ exists text r,
            reply_content (chat_completions w (List.length (calls st)) req)
            = Some text
            /\ calls (snd run)
               = (calls st ++ [ChatCall req; ImageCall (image_request (trim text))])%list
            /\ images_generate w (S (List.length (calls st)))
                 (image_request (trim text)) = Resolved r
            /\ first_url r = Some u)
    /\ (reply_content (chat_completions w (List.length (calls st)) req) = None ->
        exists e, run = (Throw e, add_calls st [ChatCall req]))
    /\ (forall body resp st',
          ArtStylesController.update body w st = (Ok resp, st') ->
          exists u, u <> "" /\ resp = Created (JObj [("newImageUrl", JStr u)])).
Proof.
  intros w st a b c req run. subst req run. split; [|split].
  - intros u. rewrite refineStyle_run, getRefinedImagePrompt_run. cbv zeta.
    destruct (reply_content _) as [text|] eqn:Rc.
    + simpl. destruct (images_generate w _ _) as [r|msg] eqn:O; [|discriminate].
      destruct (usable_url r) as [u'|] eqn:U; [|discriminate].
      intros [= <-]. destruct (usable_url_spec _ _ U) as (Fu & Ne).
      split; [assumption|]. exists text, r. repeat split; try assumption.
      now rewrite <- List.app_assoc.
    + destruct (chat_completions _ _ _) as [[ch]|msg]; [|discriminate].
      destruct (choices _); discriminate.
  - intros Rc. rewrite refineStyle_run, getRefinedImagePrompt_run. cbv zeta.
    rewrite Rc. destruct (chat_completions _ _ _) as [[ch]|msg]; [|eexists; reflexivity].
    destruct (choices _); eexists; reflexivity.
  - intros body resp st'. rewrite art_update_run.
    destruct (art_update_rule w body); [|discriminate].
    rewrite refineStyle_run, getRefinedImagePrompt_run. cbv zeta.
    destruct (reply_content _) as [text|].
    + destruct (images_generate w _ _) as [r|msg]; [|discriminate].
      destruct (usable_url r) as [u|] eqn:U; [|discriminate].
      intros [= <- _]. exists u. split; [|reflexivity].
      now destruct (usable_url_spec _ _ U).
    + destruct (chat_completions _ _ _) as [[ch]|msg]; [|discriminate].
      destruct (choices _); discriminate.
Qed.

Lemma refineStyle_asks_then_draws_witness :
  "https://img.example/1" <> ""
  /\ (exists e,
         ArtStyleService.refineStyle reference_url "a small rusty robot"
           "Make it night" (scripted_world []) initial_state
         = (Throw e, add_calls initial_state
                       [ChatCall (ArtStyleService.refine_request reference_url
                                    "a small rusty robot" "Make it night")])).
Proof.
  split.
  - apply (proj1 (proj1 (refineStyle_asks_then_draws illustrator_world initial_state
                           reference_url "a small rusty robot" "Make it night")
                    "https://img.example/1" eq_refl)).
  - apply (proj1 (proj2 (refineStyle_asks_then_draws (scripted_world [])
                           initial_state reference_url "a small rusty robot"
                           "Make it night"))).
    reflexivity.
Defined.

Lemma trim_blank s : blank s = true -> trim s = "".
Proof.
  unfold blank, trim. induction s as [|c t IH]; simpl; [reflexivity|].
  intros H. apply andb_true_iff in H. destruct H as [Hc Ht].
  rewrite Hc. now apply IH.
Qed.

(** X5.  The services test the reply of the text model for emptiness before
    they trim it.  A reply of white space only passes the test and is
    trimmed to the empty prompt: the consistency prompt is then the empty
    string, and the style refinement requests an image with an empty
    prompt. *)
Theorem blank_reply_is_taken_as_prompt :
  forall (w : World) (st : State) (url a b c text : string),
    blank text = true ->
    (reply_content
       (chat_completions w (List.length (calls st))
          (FinalStoryService.consistency_request url)) = Some text ->
     FinalStoryService.createConsistencyPrompt url w st
     = (Ok "", add_calls st [ChatCall (FinalStoryService.consistency_request url)]))
    /\ (reply_content
          (chat_completions w (List.length (calls st))
             (ArtStyleService.refine_request a b c)) = Some text ->
        calls (snd (ArtStyleService.refineStyle a b c w st))
        = (calls st ++ [ChatCall (ArtStyleService.refine_request a b c);
                        ImageCall (image_request "")])%list).
Proof.
  intros w st url a b c text B. split.
  - rewrite createConsistencyPrompt_run. unfold reply_content.
    destruct (chat_completions _ _ _) as [[ch]|msg]; [|discriminate].
    simpl. destruct ch as [|[s|] ?]; try discriminate.
    destruct (String.eqb s ""); [discriminate|].
    intros [= ->]. now rewrite (trim_blank _ B).
  - intros Rc. rewrite refineStyle_run, getRefinedImagePrompt_run. cbv zeta.
    rewrite Rc, (trim_blank _ B). simpl. now rewrite <- List.app_assoc.
Qed.

Lemma blank_reply_is_taken_as_prompt_witness :
  FinalStoryService.createConsistencyPrompt reference_url blank_world initial_state
  = (Ok "", add_calls initial_state
              [ChatCall (FinalStoryService.consistency_request reference_url)])
  /\ calls (snd (ArtStyleService.refineStyle reference_url "a small rusty robot"
                   "Make it night" blank_world initial_state))
     = [ChatCall (ArtStyleService.refine_request reference_url
                    "a small rusty robot" "Make it night");
        ImageCall (image_request "")].
Proof.
  split.
  - apply (proj1 (blank_reply_is_taken_as_prompt blank_world initial_state
                    reference_url "" "" "" nl eq_refl)).
    reflexivity.
  - apply (proj2 (blank_reply_is_taken_as_prompt blank_world initial_state
                    "" reference_url "a small rusty robot" "Make it night" nl
                    eq_refl)).
    reflexivity.
Defined.

(** *** One request per call of the story service *)




(** *** Values without repeated keys *)

Lemma keys_obj_set k0 k v l :
  existsb (String.eqb k0) (map fst (obj_set k v l))
  = existsb (String.eqb k0) (map fst l) || String.eqb k0 k.
Proof.
  induction l as [|[k' v'] t IH]; simpl.
  - now rewrite orb_false_r.
  - destruct (String.eqb k k') eqn:E; simpl.
    + apply String.eqb_eq in E. subst k'.
      destruct (String.eqb k0 k); simpl; [reflexivity|now rewrite orb_false_r].
    + rewrite IH. now rewrite orb_assoc.
Qed.

Lemma fresh_keys_obj_set k v l :
  fresh_keys (map fst l) = true -> fresh_keys (map fst (obj_set k v l)) = true.
Proof.
  induction l as [|[k' v'] t IH]; simpl; [reflexivity|].
  intros H. apply andb_true_iff in H. destruct H as [Hk Ht].
  destruct (String.eqb k k') eqn:E; simpl.
  - apply String.eqb_eq in E. subst k'. now rewrite Hk, Ht.
  - rewrite keys_obj_set, (String.eqb_sym k' k), E, orb_false_r, Hk. simpl.
    now apply IH.
Qed.

Lemma values_obj_set (P : jsval -> bool) k v l :
  P v = true -> forallb (fun kv => P (snd kv)) l = true ->
  forallb (fun kv => P (snd kv)) (obj_set k v l) = true.
Proof.
  intros Hv. induction l as [|[k' v'] t IH]; simpl; [now rewrite Hv|].
  intros H. apply andb_true_iff in H. destruct H as [Hh Ht].
  destruct (String.eqb k k'); simpl.
  - now rewrite Hv, Ht.
  - now rewrite Hh, IH.
Qed.

Lemma keys_distinct_obj_set k v l :
  keys_distinct v = true -> keys_distinct (JObj l) = true ->
  keys_distinct (JObj (obj_set k v l)) = true.
Proof.
  cbn [keys_distinct]. intros Hv H. apply andb_true_iff in H.
  destruct H as [Hf Hl]. apply andb_true_iff. split.
  - now apply fresh_keys_obj_set.
  - now apply values_obj_set.
Qed.

Lemma build_object_distinct members :
  forallb (fun kv => keys_distinct (snd kv)) members = true ->
  keys_distinct (Json.build_object members) = true.
Proof.
  unfold Json.build_object.
  assert (G : forall acc,
             keys_distinct (JObj acc) = true ->
             forallb (fun kv => keys_distinct (snd kv)) members = true ->
             keys_distinct
               (JObj (fold_left (fun acc kv => obj_set (fst kv) (snd kv) acc)
                        members acc)) = true).
  { induction members as [|[k v] t IH]; intros acc Ha Hm; simpl; [assumption|].
    simpl in Hm. apply andb_true_iff in Hm. destruct Hm as [Hv Ht].
    apply IH; [|assumption]. now apply keys_distinct_obj_set. }
  apply G. reflexivity.
Qed.

(** Takes a hypothesis on the result of a parser apart, case by case. *)
Ltac parser_cases H :=
  repeat match type of H with
         | context [match ?x with _ => _ end] =>
             destruct x eqn:?; try discriminate H
         | context [if ?b then _ else _] =>
             destruct b eqn:?; try discriminate H
         end.

Lemma literal_value word v s v' r :
  Json.literal word v s = Some (v', r) -> v' = v.
Proof.
  unfold Json.literal. destruct (Json.expect word s); [|discriminate].
  now intros [= <- _].
Qed.

Lemma parse_number_value s v r :
  Json.parse_number s = Some (v, r) -> keys_distinct v = true.
Proof.
  unfold Json.parse_number. intros H. parser_cases H;
    injection H as <- _; reflexivity.
Qed.

(** What the parser returns has no repeated key. *)
Lemma parser_distinct fuel :
  (forall s v r, Json.parse_value fuel s = Some (v, r) -> keys_distinct v = true)
  /\ (forall s l r, Json.parse_elements fuel s = Some (l, r) ->
        forallb keys_distinct l = true)
  /\ (forall s l r, Json.parse_members fuel s = Some (l, r) ->
        forallb (fun kv => keys_distinct (snd kv)) l = true).
Proof.
  induction fuel as [|f (IHv & IHe & IHm)]; [repeat split; discriminate|].
  split; [|split].
  - intros s v r H. cbn [Json.parse_value] in H.
    destruct (Json.skip_ws s) as [|c t]; [discriminate|]. cbv zeta in H.
    destruct (nat_of_ascii c =? 110); [now apply literal_value in H; subst|].
    destruct (nat_of_ascii c =? 116); [now apply literal_value in H; subst|].
    destruct (nat_of_ascii c =? 102); [now apply literal_value in H; subst|].
    destruct (nat_of_ascii c =? 34).
    { destruct (Json.parse_string_body t) as [[str r']|]; [|discriminate].
      now injection H as <- _. }
    destruct (nat_of_ascii c =? 91).
    { destruct (Json.skip_ws t) as [|c' r']; [discriminate|].
      destruct (nat_of_ascii c' =? 93); [now injection H as <- _|].
      destruct (Json.parse_elements f t) as [[l r'']|] eqn:E; [|discriminate].
      injection H as <- _. cbn [keys_distinct]. now apply IHe in E. }
    destruct (nat_of_ascii c =? 123).
    { destruct (Json.skip_ws t) as [|c' r']; [discriminate|].
      destruct (nat_of_ascii c' =? 125); [now injection H as <- _|].
      destruct (Json.parse_members f t) as [[l r'']|] eqn:E; [|discriminate].
      injection H as <- _. apply build_object_distinct. now apply IHm in E. }
    now apply parse_number_value in H.
  - intros s l r H. cbn [Json.parse_elements] in H.
    destruct (Json.parse_value f s) as [[v r0]|] eqn:E; [|discriminate].
    apply IHv in E.
    destruct (Json.skip_ws r0) as [|c r']; [discriminate|]. cbv zeta in H.
    destruct (nat_of_ascii c =? 44).
    { destruct (Json.parse_elements f r') as [[l' r'']|] eqn:E'; [|discriminate].
      injection H as <- _. simpl. rewrite E. now apply IHe in E'. }
    destruct (nat_of_ascii c =? 93); [|discriminate].
    injection H as <- _. simpl. now rewrite E.
  - intros s l r H. cbn [Json.parse_members] in H.
    destruct (Json.skip_ws s) as [|q0 t]; [discriminate|].
    destruct (nat_of_ascii q0 =? 34); [|discriminate].
    destruct (Json.parse_string_body t) as [[k r0]|]; [|discriminate].
    destruct (Json.skip_ws r0) as [|c r1]; [discriminate|].
    destruct (nat_of_ascii c =? 58); [|discriminate].
    destruct (Json.parse_value f r1) as [[v r2]|] eqn:E; [|discriminate].
    apply IHv in E.
    destruct (Json.skip_ws r2) as [|c' r3]; [discriminate|]. cbv zeta in H.
    destruct (nat_of_ascii c' =? 44).
    { destruct (Json.parse_members f r3) as [[l' r4]|] eqn:E'; [|discriminate].
      injection H as <- _. simpl. rewrite E. now apply IHm in E'. }
    destruct (nat_of_ascii c' =? 125); [|discriminate].
    injection H as <- _. simpl. now rewrite E.
Qed.

Lemma parse_distinct s v : Json.parse s = Some v -> keys_distinct v = true.
Proof.
  unfold Json.parse.
  destruct (Json.parse_value _ s) as [[v' r]|] eqn:E; [|discriminate].
  destruct (Json.skip_ws r); [|discriminate]. intros [= <-].
  now apply (proj1 (parser_distinct _)) in E.
Qed.

Lemma consume_distinct text story :
  StorySession.consume text = Ok story -> keys_distinct story = true.
Proof.
  unfold StorySession.consume, JSON_parse. destruct text as [s|]; [|now intros [= <-]].
  destruct (negb _); [|now intros [= <-]].
  destruct (Json.parse s) eqn:E; [|discriminate]. intros [= <-].
  now apply parse_distinct in E.
Qed.

Lemma lookup_distinct k l s :
  forallb (fun kv => keys_distinct (snd kv)) l = true ->
  lookup k l = Some s -> keys_distinct s = true.
Proof.
  induction l as [|[k' v'] t IH]; simpl; [discriminate|].
  intros H. apply andb_true_iff in H. destruct H as [Hh Ht].
  destruct (String.eqb k k'); [now intros [= <-]|now apply IH].
Qed.

Lemma enum_from_distinct i l :
  forallb keys_distinct l = true ->
  forallb (fun kv => keys_distinct (snd kv)) (enum_from i l) = true.
Proof.
  revert i. induction l as [|x t IH]; intros i; simpl; [reflexivity|].
  intros H. apply andb_true_iff in H. destruct H as [Hx Ht].
  now rewrite Hx, IH.
Qed.

Lemma chars_distinct s : forallb keys_distinct (chars s) = true.
Proof.
  unfold chars. induction (list_ascii_of_string s) as [|c t IH]; simpl;
    [reflexivity|assumption].
Qed.

Lemma own_props_distinct v :
  keys_distinct v = true ->
  forallb (fun kv => keys_distinct (snd kv)) (own_props v) = true.
Proof.
  destruct v; simpl; try reflexivity.
  - intros _. apply enum_from_distinct, chars_distinct.
  - apply enum_from_distinct.
  - intros H. now apply andb_true_iff in H.
Qed.

(** A property read on a value without repeated keys gives such a value. *)
Lemma get_distinct v k s :
  keys_distinct v = true -> get v k = Ok (Some s) -> keys_distinct s = true.
Proof.
  intros Kv. pose proof (own_props_distinct v Kv) as Ko. unfold get.
  destruct v as [| b | z | str | l | l]; [discriminate| | | | |];
    destruct (String.eqb k "length"); intros [= H]; simpl in H;
    try discriminate H;
    try (now subst s);
    try (now apply (lookup_distinct _ _ _ Ko) in H).
Qed.

Lemma story_of_reply_distinct key r s :
  story_of_reply key r = Some s -> keys_distinct s = true.
Proof.
  unfold story_of_reply. destruct r as [c|]; [|discriminate].
  destruct (choices c) as [|[text|] ?]; try discriminate.
  destruct (String.eqb text ""); [discriminate|].
  destruct (Json.parse text) as [v|] eqn:P; [|discriminate].
  destruct (get v key) as [[x|]|] eqn:G; try discriminate.
  intros [= <-]. apply parse_distinct in P. now apply (get_distinct v key).
Qed.

Lemma to_int_not_nil z : Z.to_int z <> Pos Nil /\ Z.to_int z <> Neg Nil.
Proof.
  destruct z as [|p|p]; simpl; split; try discriminate;
    intros [= H]; now apply Unsigned.to_uint_nonnil in H.
Qed.

Lemma string_of_Z_inj a b : string_of_Z a = string_of_Z b -> a = b.
Proof.
  unfold string_of_Z. intros H.
  apply (f_equal NilZero.int_of_string) in H.
  destruct (to_int_not_nil a) as [A1 A2]. destruct (to_int_not_nil b) as [B1 B2].
  rewrite !NilZero.isi in H by assumption.
  injection H as H. now apply to_int_inj.
Qed.

Lemma index_key_fresh i j (l : list jsval) :
  i < j -> existsb (String.eqb (index_key i)) (map fst (enum_from j l)) = false.
Proof.
  revert j. induction l as [|x t IH]; intros j L; simpl; [reflexivity|].
  rewrite (IH (S j)) by lia. rewrite orb_false_r.
  apply String.eqb_neq. unfold index_key. intros H.
  apply string_of_Z_inj in H. lia.
Qed.

Lemma enum_from_fresh i (l : list jsval) : fresh_keys (map fst (enum_from i l)) = true.
Proof.
  revert i. induction l as [|x t IH]; intros i; simpl; [reflexivity|].
  rewrite index_key_fresh by lia. now rewrite IH.
Qed.

(** The object a spread starts from has no repeated key. *)
Lemma spread_distinct v :
  keys_distinct v = true -> keys_distinct (JObj (spread v)) = true.
Proof.
  intros K. cbn [keys_distinct]. apply andb_true_iff. split.
  - unfold spread. destruct v; simpl; try reflexivity; try apply enum_from_fresh.
    cbn [keys_distinct] in K. now apply andb_true_iff in K.
  - now apply own_props_distinct.
Qed.

Lemma illustrated_distinct scene u :
  keys_distinct scene = true ->
  keys_distinct (FinalStoryService.illustrated scene u) = true.
Proof.
  intros K. unfold FinalStoryService.illustrated.
  apply keys_distinct_obj_set; [reflexivity|].
  apply keys_distinct_obj_set; [reflexivity|]. now apply spread_distinct.
Qed.

(** *** What a request does to the table *)

Lemma refineStory_returns_reply story prompt w st out st' :
  StoryGeneratorService.refineStory story prompt w st = (Ok out, st') ->
  story_of_reply "story"
    (chat_completions w (List.length (calls st)) (refinement_request story prompt))
  = Some out.
Proof.
  unfold StoryGeneratorService.refineStory, story_of_reply, JSON_parse.
  cbv zeta. fold (refinement_request story prompt).
  unfold bind at 1. unfold lift at 1.
  destruct (get story "length") as [sceneCount|e]; [|discriminate].
  run_monad. rewrite chat_create_run.
  destruct (chat_completions _ _ _) as [[ch]|msg]; simpl; [|discriminate].
  unfold first_content; simpl.
  destruct ch as [|[text|] rest]; simpl; try discriminate.
  destruct (String.eqb text ""); simpl; [discriminate|].
  destruct (Json.parse text) as [v|]; simpl; [|discriminate].
  destruct (get v "story") as [[s|]|e] eqn:G; simpl; try discriminate.
  destruct s; simpl; try (now intros [= <- _]).
  destruct (num_strict_neq _ _); simpl; now intros [= <- _].
Qed.

Lemma generateLinearStory_distinct briefing n w st story st1 :
  StoryGeneratorService.generateLinearStory briefing n w st = (Ok story, st1) ->
  keys_distinct story = true.
Proof.
  intros H. pose proof (generateLinearStory_run briefing n w st) as R.
  rewrite H in R. simpl in R.
  destruct (story_of_reply _ _) as [[| | | |items|]|] eqn:Sr; try discriminate.
  destruct (Z.eqb _ n); [|discriminate]. injection R as ->.
  now apply story_of_reply_distinct in Sr.
Qed.

Lemma Forall_nth_error {A} (P : A -> Prop) l :
  (forall i x, nth_error l i = Some x -> P x) -> Forall P l.
Proof.
  intros H. apply Forall_forall. intros x I.
  apply In_nth_error in I. destruct I as (i & E). now apply (H i).
Qed.

Lemma generateFinalImages_distinct scenes url w st out st' :
  keys_distinct scenes = true ->
  FinalStoryService.generateFinalImages scenes url w st = (Ok out, st') ->
  keys_distinct out = true.
Proof.
  intros K H.
  destruct (generateFinalImages_success _ _ _ _ _ _ H)
    as (cp & items & outs & _ & -> & -> & L & _ & N).
  cbn [keys_distinct] in *. apply forallb_forall. intros y I.
  apply In_nth_error in I. destruct I as (i & E).
  assert (Hi : i < List.length items).
  { rewrite <- L. apply nth_error_Some. congruence. }
  destruct (nth_error items i) as [x|] eqn:Ex;
    [|apply nth_error_None in Ex; lia].
  destruct (N i x Ex) as (p & r & u & _ & _ & _ & _ & O).
  rewrite E in O. injection O as ->. apply illustrated_distinct.
  rewrite forallb_forall in K. apply K. now apply nth_error_In in Ex.
Qed.

Lemma on_session_step w st u valid stage respond res st' :
  (forall story, frames_table (stage story)) ->
  (forall story out st0 st1,
      keys_distinct story = true -> stage story w st0 = (Ok out, st1) ->
      keys_distinct out = true) ->
  on_session w st u valid stage respond = (res, st') ->
  table_step w st st'.
Proof.
  intros F K H. destruct res as [resp|e].
  - destruct (on_session_success _ _ _ _ _ _ _ _ F H)
      as (r & story & out & text & st1 & Fr & C & _ & G & P & _ & D & N & Dr & _).
    apply (step_update w st st' u r out text); try assumption.
    apply (K story out st st1); [|assumption].
    now apply consume_distinct in C.
  - destruct (on_session_throws _ _ _ _ _ _ _ _ F H) as (D & N & Dr).
    apply step_same; try assumption. lia.
Qed.

Lemma handle_table_step w st r res st' :
  handle r w st = (res, st') -> table_step w st st'.
Proof.
  destruct r as [body|id prompt|id|body|u url]; simpl; intros H.
  - rewrite store_run in H.
    destruct ((10 <=? _) && (2 <=? _)%Z && (_ <=? 10)%Z) eqn:V;
      [|injection H as _ <-; now apply step_same].
    apply andb_true_iff in V. destruct V as [V V3].
    apply andb_true_iff in V. destruct V as [V1 V2].
    apply Nat.leb_le in V1. apply Z.leb_le in V2, V3.
    pose proof (frames_generateLinearStory
                  (StoryGeneratorController.briefing body)
                  (StoryGeneratorController.sceneCount body) w st) as Fr.
    destruct (StoryGeneratorService.generateLinearStory _ _ w st)
      as [[story|e] st1] eqn:G; destruct Fr as (D1 & N1 & Dr1);
      simpl in D1, N1, Dr1.
    + pose proof (generateLinearStory_distinct _ _ _ _ _ _ G) as Ks.
      destruct (generateLinearStory_success _ _ _ _ _ _ G) as (items & -> & L).
      rewrite create_run in H. cbv zeta in H.
      destruct (StorySession.prepare (JArr items)) as [text|] eqn:P.
      * destruct (StorySession.uuid_taken _ _) eqn:T.
        -- injection H as _ <-. apply step_same; simpl; try assumption. lia.
        -- injection H as _ <-.
           apply (step_insert w st _ (StoryGeneratorController.briefing body)
                    (StoryGeneratorController.sceneCount body) items text);
             simpl; try assumption; try lia; try congruence.
      * injection H as _ <-. apply step_same; simpl; try assumption. lia.
    + injection H as _ <-. apply step_same; try assumption. lia.
  - rewrite update_run in H. apply on_session_step in H; try assumption.
    + intros story. apply frames_refineStory.
    + intros story out st0 st1 _ G. apply refineStory_returns_reply in G.
      now apply story_of_reply_distinct in G.
  - pose proof (frames_show id w st) as Fr. rewrite H in Fr.
    destruct Fr as (D & N & Dr). apply step_same; try assumption.
    simpl in Dr. lia.
  - pose proof (frames_art_update body w st) as Fr. rewrite H in Fr.
    destruct Fr as (D & N & Dr). apply step_same; try assumption.
    simpl in Dr. lia.
  - rewrite final_store_run in H. apply on_session_step in H; try assumption.
    + intros story. apply frames_generateFinalImages.
    + intros story out st0 st1 Ks G.
      now apply (generateFinalImages_distinct story url w st0 out st1).
Qed.

Lemma Forall2_Forall {A} (R : A -> A -> Prop) (P Q : A -> Prop) l l' :
  Forall2 R l l' -> Forall P l ->
  (forall a b, In a l -> R a b -> P a -> Q b) -> Forall Q l'.
Proof.
  intros F. induction F as [|x y t t' Hxy Ht IH]; intros Hp H; constructor.
  - inversion Hp; subst. apply (H x y); [now left|assumption|assumption].
  - inversion Hp; subst. apply IH; [assumption|].
    intros a b I. apply H. now right.
Qed.

Lemma row_ok_drawn w st st' r :
  drawn st <= drawn st' -> row_ok w st r -> row_ok w st' r.
Proof.
  intros L (R1 & R2 & (k & Hk & E) & R4). repeat split; try assumption; try apply R1.
  exists k. split; [lia|assumption].
Qed.

(** What the rows keep from their creation is kept by every request. *)
Lemma table_step_keeps w st st' :
  table_step w st st' ->
  NoDup (map row_id (db st)) ->
  Forall (row_ok w st) (db st) ->
  Forall (row_ok w st') (db st').
Proof.
  intros S Nd Rows. destruct S as [D N Dr | briefing n items text
    B Rg L K P T D N Dr | u r out text F K P D N Dr].
  - rewrite D. eapply Forall_impl; [|exact Rows]. intros a. now apply row_ok_drawn.
  - rewrite D. apply Forall_app. split.
    + eapply Forall_impl; [|exact Rows]. intros a. apply row_ok_drawn. lia.
    + constructor; [|constructor]. repeat split; simpl; try assumption; try apply Rg.
      * exists (drawn st). split; [lia|reflexivity].
      * exists (JArr items). now split.
  - rewrite D.
    pose proof (update_row_pointwise (row_id r) (row_of r text) (db st) Nd) as Pw.
    apply (Forall2_Forall _ _ _ _ _ Pw Rows). intros a b Ia E Ra.
    apply (row_ok_drawn w st st'); [lia|].
    destruct (row_id a =? row_id r) eqn:Eq; subst b; [|assumption].
    apply Nat.eqb_eq in Eq.
    assert (a = r).
    { apply (NoDup_map_inj row_id (db st)); try assumption.
      now apply (find_row_In u). }
    subst a. destruct Ra as (R1 & R2 & R3 & R4).
    repeat split; simpl; try assumption; try apply R1.
    exists out. now split.
Qed.

Lemma reachable_rows w refined st :
  reachable w refined st -> Forall (row_ok w st) (db st).
Proof.
  induction 1 as [|refined st r res st' R IH H].
  - constructor.
  - destruct (reachable_invariant _ _ _ R) as ((Ni & _) & _).
    apply (table_step_keeps w st st'); try assumption.
    now apply (handle_table_step w st r res).
Qed.

Lemma keeps_identity_refl r : keeps_identity r r.
Proof. now repeat split. Qed.

Lemma Forall2_In_l {A B} (R : A -> B -> Prop) l l' a :
  Forall2 R l l' -> In a l -> exists b, In b l' /\ R a b.
Proof.
  induction 1 as [|x y t t' Hxy Ht IH]; simpl; [contradiction|].
  intros [->|I].
  - exists y. split; [now left|assumption].
  - destruct (IH I) as (b & Ib & Rb). exists b. split; [now right|assumption].
Qed.

(** No request removes a row or changes what identifies it. *)
Lemma table_step_kept w st st' row :
  table_step w st st' ->
  NoDup (map row_id (db st)) ->
  In row (db st) ->
  exists row', In row' (db st') /\ keeps_identity row row'.
Proof.
  intros S Nd I. destruct S as [D N Dr | briefing n items text
    B Rg L K P T D N Dr | u r out text F K P D N Dr].
  - exists row. rewrite D. split; [assumption|apply keeps_identity_refl].
  - exists row. rewrite D. split; [|apply keeps_identity_refl].
    apply in_or_app. now left.
  - pose proof (update_row_only_story u (db st) r text Nd F) as O.
    destruct (Forall2_In_l _ _ _ _ O I) as (row' & I' & (Kp & _)).
    exists row'. rewrite D. now split.
Qed.

Lemma find_row_complete d r :
  NoDup (map row_uuid d) -> In r d ->
  StorySession.find_row (row_uuid r) d = Some r.
Proof.
  induction d as [|h t IH]; simpl; [contradiction|].
  intros N. inversion N as [|? ? Nh Nt]; subst. intros [->|I].
  - now rewrite String.eqb_refl.
  - destruct (String.eqb (row_uuid h) (row_uuid r)) eqn:E; [|now apply IH].
    apply String.eqb_eq in E. elim Nh. rewrite E. now apply in_map.
Qed.

Lemma written_reads text v :
  keys_distinct v = true -> StorySession.prepare v = Some text ->
  StorySession.consume (Some text) = Ok v.
Proof.
  intros K P. rewrite (prepare_consume v text P). now rewrite canon_keys_distinct.
Qed.

(** *** The sessions of a running server *)

(** X7.  In every state the server can reach, every stored session reads
    back: the lookup by its uuid finds that very row and never fails on the
    stored text, the story it returns is truthy and has no repeated key,
    and writing that story again would store the same text. *)
Theorem stored_sessions_read_back :
  forall (w : World) (refined : list string) (st : State) (r : Row),
    reachable w refined st ->
    In r (db st) ->
    exists story,
      StorySession.findByOrFail (row_uuid r) w st = (Ok (session_of r story), st)
      /\ truthy story = true
      /\ keys_distinct story = true
      /\ StorySession.prepare story = Some (current_story_state r).
Proof.
  intros w refined st r Re I.
  destruct (reachable_invariant _ _ _ Re) as ((_ & Nu & _) & _).
  pose proof (reachable_rows _ _ _ Re) as Rows.
  rewrite Forall_forall in Rows.
  destruct (Rows r I) as (_ & _ & _ & (v & K & P)).
  exists v. rewrite findByOrFail_run, (find_row_complete _ _ Nu I).
  rewrite (written_reads _ _ K P). repeat split; try assumption.
  unfold StorySession.prepare in P. destruct (truthy v); [reflexivity|discriminate].
Qed.

Lemma stored_sessions_read_back_witness :
  exists r story,
    In r (db (one_session finalize_world))
    /\ StorySession.findByOrFail (row_uuid r) finalize_world
         (one_session finalize_world)
       = (Ok (session_of r story), one_session finalize_world)
    /\ StorySession.prepare story = Some (current_story_state r).
Proof.
  assert (Re : reachable finalize_world [] (one_session finalize_world)).
  { apply (reach_step finalize_world [] initial_state robot_request
             (fst (handle robot_request finalize_world initial_state))
             (one_session finalize_world)); [constructor|].
    apply surjective_pairing. }
  destruct (db (one_session finalize_world)) as [|r t] eqn:D;
    [vm_compute in D; discriminate D|].
  assert (I : In r (db (one_session finalize_world))) by (rewrite D; now left).
  destruct (stored_sessions_read_back finalize_world [] _ r Re I)
    as (story & F & _ & _ & P).
  exists r, story. rewrite <- D. split; [exact I|]. split; [exact F|exact P].
Defined.

(** X8.  In every state the server can reach, the ids and the uuids of the
    table are pairwise distinct and every id is below the next one to be
    handed out.  Every row still has the scene count (from 2 to 10) and the
    briefing (10 characters or more) that passed the validator at its
    creation, and its uuid is one that [randomUUID] has drawn: no request
    lets a client choose it.  And no request, whatever its outcome, removes
    a session or changes its id, uuid, briefing or scene count. *)
Theorem sessions_are_kept :
  forall (w : World) (refined : list string) (st : State),
    reachable w refined st ->
    NoDup (map row_id (db st))
    /\ NoDup (map row_uuid (db st))
    /\ Forall (fun r =>
                 row_id r < next_id st
                 /\ (2 <= scene_count r <= 10)%Z
                 /\ 10 <= String.length (initial_briefing r)
                 /\ exists k, k < drawn st /\ row_uuid r = randomUUID w k)
         (db st)
    /\ (forall r res st' row,
          handle r w st = (res, st') ->
          In row (db st) ->
          exists row', In row' (db st') /\ keeps_identity row row').
Proof.
  intros w refined st Re.
  destruct (reachable_invariant _ _ _ Re) as ((Ni & Nu & Lt) & _).
  pose proof (reachable_rows _ _ _ Re) as Rows.
  split; [assumption|]. split; [assumption|]. split.
  - rewrite Forall_forall in *. intros r I.
    destruct (Rows r I) as (R1 & R2 & R3 & _). specialize (Lt r I).
    now repeat split.
  - intros r res st' row H I.
    apply (table_step_kept w st st' row); try assumption.
    now apply (handle_table_step w st r res).
Qed.

Lemma sessions_are_kept_witness :
  NoDup (map row_uuid (db grown_story))
  /\ Forall (fun r =>
               row_id r < next_id grown_story
               /\ (2 <= scene_count r <= 10)%Z
               /\ 10 <= String.length (initial_briefing r)
               /\ exists k, k < drawn grown_story
                            /\ row_uuid r = randomUUID eleven_scenes_world k)
       (db grown_story).
Proof.
  assert (Re : reachable eleven_scenes_world ["uuid-0"] grown_story).
  { apply (reach_step eleven_scenes_world [] (one_session eleven_scenes_world)
             (PatchStories "uuid-0" "Tell it in eleven scenes")
             (fst (handle (PatchStories "uuid-0" "Tell it in eleven scenes")
                     eleven_scenes_world (one_session eleven_scenes_world)))
             grown_story).
    - apply (reach_step eleven_scenes_world [] initial_state robot_request
               (fst (handle robot_request eleven_scenes_world initial_state))
               (one_session eleven_scenes_world)); [constructor|].
      apply surjective_pairing.
    - apply surjective_pairing. }
  destruct (sessions_are_kept eleven_scenes_world ["uuid-0"] grown_story Re)
    as (_ & Nu & Rows & _).
  split; [exact Nu|exact Rows].
Defined.

(** *** What is answered is what is stored *)

Lemma find_row_new u d r :
  StorySession.uuid_taken u d = false -> row_uuid r = u ->
  StorySession.find_row u (d ++ [r]) = Some r.
Proof.
  unfold StorySession.uuid_taken. intros T E.
  induction d as [|h t IH]; simpl in *.
  - now rewrite E, String.eqb_refl.
  - apply orb_false_iff in T. destruct T as [Th Tt]. rewrite Th. now apply IH.
Qed.

(** X9.  A create request that succeeds answers with the uuid drawn for the
    session and a story of exactly [sceneCount] scenes, and the session can
    be looked up at once under that uuid: it has the next id of the table,
    the briefing and the scene count of the request, and the story of the
    answer. *)
Theorem created_session_is_found :
  forall (w : World) (st st' : State) (body : StoryGeneratorController.StoreBody)
         (resp : Response),
    StoryGeneratorController.store body w st = (Ok resp, st') ->
    exists u items,
      u = randomUUID w (drawn st)
      /\ resp = Created (JObj [("sessionId", JStr u); ("story", JArr items)])
      /\ Z.of_nat (List.length items) = StoryGeneratorController.sceneCount body
      /\ StorySession.findByOrFail u w st'
         = (Ok (StorySession.mk (Some (next_id st)) (Some u)
                  (StoryGeneratorController.briefing body)
                  (StoryGeneratorController.sceneCount body) (JArr items)), st').
Proof.
  intros w st st' body resp H. rewrite store_run in H.
  destruct (_ && _ && _); [|discriminate].
  pose proof (frames_generateLinearStory
                (StoryGeneratorController.briefing body)
                (StoryGeneratorController.sceneCount body) w st) as Fr.
  destruct (StoryGeneratorService.generateLinearStory _ _ w st)
    as [[story|e] st1] eqn:G; [|discriminate].
  destruct Fr as (D1 & N1 & Dr1). simpl in D1, N1, Dr1.
  pose proof (generateLinearStory_distinct _ _ _ _ _ _ G) as K.
  destruct (generateLinearStory_success _ _ _ _ _ _ G) as (items & -> & L).
  rewrite create_run in H. cbv zeta in H.
  destruct (StorySession.prepare (JArr items)) as [text|] eqn:P; [|discriminate].
  destruct (StorySession.uuid_taken _ _) eqn:T; [discriminate|].
  injection H as <- <-. rewrite Dr1, N1.
  exists (randomUUID w (drawn st)), items. repeat split; try assumption.
  rewrite findByOrFail_run. cbn [db with_db].
  rewrite Dr1 in T. erewrite (find_row_new _ _ _ T); [|reflexivity].
  cbn [current_story_state]. now rewrite (written_reads _ _ K P).
Qed.

Lemma created_session_is_found_witness :
  exists u items,
    u = "uuid-0"
    /\ fst (handle robot_request finalize_world initial_state)
       = Ok (Created (JObj [("sessionId", JStr u); ("story", JArr items)]))
    /\ Z.of_nat (List.length items) = 2%Z
    /\ StorySession.findByOrFail u finalize_world (one_session finalize_world)
       = (Ok (StorySession.mk (Some 1) (Some u)
                "A lonely robot finds a garden on a dead planet." 2 (JArr items)),
          one_session finalize_world).
Proof.
  destruct (StoryGeneratorController.store
              (StoryGeneratorController.mkStoreBody
                 "A lonely robot finds a garden on a dead planet." 2)
              finalize_world initial_state) as [[resp|e] st'] eqn:H.
  - destruct (created_session_is_found _ _ _ _ _ H) as (u & items & U & R & L & F).
    exists u, items. unfold one_session, robot_request, handle. rewrite H.
    simpl. repeat split; try assumption. now rewrite R.
  - vm_compute in H. discriminate H.
Defined.

(** X10.  A refine or finalize request that succeeds has stored what it
    answers: a lookup of the session right after it returns the session of
    the answer, with the refined or illustrated story. *)
Theorem answer_is_what_is_stored :
  forall (w : World) (st : State),
    (forall id prompt resp st',
        StoryGeneratorController.update id prompt w st = (Ok resp, st') ->
        exists session,
          StorySession.findByOrFail id w st' = (Ok session, st')
          /\ resp = OkBody (session_body session))
    /\ (forall sessionId url resp st',
           FinalStoriesController.store sessionId url w st = (Ok resp, st') ->
           exists session,
             StorySession.findByOrFail sessionId w st' = (Ok session, st')
             /\ resp = OkSession session).
Proof.
  intros w st. split.
  - intros id prompt resp st' H. rewrite update_run in H.
    apply on_session_success in H; [|intros; apply frames_refineStory].
    destruct H as (r & story & out & text & st1 & F & C & _ & G & P & -> & D & _).
    exists (session_of r out). split; [|reflexivity].
    rewrite findByOrFail_run, D, (find_row_update _ _ _ text F).
    cbn [current_story_state row_of].
    apply refineStory_returns_reply, story_of_reply_distinct in G.
    now rewrite (written_reads _ _ G P).
  - intros u url resp st' H. rewrite final_store_run in H.
    apply on_session_success in H; [|intros; apply frames_generateFinalImages].
    destruct H as (r & story & out & text & st1 & F & C & _ & G & P & -> & D & _).
    exists (session_of r out). split; [|reflexivity].
    rewrite findByOrFail_run, D, (find_row_update _ _ _ text F).
    cbn [current_story_state row_of].
    apply consume_distinct in C.
    apply (generateFinalImages_distinct _ _ _ _ _ _ C) in G.
    now rewrite (written_reads _ _ G P).
Qed.

Lemma answer_is_what_is_stored_witness :
  (exists session st',
      StoryGeneratorController.update "uuid-0" "Add a third scene"
        three_scenes_world (one_session three_scenes_world)
      = (Ok (OkBody (session_body session)), st')
      /\ StorySession.findByOrFail "uuid-0" three_scenes_world st'
         = (Ok session, st'))
  /\ (exists session st',
         FinalStoriesController.store "uuid-0" reference_url finalize_world
           (one_session finalize_world)
         = (Ok (OkSession session), st')
         /\ StorySession.findByOrFail "uuid-0" finalize_world st'
            = (Ok session, st')).
Proof.
  split.
  - destruct (StoryGeneratorController.update "uuid-0" "Add a third scene"
                three_scenes_world (one_session three_scenes_world))
      as [[resp|e] st'] eqn:H.
    + destruct (proj1 (answer_is_what_is_stored three_scenes_world
                         (one_session three_scenes_world)) _ _ _ _ H)
        as (session & F & ->).
      exists session, st'. split; [reflexivity|exact F].
    + vm_compute in H. discriminate H.
  - destruct (FinalStoriesController.store "uuid-0" reference_url finalize_world
                (one_session finalize_world)) as [[resp|e] st'] eqn:H.
    + destruct (proj2 (answer_is_what_is_stored finalize_world
                         (one_session finalize_world)) _ _ _ _ H)
        as (session & F & ->).
      exists session, st'. split; [reflexivity|exact F].
    + vm_compute in H. discriminate H.
Defined.

(** X11.  A refinement whose reply carries a falsy story other than null
    (false, 0 or the empty string) is returned by the service, but
    [prepare] writes such a value as NULL and the column does not take it:
    the request fails at the write, after its one remote request, and the
    table is as it was. *)
Theorem falsy_story_is_refused_by_the_table :
  forall (w : World) (st : State) (id prompt : string) (r : Row)
         (items : list jsval) (v : jsval),
    StorySession.find_row id (db st) = Some r ->
    StorySession.consume (Some (current_story_state r)) = Ok (JArr items) ->
    5 <= String.length prompt ->
    story_of_reply "story"
      (chat_completions w (List.length (calls st))
         (refinement_request (JArr items) prompt)) = Some v ->
    truthy v = false -> v <> JNull ->
    exists st',
      StoryGeneratorController.update id prompt w st = (Throw DbError, st')
      /\ db st' = db st
      /\ calls st'
         = (calls st ++ [ChatCall (refinement_request (JArr items) prompt)])%list.
Proof.
  intros w st id prompt r items v F C L Sr T N.
  rewrite update_run. unfold on_session. rewrite F, C.
  apply Nat.leb_le in L. rewrite L.
  rewrite refineStory_run. cbv zeta. rewrite Sr.
  destruct v as [| b | z | s | l | l]; try discriminate T; [now elim N| | |];
    unfold StorySession.prepare; rewrite T; eexists; repeat split.
Qed.

Lemma falsy_story_is_refused_by_the_table_witness :
  exists st',
    StoryGeneratorController.update "uuid-0" "Remove every scene"
      zero_story_world (one_session zero_story_world) = (Throw DbError, st')
    /\ db st' = db (one_session zero_story_world).
Proof.
  destruct (StorySession.find_row "uuid-0" (db (one_session zero_story_world)))
    as [r|] eqn:F; [|vm_compute in F; discriminate F].
  assert (C : StorySession.consume (Some (current_story_state r))
              = Ok sample_story).
  { vm_compute in F. injection F as <-. vm_compute. reflexivity. }
  destruct (falsy_story_is_refused_by_the_table zero_story_world
              (one_session zero_story_world) "uuid-0" "Remove every scene" r
              _ (JNum 0) F C)
    as (st' & H & D & _).
  - simpl. lia.
  - vm_compute. reflexivity.
  - reflexivity.
  - discriminate.
  - exists st'. now split.
Defined.

(** *** A batch with a missing image *)

Lemma build_all_ok build xs :
  (forall x, In x xs -> exists p, build x = Ok p) ->
  snd (build_all build xs) = None.
Proof.
  induction xs as [|x t IH]; simpl; [reflexivity|]. intros H.
  destruct (H x (or_introl eq_refl)) as (p & ->).
  destruct (build_all build t) as [ps e] eqn:B. simpl in *.
  apply IH. intros y I. apply H. now right.
Qed.

Lemma settle_all_resolved w base prompts :
  (forall j p, nth_error prompts j = Some p ->
     exists r, images_generate w (base + j) (image_request p) = Resolved r) ->
  exists rs, settle_all (outcomes_from w base prompts) = Ok rs.
Proof.
  revert base. induction prompts as [|p t IH]; intros base H; simpl.
  - now exists [].
  - destruct (H 0 p eq_refl) as (r & R). rewrite Nat.add_0_r in R. rewrite R.
    destruct (IH (S base)) as (rs & ->).
    + intros j q Hj. destruct (H (S j) q Hj) as (r' & R').
      exists r'. now replace (S base + j) with (base + S j) by lia.
    + now exists (r :: rs).
Qed.

(** The second [map] stops at the first element whose callback throws. *)
Lemma mapi_from_first_failure {A B} (f : A -> nat -> result B) base xs i x e :
  nth_error xs i = Some x ->
  f x (base + i) = Throw e ->
  (forall j y, j < i -> nth_error xs j = Some y -> exists z, f y (base + j) = Ok z) ->
  mapi_from f base xs = Throw e.
Proof.
  revert base i. induction xs as [|x0 t IH]; intros base i Hx Hf Hb.
  - destruct i; discriminate.
  - destruct i as [|i]; simpl in *.
    + injection Hx as ->. rewrite Nat.add_0_r in Hf. now rewrite Hf.
    + destruct (Hb 0 x0) as (z & Hz); [lia|reflexivity|].
      rewrite Nat.add_0_r in Hz. rewrite Hz. simpl.
      rewrite (IH (S base) i); [reflexivity|assumption| |].
      * now replace (S base + i) with (base + S i) by lia.
      * intros j y Lj Hy. destruct (Hb (S j) y) as (z' & Hz'); [lia|assumption|].
        exists z'. now replace (S base + j) with (base + S j) by lia.
Qed.

(** A batch whose prompts are all built and whose requests all resolve,
    but whose answer [i] is the first that cannot be joined: every request
    of the batch has left, and the exception is the one of element [i]. *)
Lemma batch_first_missing w st build join items i x e :
  (forall j y, nth_error items j = Some y ->
     exists p r,
       build y = Ok p
       /\ images_generate w (List.length (calls st) + j) (image_request p)
          = Resolved r
       /\ (j < i -> forall rs, nth_error rs j = Some r ->
                     exists z, join rs y j = Ok z)
       /\ (j = i -> forall rs, nth_error rs j = Some r -> join rs y j = Throw e)) ->
  nth_error items i = Some x ->
  exists prompts,
    batch w st build join items = (Throw e, add_calls st (image_calls prompts))
    /\ List.length prompts = List.length items.
Proof.
  intros H Hx. unfold batch.
  assert (B : snd (build_all build items) = None).
  { apply build_all_ok. intros y I. apply In_nth_error in I.
    destruct I as (j & Hj). destruct (H j y Hj) as (p & _ & Bp & _). now exists p. }
  rewrite B. exists (fst (build_all build items)).
  split; [|now apply build_all_length].
  assert (Rs : exists rs,
             settle_all (outcomes_from w (List.length (calls st))
                           (fst (build_all build items))) = Ok rs).
  { apply settle_all_resolved. intros j p Hp.
    assert (Lj : j < List.length items).
    { rewrite <- (build_all_length build items B). apply nth_error_Some. congruence. }
    destruct (nth_error items j) as [y|] eqn:Hy;
      [|apply nth_error_None in Hy; lia].
    destruct (H j y Hy) as (p' & r & Bp & R & _).
    destruct (build_all_nth _ _ _ _ B Hy) as (p'' & Bp' & Np).
    rewrite Hp in Np. injection Np as <-. rewrite Bp in Bp'. injection Bp' as <-.
    now exists r. }
  destruct Rs as (rs & Rs). rewrite Rs. cbn [rbind]. f_equal.
  apply (mapi_from_first_failure _ 0 items i x); [assumption| |].
  - destruct (H i x Hx) as (p & r & Bp & R & _ & Hi).
    destruct (build_all_nth _ _ _ _ B Hx) as (p' & Bp' & Np).
    rewrite Bp in Bp'. injection Bp' as <-.
    destruct (settle_all_outcomes _ _ _ _ _ _ Rs Np) as (r' & Nr & R').
    rewrite R in R'. injection R' as <-. now apply Hi.
  - intros j y Lj Hy. destruct (H j y Hy) as (p & r & Bp & R & Hlt & _).
    destruct (build_all_nth _ _ _ _ B Hy) as (p' & Bp' & Np).
    rewrite Bp in Bp'. injection Bp' as <-.
    destruct (settle_all_outcomes _ _ _ _ _ _ Rs Np) as (r' & Nr & R').
    rewrite R in R'. injection R' as <-. now apply Hlt.
Qed.

Lemma usable_url_some r : usable_url r <> None -> exists u, usable_url r = Some u.
Proof. destruct (usable_url r) as [u|]; [now exists u|now intros []]. Qed.

(** X12.  A batch inspects its answers only after all its requests have
    been sent and have resolved.  When every prompt can be built and every
    request resolves, but some answers bring no url, the stage throws the
    message of the first such position: it names the style by its [name],
    the scene by its [id]; all three, respectively all the scenes', image
    requests have left by then. *)
Theorem missing_image_is_reported_by_name :
  forall (w : World) (st : State),
    (forall firstScene prompt styles i entry name,
        ArtStyleService.buildPrompt firstScene = Ok prompt ->
        story_of_reply "artStyles"
          (chat_completions w (List.length (calls st))
             (ArtStyleService.styles_request prompt)) = Some (JArr styles) ->
        List.length styles = 3 ->
        (forall j style, nth_error styles j = Some style ->
           exists p r,
             ArtStyleService.fullImagePrompt firstScene style = Ok p
             /\ images_generate w (S (List.length (calls st)) + j) (image_request p)
                = Resolved r
             /\ (j < i -> usable_url r <> None)
             /\ (j = i -> usable_url r = None)) ->
        nth_error styles i = Some entry ->
        hole (Some entry) "name" = Ok name ->
        exists st',
          ArtStyleService.suggestStyles firstScene w st
          = (Throw (missing_style_image name), st')
          /\ images_issued st st' = 3)
    /\ (forall url cp scenes i scene id,
           FinalStoryService.createConsistencyPrompt url w st
           = (Ok cp, add_calls st [ChatCall (FinalStoryService.consistency_request url)]) ->
           (forall j s, nth_error scenes j = Some s ->
              exists p r,
                FinalStoryService.finalPrompt cp s = Ok p
                /\ images_generate w (S (List.length (calls st)) + j) (image_request p)
                   = Resolved r
                /\ (j < i -> usable_url r <> None)
                /\ (j = i -> usable_url r = None)) ->
           nth_error scenes i = Some scene ->
           hole (Some scene) "id" = Ok id ->
           exists st',
             FinalStoryService.generateFinalImages (JArr scenes) url w st
             = (Throw (missing_scene_image id), st')
             /\ images_issued st st' = List.length scenes).
Proof.
  intros w st. split.
  - intros firstScene prompt styles i entry name B Sr L H He Hn.
    rewrite suggestStyles_run, generateStylePrompts_run, B. cbv zeta.
    rewrite Sr. apply Nat.eqb_eq in L. rewrite L. cbv zeta.
    destruct (batch_first_missing w
                (add_calls st [ChatCall (ArtStyleService.styles_request prompt)])
                (ArtStyleService.fullImagePrompt firstScene)
                ArtStyleService.style_suggestion styles i entry
                (missing_style_image name)) as (prompts & Bt & Lp); [|assumption|].
    + intros j style Hj. destruct (H j style Hj) as (p & r & Bp & R & Hlt & Heq).
      exists p, r. repeat split; try assumption.
      * simpl. rewrite length_app. simpl.
        now replace (List.length (calls st) + 1 + j)
          with (S (List.length (calls st)) + j) by lia.
      * intros Lj rs Nr. unfold ArtStyleService.style_suggestion. rewrite Nr.
        destruct (usable_url_some r (Hlt Lj)) as (u & ->). eexists. reflexivity.
      * intros -> rs Nr. unfold ArtStyleService.style_suggestion. rewrite Nr.
        rewrite (Heq eq_refl). rewrite Hj in He. injection He as ->.
        now rewrite Hn.
    + rewrite Bt. eexists. split; [reflexivity|]. cbn [snd].
      rewrite images_issued_calls by reflexivity. rewrite Lp.
      now apply Nat.eqb_eq.
  - intros url cp scenes i scene id C H Hs Hi.
    rewrite generateFinalImages_run, C. cbv zeta.
    destruct (batch_first_missing w
                (add_console
                   (add_calls st [ChatCall (FinalStoryService.consistency_request url)])
                   [consistency_log cp])
                (FinalStoryService.finalPrompt cp)
                FinalStoryService.finalized_scene scenes i scene
                (missing_scene_image id)) as (prompts & Bt & Lp); [|assumption|].
    + intros j s Hj. destruct (H j s Hj) as (p & r & Bp & R & Hlt & Heq).
      exists p, r. repeat split; try assumption.
      * simpl. rewrite length_app. simpl.
        now replace (List.length (calls st) + 1 + j)
          with (S (List.length (calls st)) + j) by lia.
      * intros Lj rs Nr. unfold FinalStoryService.finalized_scene. rewrite Nr.
        destruct (usable_url_some r (Hlt Lj)) as (u & ->). eexists. reflexivity.
      * intros -> rs Nr. unfold FinalStoryService.finalized_scene. rewrite Nr.
        rewrite (Heq eq_refl). rewrite Hj in Hs. injection Hs as ->.
        now rewrite Hi.
    + rewrite Bt. eexists. split; [reflexivity|]. cbn [snd].
      erewrite images_issued_same_calls;
        [rewrite (images_issued_calls st prompts
                    (ChatCall (FinalStoryService.consistency_request url)) eq_refl)
        |reflexivity].
      exact Lp.
Qed.

Lemma missing_image_is_reported_by_name_witness :
  (exists st',
      ArtStyleService.suggestStyles first_scene second_preview_missing_world
        initial_state = (Throw (missing_style_image "Noir"), st')
      /\ images_issued initial_state st' = 3)
  /\ (exists st',
         FinalStoryService.generateFinalImages sample_story reference_url
           second_image_missing_world initial_state
         = (Throw (missing_scene_image "2"), st')
         /\ images_issued initial_state st' = 2).
Proof.
  split.
  - destruct (ArtStyleService.buildPrompt first_scene) as [prompt|e] eqn:B;
      [|vm_compute in B; discriminate B].
    apply (proj1 (missing_image_is_reported_by_name second_preview_missing_world
                    initial_state)
             first_scene prompt
             [style "Watercolour"; style "Noir"; style "Pixel"] 1
             (style "Noir") "Noir" B).
    + vm_compute. reflexivity.
    + reflexivity.
    + intros j s Hj. destruct j as [|[|[|j]]]; simpl in Hj;
        try (destruct j; discriminate Hj); injection Hj as <-;
        eexists _, _; (split; [vm_compute; reflexivity|]);
        (split; [vm_compute; reflexivity|]);
        (split; [intros Lj; try lia; vm_compute; discriminate
                |intros Ej; try discriminate Ej; reflexivity]).
    + reflexivity.
    + reflexivity.
  - apply (proj2 (missing_image_is_reported_by_name second_image_missing_world
                    initial_state)
             reference_url "a small rusty robot, watercolour"
             [scene_to_js (sample_scene 1); scene_to_js (sample_scene 2)] 1
             (scene_to_js (sample_scene 2)) "2").
    + vm_compute. reflexivity.
    + intros j s Hj. destruct j as [|[|j]]; simpl in Hj;
        try (destruct j; discriminate Hj); injection Hj as <-;
        eexists _, _; (split; [vm_compute; reflexivity|]);
        (split; [vm_compute; reflexivity|]);
        (split; [intros Lj; try lia; vm_compute; discriminate
                |intros Ej; try discriminate Ej; reflexivity]).
    + reflexivity.
    + reflexivity.
Defined.

(** *** Illustrating twice *)

Lemma obj_set_overwrite k v v' l : obj_set k v (obj_set k v' l) = obj_set k v l.
Proof.
  induction l as [|[k0 v0] t IH]; simpl.
  - now rewrite String.eqb_refl.
  - destruct (String.eqb k k0) eqn:E; simpl.
    + now rewrite String.eqb_refl.
    + now rewrite E, IH.
Qed.

Lemma obj_set_again k k' v v' x l :
  k <> k' ->
  obj_set k v' (obj_set k' x (obj_set k v l)) = obj_set k' x (obj_set k v' l).
Proof.
  intros N. pose proof N as N1. apply String.eqb_neq in N1.
  assert (N2 : String.eqb k' k = false) by (rewrite String.eqb_sym; exact N1).
  induction l as [|[k0 v0] t IH]; simpl.
  - rewrite N2. simpl. now rewrite String.eqb_refl.
  - destruct (String.eqb k k0) eqn:E; simpl.
    + rewrite N2. simpl. now rewrite String.eqb_refl.
    + destruct (String.eqb k' k0) eqn:E'; simpl.
      * rewrite N1. simpl. now rewrite obj_set_overwrite.
      * rewrite E. simpl. now rewrite IH.
Qed.

Lemma hole_illustrated scene u k :
  scene <> JNull -> k <> "characterImagePrompt" -> k <> "backgroundPrompt" ->
  k <> "length" ->
  hole (Some (FinalStoryService.illustrated scene u)) k = hole (Some scene) k.
Proof.
  intros N K1 K2 K3. unfold hole, get_u.
  destruct (illustrated_fields scene u N) as (_ & _ & F). now rewrite F.
Qed.

(** X13.  Illustrating an illustrated scene again only replaces the url:
    the result is the scene illustrated once with the new url, with its
    keys in the same order.  And the prompt of the image of a scene does
    not read the two fields the illustration writes, so a story that is
    finalized a second time is drawn from the same prompts as the first
    time. *)
Theorem illustration_is_repeatable :
  forall (cp : string) (scene : jsval) (u u' : string),
    FinalStoryService.illustrated (FinalStoryService.illustrated scene u) u'
    = FinalStoryService.illustrated scene u'
    /\ (forall p,
          FinalStoryService.finalPrompt cp scene = Ok p ->
          FinalStoryService.finalPrompt cp (FinalStoryService.illustrated scene u)
          = Ok p).
Proof.
  intros cp scene u u'. split.
  - unfold FinalStoryService.illustrated. cbn [spread own_props]. f_equal.
    rewrite (obj_set_again "characterImagePrompt" "backgroundPrompt")
      by discriminate.
    now rewrite obj_set_overwrite.
  - intros p H. pose proof (finalPrompt_not_null _ _ _ H) as N.
    unfold FinalStoryService.finalPrompt in *.
    now rewrite !hole_illustrated by (assumption || discriminate).
Qed.

Lemma illustration_is_repeatable_witness :
  FinalStoryService.finalPrompt "a small rusty robot, watercolour"
    (FinalStoryService.illustrated (scene_to_js (sample_scene 1))
       "https://img.example/1")
  = FinalStoryService.finalPrompt "a small rusty robot, watercolour"
      (scene_to_js (sample_scene 1)).
Proof.
  destruct (FinalStoryService.finalPrompt "a small rusty robot, watercolour"
              (scene_to_js (sample_scene 1))) as [p|e] eqn:H.
  - exact (proj2 (illustration_is_repeatable _ _ "https://img.example/1" "") p H).
  - vm_compute in H. discriminate H.
Defined.

(** *** A story that is not an array *)

(** X14.  The refinement can store a story that is not an array.  The
    later stages do not recover from it: a finalize request on such a
    session sends its one request to the text model, then throws (a type
    error, when that request brought a prompt) before any image is
    requested and without writing; a style request on a story that is a
    number or [true] throws a type error before anything is sent. *)
Theorem non_array_story_breaks_later_stages :
  forall (w : World) (st : State) (id : string) (r : Row) (story : jsval),
    StorySession.find_row id (db st) = Some r ->
    StorySession.consume (Some (current_story_state r)) = Ok story ->
    (forall items, story <> JArr items) ->
    (forall url,
        isURL w url = true ->
        exists e st',
          FinalStoriesController.store id url w st = (Throw e, st')
          /\ db st' = db st
          /\ calls st'
             = (calls st ++ [ChatCall (FinalStoryService.consistency_request url)])%list
          /\ (reply_content
                (chat_completions w (List.length (calls st))
                   (FinalStoryService.consistency_request url)) <> None ->
              e = TypeError))
    /\ ((exists z, story = JNum z /\ z <> 0%Z) \/ story = JBool true ->
        ArtStylesController.show id w st = (Throw TypeError, st)).
Proof.
  intros w st id r story F C Na. split.
  - intros url V. rewrite final_store_run. unfold on_session. rewrite F, C, V.
    rewrite generateFinalImages_run, createConsistencyPrompt_run.
    unfold reply_content.
    destruct (chat_completions _ _ _) as [[ch]|msg]; simpl.
    + destruct ch as [|[s|] ?]; simpl;
        try (eexists _, _; repeat split; intros N; now elim N).
      destruct (String.eqb s ""); simpl;
        [eexists _, _; repeat split; intros N; now elim N|].
      assert (Hs : match story with JArr _ => False | _ => True end)
        by (destruct story; try exact I; now elim (Na items)).
      destruct story; try contradiction; eexists _, _; repeat split.
    + eexists _, _. repeat split. intros N. now elim N.
  - intros S. rewrite show_run, F, C.
    destruct S as [(z & -> & Nz)| ->]; [|reflexivity].
    unfold ArtStylesController.has_no_scenes. simpl.
    apply Z.eqb_neq in Nz. now rewrite Nz.
Qed.

Lemma non_array_story_breaks_later_stages_witness :
  ArtStylesController.show "uuid-0" number_refined_world number_story_state
  = (Throw TypeError, number_story_state)
  /\ exists e st',
       FinalStoriesController.store "uuid-0" reference_url number_refined_world
         number_story_state = (Throw e, st')
       /\ db st' = db number_story_state.
Proof.
  destruct (StorySession.find_row "uuid-0" (db number_story_state))
    as [r|] eqn:F; [|vm_compute in F; discriminate F].
  assert (C : StorySession.consume (Some (current_story_state r)) = Ok (JNum 5)).
  { vm_compute in F. injection F as <-. vm_compute. reflexivity. }
  destruct (non_array_story_breaks_later_stages number_refined_world
              number_story_state "uuid-0" r (JNum 5) F C) as (Fin & Show).
  - discriminate.
  - split.
    + apply Show. left. exists 5%Z. split; [reflexivity|discriminate].
    + destruct (Fin reference_url eq_refl) as (e & st' & H & D & _).
      exists e, st'. now split.
Defined.

(** *** The route logger *)





(** *** The INSERT of a create request *)

Lemma generateLinearStory_calls briefing n w st :
  calls (snd (StoryGeneratorService.generateLinearStory briefing n w st))
  = (calls st ++
     [ChatCall (StoryGeneratorService.story_request
                  StoryGeneratorService.getSystemMessage
                  (StoryGeneratorService.buildInitialPrompt briefing n))])%list.
Proof.
  unfold StoryGeneratorService.generateLinearStory, JSON_parse.
  run_monad. rewrite chat_create_run.
  destruct (chat_completions _ _ _) as [[ch]|msg]; simpl; [|reflexivity].
  unfold first_content; simpl.
  destruct ch as [|[text|] rest]; simpl; try reflexivity.
  destruct (String.eqb text ""); simpl; try reflexivity.
  destruct (Json.parse text) as [v|]; simpl; try reflexivity.
  destruct (get v "story") as [[s|]|e0]; simpl; try reflexivity.
  destruct s; simpl; try reflexivity.
  destruct (Z.eqb _ n); reflexivity.
Qed.

Lemma uuid_taken_true u d :
  StorySession.uuid_taken u d = true -> exists r, In r d /\ row_uuid r = u.
Proof.
  unfold StorySession.uuid_taken. intros H. apply existsb_exists in H.
  destruct H as (r & I & E). exists r. split; [assumption|].
  now apply String.eqb_eq.
Qed.

(** X16.  A create request fails at the database only when the uuid drawn
    for it is already in the table: the story it has generated is a truthy
    array, so the column constraint is never the cause.  When that happens
    the story has been generated, with its one request to the text model,
    and nothing is inserted.  On a server whose uuid source never repeats
    itself it does not happen. *)
Theorem create_fails_only_on_collision :
  forall (w : World) (st : State) (body : StoryGeneratorController.StoreBody),
    (forall st',
        StoryGeneratorController.store body w st = (Throw DbError, st') ->
        StorySession.uuid_taken (randomUUID w (drawn st)) (db st) = true
        /\ db st' = db st /\ next_id st' = next_id st
        /\ List.length (calls st') = S (List.length (calls st)))
    /\ (forall refined,
           reachable w refined st -> never_repeats w ->
           fst (StoryGeneratorController.store body w st) <> Throw DbError).
Proof.
  intros w st body.
  assert (A : forall st',
             StoryGeneratorController.store body w st = (Throw DbError, st') ->
             StorySession.uuid_taken (randomUUID w (drawn st)) (db st) = true
             /\ db st' = db st /\ next_id st' = next_id st
             /\ List.length (calls st') = S (List.length (calls st))).
  { intros st' H. rewrite store_run in H.
    destruct (_ && _ && _); [|discriminate].
    pose proof (frames_generateLinearStory
                  (StoryGeneratorController.briefing body)
                  (StoryGeneratorController.sceneCount body) w st) as Fr.
    pose proof (generateLinearStory_calls
                  (StoryGeneratorController.briefing body)
                  (StoryGeneratorController.sceneCount body) w st) as Cl.
    destruct (StoryGeneratorService.generateLinearStory _ _ w st)
      as [[story|e] st1] eqn:G.
    - destruct Fr as (D1 & N1 & Dr1). simpl in D1, N1, Dr1, Cl.
      destruct (generateLinearStory_success _ _ _ _ _ _ G) as (items & -> & L).
      rewrite create_run in H. cbv zeta in H. cbn in H.
      destruct (StorySession.uuid_taken _ _) eqn:T; [|discriminate].
      injection H as <-. simpl. rewrite Dr1, D1 in T.
      repeat split; try assumption. rewrite Cl, length_app. simpl. lia.
    - injection H as E _. subst e.
      exfalso. exact (raises_generateLinearStory _ _ w st _ st1 G). }
  split; [exact A|].
  intros refined Re Nr H.
  destruct (StoryGeneratorController.store body w st) as [res st'] eqn:S.
  simpl in H. subst res. destruct (A st' eq_refl) as (T & _).
  apply uuid_taken_true in T. destruct T as (r & I & E).
  pose proof (reachable_rows _ _ _ Re) as Rows. rewrite Forall_forall in Rows.
  destruct (Rows r I) as (_ & _ & (k & Lk & Ek) & _).
  rewrite Ek in E. apply Nr in E. lia.
Qed.

Lemma create_fails_only_on_collision_witness :
  (exists st',
      handle robot_request one_uuid_world (one_session one_uuid_world)
      = (Throw DbError, st')
      /\ db st' = db (one_session one_uuid_world))
  /\ fst (handle robot_request finalize_world (one_session finalize_world))
     <> Throw DbError.
Proof.
  split.
  - destruct (handle robot_request one_uuid_world (one_session one_uuid_world))
      as [[resp|e] st'] eqn:H.
    + vm_compute in H. discriminate H.
    + assert (E : e = DbError) by (vm_compute in H; now injection H as <- _).
      subst e. exists st'. split; [reflexivity|].
      apply (proj1 (create_fails_only_on_collision one_uuid_world
                      (one_session one_uuid_world) _) st' H).
  - apply (proj2 (create_fails_only_on_collision finalize_world
                    (one_session finalize_world) _) []).
    + apply (reach_step finalize_world [] initial_state robot_request
               (fst (handle robot_request finalize_world initial_state))
               (one_session finalize_world)); [constructor|].
      apply surjective_pairing.
    + intros i j H. unfold finalize_world, scripted_world, sample_world in H.
      cbn [randomUUID String.append] in H. injection H as H.
      unfold index_key in H. apply string_of_Z_inj in H. lia.
Defined.

(** *** A prompt that cannot be built *)

Lemma build_all_first_failure build xs i x e :
  nth_error xs i = Some x ->
  build x = Throw e ->
  (forall j y, j < i -> nth_error xs j = Some y -> exists p, build y = Ok p) ->
  snd (build_all build xs) = Some e
  /\ List.length (fst (build_all build xs)) = i.
Proof.
  revert i. induction xs as [|x0 t IH]; intros i Hx Hb Hlt.
  - destruct i; discriminate.
  - destruct i as [|i]; simpl in *.
    + injection Hx as ->. rewrite Hb. now split.
    + destruct (Hlt 0 x0) as (p & ->); [lia|reflexivity|].
      destruct (IH i Hx Hb) as (S1 & S2).
      { intros j y Lj Hy. apply (Hlt (S j) y); [lia|assumption]. }
      destruct (build_all build t) as [ps e']. simpl in *. split; [assumption|lia].
Qed.

Lemma batch_first_unbuildable w st build join items i x e :
  nth_error items i = Some x ->
  build x = Throw e ->
  (forall j y, j < i -> nth_error items j = Some y -> exists p, build y = Ok p) ->
  exists prompts,
    batch w st build join items = (Throw e, add_calls st (image_calls prompts))
    /\ List.length prompts = i.
Proof.
  intros Hx Hb Hlt.
  destruct (build_all_first_failure build items i x e Hx Hb Hlt) as (S1 & S2).
  exists (fst (build_all build items)). unfold batch. rewrite S1. now split.
Qed.

(** X17.  The requests of a batch are sent one by one while the first [map]
    runs.  When the prompt of element [i] cannot be built (the element is
    null, for instance, as a reply of the text model may have it), the
    [map] throws there: the requests of the elements before it have been
    sent and are never awaited, those after it are not sent, and the stage
    throws the type error. *)
Theorem unbuildable_prompt_aborts_the_batch :
  forall (w : World) (st : State),
    (forall firstScene prompt styles i entry e,
        ArtStyleService.buildPrompt firstScene = Ok prompt ->
        story_of_reply "artStyles"
          (chat_completions w (List.length (calls st))
             (ArtStyleService.styles_request prompt)) = Some (JArr styles) ->
        List.length styles = 3 ->
        nth_error styles i = Some entry ->
        ArtStyleService.fullImagePrompt firstScene entry = Throw e ->
        (forall j style, j < i -> nth_error styles j = Some style ->
           exists p, ArtStyleService.fullImagePrompt firstScene style = Ok p) ->
        exists st',
          ArtStyleService.suggestStyles firstScene w st = (Throw TypeError, st')
          /\ images_issued st st' = i)
    /\ (forall url cp scenes i scene e,
           FinalStoryService.createConsistencyPrompt url w st
           = (Ok cp, add_calls st [ChatCall (FinalStoryService.consistency_request url)]) ->
           nth_error scenes i = Some scene ->
           FinalStoryService.finalPrompt cp scene = Throw e ->
           (forall j s, j < i -> nth_error scenes j = Some s ->
              exists p, FinalStoryService.finalPrompt cp s = Ok p) ->
           exists st',
             FinalStoryService.generateFinalImages (JArr scenes) url w st
             = (Throw TypeError, st')
             /\ images_issued st st' = i)
    /\ (forall firstScene cp,
           ArtStyleService.fullImagePrompt firstScene JNull = Throw TypeError
           /\ FinalStoryService.finalPrompt cp JNull = Throw TypeError).
Proof.
  intros w st. split; [|split].
  - intros firstScene prompt styles i entry e B Sr L He Hb Hlt.
    rewrite suggestStyles_run, generateStylePrompts_run, B. cbv zeta.
    rewrite Sr. apply Nat.eqb_eq in L. rewrite L. cbv zeta.
    pose proof (fullImagePrompt_throws _ _ _ Hb) as ->.
    destruct (batch_first_unbuildable w
                (add_calls st [ChatCall (ArtStyleService.styles_request prompt)])
                (ArtStyleService.fullImagePrompt firstScene)
                ArtStyleService.style_suggestion styles i entry TypeError
                He Hb Hlt) as (prompts & Bt & Lp).
    rewrite Bt. eexists. split; [reflexivity|]. cbn [snd].
    now rewrite images_issued_calls by reflexivity.
  - intros url cp scenes i scene e C Hs Hb Hlt.
    rewrite generateFinalImages_run, C. cbv zeta.
    pose proof (finalPrompt_throws _ _ _ Hb) as ->.
    destruct (batch_first_unbuildable w
                (add_console
                   (add_calls st [ChatCall (FinalStoryService.consistency_request url)])
                   [consistency_log cp])
                (FinalStoryService.finalPrompt cp)
                FinalStoryService.finalized_scene scenes i scene TypeError
                Hs Hb Hlt) as (prompts & Bt & Lp).
    rewrite Bt. eexists. split; [reflexivity|]. cbn [snd].
    erewrite images_issued_same_calls;
      [rewrite (images_issued_calls st prompts
                  (ChatCall (FinalStoryService.consistency_request url)) eq_refl)
      |reflexivity].
    exact Lp.
  - intros firstScene cp. split; [|reflexivity].
    unfold ArtStyleService.fullImagePrompt.
    destruct (hole firstScene "characterImagePrompt") as [s|e] eqn:H;
      [reflexivity|]. simpl. now rewrite (hole_throws _ _ _ H).
Qed.

Lemma unbuildable_prompt_aborts_the_batch_witness :
  (exists st',
      ArtStyleService.suggestStyles first_scene null_entry_world initial_state
      = (Throw TypeError, st')
      /\ images_issued initial_state st' = 1)
  /\ (exists st',
         FinalStoryService.generateFinalImages holed_story reference_url
           illustrator_world initial_state = (Throw TypeError, st')
         /\ images_issued initial_state st' = 1)
  /\ fst (handle (PostFinalStory "uuid-0" reference_url) holed_story_world
            (snd (handle (PostStories
                            (StoryGeneratorController.mkStoreBody
                               "A lonely robot finds a garden on a dead planet." 3))
                    holed_story_world initial_state)))
     = Throw TypeError.
Proof.
  split; [|split].
  - destruct (ArtStyleService.buildPrompt first_scene) as [prompt|e] eqn:B;
      [|vm_compute in B; discriminate B].
    apply (proj1 (unbuildable_prompt_aborts_the_batch null_entry_world
                    initial_state)
             first_scene prompt [style "Noir"; JNull; style "Pixel"] 1 JNull
             TypeError B).
    + vm_compute. reflexivity.
    + reflexivity.
    + reflexivity.
    + reflexivity.
    + intros j s Lj Hj. destruct j as [|j]; [|lia].
      injection Hj as <-. eexists. vm_compute. reflexivity.
  - apply (proj1 (proj2 (unbuildable_prompt_aborts_the_batch illustrator_world
                           initial_state))
             reference_url "a small rusty robot, watercolour"
             [scene_to_js (sample_scene 1); JNull; scene_to_js (sample_scene 3)]
             1 JNull TypeError).
    + vm_compute. reflexivity.
    + reflexivity.
    + reflexivity.
    + intros j s Lj Hj. destruct j as [|j]; [|lia].
      injection Hj as <-. eexists. vm_compute. reflexivity.
  - vm_compute. reflexivity.
Defined.
